(** * Empire System, Section 5 "The Spine": the Workflow Orchestrator

    A shallow embedding of [src/nodes/workflow-orchestrator.js] (class
    [WorkflowOrchestrator]) together with the two tables of
    [src/config/database.js] it reads and writes and the Bull queue of
    [src/config/redis.js] it dispatches through.

    Modelling decisions, all visible in the definitions below:
    - the PostgreSQL store is a pair of tables (lists of rows, in insertion
      order), the two SERIAL sequences and the value of CURRENT_TIMESTAMP;
      a statement fails only when it would put NULL into a NOT NULL column.
      The statements are modelled for the values the columns take: ids
      within [int4], names and property references within [varchar255].
      Outside these limits PostgreSQL refuses the statement, which the
      model does not do: a theorem that would be false there carries the
      limit as a hypothesis.  Lost connections are outside the model, and
      so is a queue that refuses a job, except in [processJob_on];
    - [async] methods are computations in a state-and-exception monad: a
      rejected promise keeps the writes made before the rejection;
    - [logger] calls have no effect on the modelled state and are dropped;
    - [plans[workflowType]] is a JavaScript property read: own properties
      first, then the properties inherited from [Object.prototype];
    - [this.executeNode] is a parameter of [processJob], so that units other
      than the shipped placeholder can be plugged in;
    - the running system is a transition system over the store and the
      queue: callers create workflows and read their status, Bull hands
      each waiting message once, oldest first, to [processJob], and any
      number of messages can be in flight. *)

From stdpp Require Import base option list strings gmap pretty sorting.

Open Scope string_scope.
Open Scope nat_scope.
Open Scope list_scope.
Open Scope stdpp_scope.

(** ** JavaScript values met by [getExecutionPlan] and its caller *)

Inductive JsValue :=
  | JsUndefined
  | JsArray (elements : list string)
  | JsFunction (name : string) (arity : nat)
  | JsObjectPrototype.

#[global] Instance JsValue_eq_dec : EqDecision JsValue.
Proof. solve_decision. Defined.

(** ToBoolean: [undefined] is the only falsy value of the four. *)
Definition truthy (v : JsValue) : bool :=
  match v with
  | JsUndefined => false
  | _ => true
  end.

(** [v.length]: the element count of an array, the declared parameter count
    of a function, [undefined] otherwise. *)
Definition js_length (v : JsValue) : option nat :=
  match v with
  | JsArray l => Some (length l)
  | JsFunction _ n => Some n
  | _ => None
  end.

(** [v[i]] for an index [i]: [undefined] (here [None]) unless [v] is an
    array that has the index. *)
Definition js_index (v : JsValue) (i : nat) : option string :=
  match v with
  | JsArray l => l !! i
  | _ => None
  end.

(** The properties every object literal inherits from [Object.prototype]
    (Node.js): the constructor, the methods and the [__proto__] accessor,
    which reads back the prototype itself. *)
Definition Object_prototype : gmap string JsValue :=
  list_to_map
    [ ("constructor", JsFunction "Object" 1);
      ("__defineGetter__", JsFunction "__defineGetter__" 2);
      ("__defineSetter__", JsFunction "__defineSetter__" 2);
      ("hasOwnProperty", JsFunction "hasOwnProperty" 1);
      ("__lookupGetter__", JsFunction "__lookupGetter__" 1);
      ("__lookupSetter__", JsFunction "__lookupSetter__" 1);
      ("isPrototypeOf", JsFunction "isPrototypeOf" 1);
      ("propertyIsEnumerable", JsFunction "propertyIsEnumerable" 1);
      ("toString", JsFunction "toString" 0);
      ("valueOf", JsFunction "valueOf" 0);
      ("toLocaleString", JsFunction "toLocaleString" 0);
      ("__proto__", JsObjectPrototype) ].

(** [o[key]] on an object literal [o] given by its own properties. *)
Definition js_get (own : gmap string JsValue) (key : string) : JsValue :=
  match own !! key with
  | Some v => v
  | None => default JsUndefined (Object_prototype !! key)
  end.

(** ** Execution plans *)

Definition full_listing_plan : list string :=
  [ "mls_data_ingester"; "property_photos_collector";
    "competitive_analysis_engine";
    "master_content_generator"; "facebook_post_generator";
    "instagram_caption_generator";
    "facebook_publisher"; "instagram_publisher";
    "engagement_tracker";
    "lead_capture_monitor" ].

Definition test_plan : list string := [ "test_node" ].

Definition plans : gmap string JsValue :=
  list_to_map
    [ ("full_listing", JsArray full_listing_plan);
      ("test", JsArray test_plan) ].

(** [return plans[workflowType] || plans['test'];] *)
Definition getExecutionPlan (workflowType : string) : JsValue :=
  let v := js_get plans workflowType in
  if truthy v then v else js_get plans "test".

(** ** Rows of the two tables *)

(** The values the code writes to, or compares with, a [status] column. *)
Inductive Status := Pending | Queued | Running | Completed | Failed.

#[global] Instance Status_eq_dec : EqDecision Status.
Proof. solve_decision. Defined.

(** What [executeNode] resolves to; stored in [jobs.result]. *)
Record NodeResult := {
  res_nodeName : string;
  res_status : string;
  res_timestamp : nat
}.

Record Workflow := {
  wf_id : nat;
  wf_name : string;
  wf_status : Status;
  wf_property_id : option string;
  wf_created_at : nat;
  wf_updated_at : nat;
  wf_completed_at : option nat;
  wf_metadata : string            (* the [type] field of the JSON object *)
}.

Record Job := {
  job_id : nat;
  job_workflow_id : nat;
  job_node_name : string;
  job_status : Status;
  job_priority : nat;
  job_created_at : nat;
  job_started_at : option nat;
  job_completed_at : option nat;
  job_result : option NodeResult;
  job_error : option string
}.

(** The payload of a Bull job: [{ jobId, workflowId, nodeName }]. *)
Record Message := {
  jobId : nat;
  workflowId : nat;
  nodeName : string
}.

#[global] Instance Message_eq_dec : EqDecision Message.
Proof. solve_decision. Defined.

(** ** The state the orchestrator works on *)

Record World := {
  workflows : list Workflow;       (* table workflows *)
  jobs : list Job;                 (* table jobs *)
  workflows_id_seq : nat;          (* next value of workflows.id *)
  jobs_id_seq : nat;               (* next value of jobs.id *)
  now : nat;                       (* CURRENT_TIMESTAMP *)
  waiting : list Message;          (* Bull: added, not yet processed *)
  active : list Message;           (* Bull: handed to the processor *)
  activeWorkflows : gset nat       (* keys of [this.activeWorkflows] *)
}.

Definition initial : World :=
  {| workflows := []; jobs := []; workflows_id_seq := 1; jobs_id_seq := 1;
     now := 0; waiting := []; active := []; activeWorkflows := ∅ |}.

Definition set_workflows (f : list Workflow → list Workflow) (w : World) : World :=
  {| workflows := f (workflows w); jobs := jobs w;
     workflows_id_seq := workflows_id_seq w; jobs_id_seq := jobs_id_seq w;
     now := now w; waiting := waiting w; active := active w;
     activeWorkflows := activeWorkflows w |}.

Definition set_jobs (f : list Job → list Job) (w : World) : World :=
  {| workflows := workflows w; jobs := f (jobs w);
     workflows_id_seq := workflows_id_seq w; jobs_id_seq := jobs_id_seq w;
     now := now w; waiting := waiting w; active := active w;
     activeWorkflows := activeWorkflows w |}.

Definition set_workflows_id_seq (n : nat) (w : World) : World :=
  {| workflows := workflows w; jobs := jobs w;
     workflows_id_seq := n; jobs_id_seq := jobs_id_seq w;
     now := now w; waiting := waiting w; active := active w;
     activeWorkflows := activeWorkflows w |}.

Definition set_jobs_id_seq (n : nat) (w : World) : World :=
  {| workflows := workflows w; jobs := jobs w;
     workflows_id_seq := workflows_id_seq w; jobs_id_seq := n;
     now := now w; waiting := waiting w; active := active w;
     activeWorkflows := activeWorkflows w |}.

Definition set_now (t : nat) (w : World) : World :=
  {| workflows := workflows w; jobs := jobs w;
     workflows_id_seq := workflows_id_seq w; jobs_id_seq := jobs_id_seq w;
     now := t; waiting := waiting w; active := active w;
     activeWorkflows := activeWorkflows w |}.

Definition set_waiting (f : list Message → list Message) (w : World) : World :=
  {| workflows := workflows w; jobs := jobs w;
     workflows_id_seq := workflows_id_seq w; jobs_id_seq := jobs_id_seq w;
     now := now w; waiting := f (waiting w); active := active w;
     activeWorkflows := activeWorkflows w |}.

Definition set_active (f : list Message → list Message) (w : World) : World :=
  {| workflows := workflows w; jobs := jobs w;
     workflows_id_seq := workflows_id_seq w; jobs_id_seq := jobs_id_seq w;
     now := now w; waiting := waiting w; active := f (active w);
     activeWorkflows := activeWorkflows w |}.

Definition set_activeWorkflows (f : gset nat → gset nat) (w : World) : World :=
  {| workflows := workflows w; jobs := jobs w;
     workflows_id_seq := workflows_id_seq w; jobs_id_seq := jobs_id_seq w;
     now := now w; waiting := waiting w; active := active w;
     activeWorkflows := f (activeWorkflows w) |}.

(** ** Exceptions and the monad of [async] methods *)

Inductive Error :=
  | NotFound (workflowId : nat)
      (* new Error(`Workflow ${workflowId} not found`) *)
  | PersistenceFailure (detail : string)
      (* an error raised by the store *)
  | StepExecutionFailure (msg : string)
      (* an error thrown by the step-execution unit *)
  | QueueFailure (detail : string).
      (* an error raised by the queue *)

(** [error.message] *)
Definition message (e : Error) : string :=
  match e with
  | NotFound workflowId => "Workflow " +:+ pretty workflowId +:+ " not found"
  | PersistenceFailure detail => detail
  | StepExecutionFailure msg => msg
  | QueueFailure detail => detail
  end.

Inductive Result (A : Type) :=
  | Resolved (a : A)
  | Rejected (e : Error).
Arguments Resolved {A} a.
Arguments Rejected {A} e.

Definition Async (A : Type) : Type := World → Result A * World.

Definition resolve {A} (a : A) : Async A := λ w, (Resolved a, w).
Definition throw {A} (e : Error) : Async A := λ w, (Rejected e, w).
Definition await {A B} (m : Async A) (k : A → Async B) : Async B :=
  λ w, match m w with
       | (Resolved a, w') => k a w'
       | (Rejected e, w') => (Rejected e, w')
       end.
Definition try_catch {A} (m : Async A) (handler : Error → Async A) : Async A :=
  λ w, match m w with
       | (Resolved a, w') => (Resolved a, w')
       | (Rejected e, w') => handler e w'
       end.
Definition query {A} (f : World → A) : Async A := λ w, (Resolved (f w), w).
Definition execute (f : World → World) : Async unit := λ w, (Resolved tt, f w).

#[global] Instance Async_ret : MRet Async := @resolve.
#[global] Instance Async_bind : MBind Async := λ A B k m, await m k.

(** The state an [async] call leaves behind, and what it settles to. *)
Definition after {A} (m : Async A) (w : World) : World := snd (m w).
Definition outcome {A} (m : Async A) (w : World) : Result A := fst (m w).

(** ** The limits of the columns *)

(** [id SERIAL], [workflow_id INTEGER]: the ids the store hands out, and
    the ids a statement may compare with, are 32-bit integers; a greater
    parameter is refused (error 22003). *)
Definition int4 (n : nat) : Prop := (Z.of_nat n ≤ 2147483647)%Z.

(** [name VARCHAR(255)], [property_id VARCHAR(255)]: a text of more than
    255 characters is refused (error 22001), and so is one that contains
    the character NUL. *)
Definition varchar255 (s : string) : Prop :=
  String.length s ≤ 255 ∧
  Forall (λ c, c ≠ Ascii.zero) (String.list_ascii_of_string s).

(** ** The statements sent to the store *)

(** [UPDATE ... SET ... WHERE cond]: every row that satisfies the condition
    is rewritten in place. *)
Definition update_where {A} (cond : A → Prop) `{!∀ r, Decision (cond r)}
    (f : A → A) (table : list A) : list A :=
  (λ r, if decide (cond r) then f r else r) <$> table.

(** [INSERT INTO workflows (name, status, property_id, metadata)
     VALUES ($1, $2, $3, $4) RETURNING id], for a name and a property
    reference within [varchar255] and a sequence within [int4]: beyond
    these the store refuses the statement and the model does not. *)
Definition insert_workflow (name : string) (status : Status)
    (property_id : option string) (metadata : string) : Async nat :=
  λ w,
    let id := workflows_id_seq w in
    let row := {| wf_id := id; wf_name := name; wf_status := status;
                  wf_property_id := property_id;
                  wf_created_at := now w; wf_updated_at := now w;
                  wf_completed_at := None; wf_metadata := metadata |} in
    (Resolved id,
     set_workflows_id_seq (S id) (set_workflows (λ t, t ++ [row]) w)).

(** [SELECT * FROM workflows WHERE id = $1], for an id within [int4]:
    the store refuses a greater parameter and the model finds no row. *)
Definition select_workflow (id : nat) : Async (list Workflow) :=
  query (λ w, filter (λ r, wf_id r = id) (workflows w)).

(** [INSERT INTO jobs (workflow_id, node_name, status, priority)
     VALUES ($1, $2, $3, $4)].  [node_name] is NOT NULL: an [undefined]
    parameter reaches the store as NULL and the statement is refused, after
    the sequence has handed out the id.  The referenced workflow is not
    looked up: the only caller has just read it, and rows are never
    deleted. *)
Definition insert_job (workflow_id : nat) (node_name : option string)
    (status : Status) (priority : nat) : Async unit :=
  λ w,
    let id := jobs_id_seq w in
    match node_name with
    | Some name =>
        let row := {| job_id := id; job_workflow_id := workflow_id;
                      job_node_name := name; job_status := status;
                      job_priority := priority; job_created_at := now w;
                      job_started_at := None; job_completed_at := None;
                      job_result := None; job_error := None |} in
        (Resolved tt, set_jobs_id_seq (S id) (set_jobs (λ t, t ++ [row]) w))
    | None =>
        (Rejected (PersistenceFailure
                     "null value in column node_name violates not-null constraint"),
         set_jobs_id_seq (S id) w)
    end.

(** [UPDATE workflows SET status = $1, updated_at = CURRENT_TIMESTAMP
     WHERE id = $2] *)
Definition update_workflow_status (status : Status) (id : nat) : Async unit :=
  execute (λ w, set_workflows (update_where (λ r, wf_id r = id) (λ r,
    {| wf_id := wf_id r; wf_name := wf_name r; wf_status := status;
       wf_property_id := wf_property_id r; wf_created_at := wf_created_at r;
       wf_updated_at := now w; wf_completed_at := wf_completed_at r;
       wf_metadata := wf_metadata r |})) w).

(** [UPDATE workflows SET status = 'completed',
     completed_at = CURRENT_TIMESTAMP, updated_at = CURRENT_TIMESTAMP
     WHERE id = $1], for an id within [int4]: the store refuses a greater
    parameter and the model updates no row. *)
Definition update_workflow_completed (id : nat) : Async unit :=
  execute (λ w, set_workflows (update_where (λ r, wf_id r = id) (λ r,
    {| wf_id := wf_id r; wf_name := wf_name r; wf_status := Completed;
       wf_property_id := wf_property_id r; wf_created_at := wf_created_at r;
       wf_updated_at := now w; wf_completed_at := Some (now w);
       wf_metadata := wf_metadata r |})) w).

(** [UPDATE jobs SET status = 'running', started_at = CURRENT_TIMESTAMP
     WHERE id = $1] *)
Definition update_job_running (id : nat) : Async unit :=
  execute (λ w, set_jobs (update_where (λ r, job_id r = id) (λ r,
    {| job_id := job_id r; job_workflow_id := job_workflow_id r;
       job_node_name := job_node_name r; job_status := Running;
       job_priority := job_priority r; job_created_at := job_created_at r;
       job_started_at := Some (now w);
       job_completed_at := job_completed_at r;
       job_result := job_result r; job_error := job_error r |})) w).

(** [UPDATE jobs SET status = 'completed',
     completed_at = CURRENT_TIMESTAMP, result = $1 WHERE id = $2] *)
Definition update_job_completed (result : NodeResult) (id : nat) : Async unit :=
  execute (λ w, set_jobs (update_where (λ r, job_id r = id) (λ r,
    {| job_id := job_id r; job_workflow_id := job_workflow_id r;
       job_node_name := job_node_name r; job_status := Completed;
       job_priority := job_priority r; job_created_at := job_created_at r;
       job_started_at := job_started_at r;
       job_completed_at := Some (now w);
       job_result := Some result; job_error := job_error r |})) w).

(** [UPDATE jobs SET status = 'failed', completed_at = CURRENT_TIMESTAMP,
     error = $1 WHERE id = $2] *)
Definition update_job_failed (error : string) (id : nat) : Async unit :=
  execute (λ w, set_jobs (update_where (λ r, job_id r = id) (λ r,
    {| job_id := job_id r; job_workflow_id := job_workflow_id r;
       job_node_name := job_node_name r; job_status := Failed;
       job_priority := job_priority r; job_created_at := job_created_at r;
       job_started_at := job_started_at r;
       job_completed_at := Some (now w);
       job_result := job_result r; job_error := Some error |})) w).

(** [ORDER BY priority ASC]: a stable insertion sort, so rows of equal
    priority keep their table order (the store itself promises no order
    among them). *)
Fixpoint insert_by_priority (j : Job) (l : list Job) : list Job :=
  match l with
  | [] => [j]
  | x :: l' =>
      if decide (job_priority j ≤ job_priority x) then j :: x :: l'
      else x :: insert_by_priority j l'
  end.

Definition order_by_priority (l : list Job) : list Job :=
  foldr insert_by_priority [] l.

(** [SELECT * FROM jobs WHERE workflow_id = $1 AND status = 'pending'
     ORDER BY priority ASC LIMIT 1], for an id within [int4]: the store
    refuses a greater parameter and the model finds no row. *)
Definition select_next_pending (workflow_id : nat) : Async (list Job) :=
  query (λ w, take 1 (order_by_priority
    (filter (λ r, job_workflow_id r = workflow_id ∧ job_status r = Pending)
            (jobs w)))).

(** [SELECT * FROM jobs WHERE workflow_id = $1 ORDER BY priority ASC] *)
Definition select_jobs (workflow_id : nat) : Async (list Job) :=
  query (λ w, order_by_priority
    (filter (λ r, job_workflow_id r = workflow_id) (jobs w))).

(** [this.jobQueue.add(data)] *)
Definition jobQueue_add (data : Message) : Async unit :=
  execute (set_waiting (λ q, q ++ [data])).

(** ** The methods of [WorkflowOrchestrator] *)

(** [for (let i = 0; i < n; i++) body(i)] *)
Definition for_upto (n : nat) (body : nat → Async unit) : Async unit :=
  foldr (λ i rest, body i;; rest) (mret tt) (seq 0 n).

(** [catch (error) { logger.error(...); throw error; }] *)
Definition log_and_rethrow {A} (m : Async A) : Async A :=
  try_catch m throw.

Definition completeWorkflow (workflowId : nat) : Async unit :=
  log_and_rethrow (
    update_workflow_completed workflowId;;
    execute (set_activeWorkflows (λ s, s ∖ {[workflowId]}))).

Definition processNextJob (workflowId : nat) : Async unit :=
  log_and_rethrow (
    rows ← select_next_pending workflowId;
    match rows with
    | [] => completeWorkflow workflowId
    | job :: _ =>
        jobQueue_add {| jobId := job_id job; workflowId := workflowId;
                        nodeName := job_node_name job |}
    end).

(** The loop bound [executionPlan.length] is [undefined] for a value
    without a length, and [0 < undefined] is false: no iteration. *)
Definition queueWorkflow (workflowId : nat) : Async unit :=
  log_and_rethrow (
    rows ← select_workflow workflowId;
    match rows with
    | [] => throw (NotFound workflowId)
    | workflow :: _ =>
        let executionPlan := getExecutionPlan (wf_name workflow) in
        for_upto (default 0 (js_length executionPlan)) (λ i,
          let nodeName := js_index executionPlan i in
          insert_job workflowId nodeName Pending (i + 1));;
        update_workflow_status Queued workflowId;;
        processNextJob workflowId
    end).

Definition createWorkflow (propertyId : option string)
    (workflowType : string) : Async nat :=
  log_and_rethrow (
    workflowId ← insert_workflow workflowType Pending propertyId workflowType;
    queueWorkflow workflowId;;
    mret workflowId).

(** The placeholder shipped in the class: it waits one second and
    resolves. *)
Definition executeNode (nodeName : string) (workflowId : nat) : Async NodeResult :=
  execute (λ w, set_now (now w + 1000) w);;
  timestamp ← query now;
  mret {| res_nodeName := nodeName; res_status := "success";
          res_timestamp := timestamp |}.

(** [processJob] calls [this.executeNode]; the method is a parameter here,
    so that a step-execution unit that fails can be plugged in. *)
Definition processJob (exec : string → nat → Async NodeResult)
    (bullJob : Message) : Async NodeResult :=
  let '{| jobId := jobId; workflowId := workflowId; nodeName := nodeName |} :=
    bullJob in
  try_catch (
    update_job_running jobId;;
    result ← exec nodeName workflowId;
    update_job_completed result jobId;;
    processNextJob workflowId;;
    mret result)
  (λ error,
    update_job_failed (message error) jobId;;
    update_workflow_status Failed workflowId;;
    throw error).

Definition getWorkflowStatus (workflowId : nat) : Async (Workflow * list Job) :=
  log_and_rethrow (
    workflowResult ← select_workflow workflowId;
    match workflowResult with
    | [] => throw (NotFound workflowId)
    | workflow :: _ =>
        jobsResult ← select_jobs workflowId;
        mret (workflow, jobsResult)
    end).

(** ** A queue that can refuse a job *)

(** [processNextJob] and [processJob] once more, with [this.jobQueue.add]
    as a parameter, as [this.executeNode] is one: Bull's [add] rejects when
    Redis refuses the command.  With [jobQueue_add] for it they are the two
    methods above. *)
Definition processNextJob_on (add : Message → Async unit)
    (workflowId : nat) : Async unit :=
  log_and_rethrow (
    rows ← select_next_pending workflowId;
    match rows with
    | [] => completeWorkflow workflowId
    | job :: _ =>
        add {| jobId := job_id job; workflowId := workflowId;
               nodeName := job_node_name job |}
    end).

Definition processJob_on (add : Message → Async unit)
    (exec : string → nat → Async NodeResult)
    (bullJob : Message) : Async NodeResult :=
  let '{| jobId := jobId; workflowId := workflowId; nodeName := nodeName |} :=
    bullJob in
  try_catch (
    update_job_running jobId;;
    result ← exec nodeName workflowId;
    update_job_completed result jobId;;
    processNextJob_on add workflowId;;
    mret result)
  (λ error,
    update_job_failed (message error) jobId;;
    update_workflow_status Failed workflowId;;
    throw error).

(** Redis is down: every [add] is refused. *)
Definition refusing_add (data : Message) : Async unit :=
  throw (QueueFailure "Connection is closed.").

(** An [add] that succeeds: it resolves and writes to no table. *)
Definition accepts (add : Message → Async unit) : Prop :=
  ∀ data w, ∃ w', add data w = (Resolved tt, w') ∧
                  jobs w' = jobs w ∧ workflows w' = workflows w.

(** ** Vocabulary of the statements below *)

Definition by_priority (a b : Job) : Prop := job_priority a ≤ job_priority b.

Definition new_job (id workflow_id : nat) (node_name : string)
    (priority created_at : nat) : Job :=
  {| job_id := id; job_workflow_id := workflow_id; job_node_name := node_name;
     job_status := Pending; job_priority := priority;
     job_created_at := created_at; job_started_at := None;
     job_completed_at := None; job_result := None; job_error := None |}.

(** One row per plan step: ids from the sequence, priority [i + 1] for
    plan index [i]. *)
Definition plan_jobs (workflow_id created_at first_id : nat)
    (plan : list string) : list Job :=
  imap (λ i name, new_job (first_id + i) workflow_id name (i + 1) created_at)
       plan.

Definition jobs_of (workflow_id : nat) (w : World) : list Job :=
  filter (λ r, job_workflow_id r = workflow_id) (jobs w).

Definition find_workflow (id : nat) (w : World) : option Workflow :=
  head (filter (λ r, wf_id r = id) (workflows w)).

(** The row [processNextJob] reads, if there is one. *)
Definition next_pending (workflow_id : nat) (w : World) : option Job :=
  head (order_by_priority
    (filter (λ r, job_workflow_id r = workflow_id ∧ job_status r = Pending)
            (jobs w))).

Definition dispatch (workflowId : nat) (job : Job) : Message :=
  {| jobId := job_id job; workflowId := workflowId;
     nodeName := job_node_name job |}.

Definition completed_row (t : nat) (r : Workflow) : Workflow :=
  {| wf_id := wf_id r; wf_name := wf_name r; wf_status := Completed;
     wf_property_id := wf_property_id r; wf_created_at := wf_created_at r;
     wf_updated_at := t; wf_completed_at := Some t;
     wf_metadata := wf_metadata r |}.

Definition with_status (s : Status) (t : nat) (r : Workflow) : Workflow :=
  {| wf_id := wf_id r; wf_name := wf_name r; wf_status := s;
     wf_property_id := wf_property_id r; wf_created_at := wf_created_at r;
     wf_updated_at := t; wf_completed_at := wf_completed_at r;
     wf_metadata := wf_metadata r |}.

(** The state after the insertions and the status update of
    [queueWorkflow], for a plan that is an array. *)
Definition queued (workflowId : nat) (plan : list string) (w : World) : World :=
  {| workflows := update_where (λ r, wf_id r = workflowId)
                               (with_status Queued (now w)) (workflows w);
     jobs := jobs w ++ plan_jobs workflowId (now w) (jobs_id_seq w) plan;
     workflows_id_seq := workflows_id_seq w;
     jobs_id_seq := jobs_id_seq w + length plan;
     now := now w; waiting := waiting w; active := active w;
     activeWorkflows := activeWorkflows w |}.

(** ** Step-execution units *)

(** A step-execution unit sees the step name, the workflow id and the
    state, and settles at some later time with a result or with an error
    object, whose [message] the failure branch of [processJob] reads.  It
    has no write access to the tables or the queue. *)
Definition StepUnit : Type := string → nat → World → Result NodeResult * nat.

Definition run_unit (u : StepUnit) (nodeName : string) (workflowId : nat) :
    Async NodeResult :=
  λ w, let '(r, t) := u nodeName workflowId w in (r, set_now t w).

(** The placeholder [executeNode] as a unit. *)
Definition placeholder : StepUnit :=
  λ nodeName _ w,
    (Resolved {| res_nodeName := nodeName; res_status := "success";
                 res_timestamp := now w + 1000 |},
     now w + 1000).

(** ** The running system

    Callers use [createWorkflow] and [getWorkflowStatus]; Bull hands the
    oldest waiting message to [processJob], which marks the job running and
    awaits the unit ([Begin]); when the unit settles, [processJob] runs to
    its end and Bull retires the message ([Settle]).  Several messages can
    be active at once (several workers). *)

(** [processJob] up to the call of the unit. *)
Definition processJob_begin (bullJob : Message) : Async unit :=
  update_job_running (jobId bullJob).

(** [processJob] from the call of the unit on. *)
Definition processJob_end (exec : string → nat → Async NodeResult)
    (bullJob : Message) : Async NodeResult :=
  let '{| jobId := jobId; workflowId := workflowId; nodeName := nodeName |} :=
    bullJob in
  try_catch (
    result ← exec nodeName workflowId;
    update_job_completed result jobId;;
    processNextJob workflowId;;
    mret result)
  (λ error,
    update_job_failed (message error) jobId;;
    update_workflow_status Failed workflowId;;
    throw error).

Inductive Event :=
  | CreateWorkflow (propertyId : option string) (workflowType : string)
  | GetWorkflowStatus (workflowId : nat)
  | Begin (m : Message)
  | Settle (m : Message)
  | Tick (t : nat).

#[global] Instance Event_eq_dec : EqDecision Event.
Proof. solve_decision. Defined.

(** Removes the first occurrence. *)
Fixpoint retire (m : Message) (l : list Message) : list Message :=
  match l with
  | [] => []
  | x :: l' => if decide (x = m) then l' else x :: retire m l'
  end.

(** One event, when it can happen in state [w]. *)
Definition fire (u : StepUnit) (e : Event) (w : World) : option World :=
  match e with
  | CreateWorkflow propertyId workflowType =>
      Some (after (createWorkflow propertyId workflowType) w)
  | GetWorkflowStatus workflowId =>
      Some (after (getWorkflowStatus workflowId) w)
  | Begin m =>
      match waiting w with
      | m' :: q =>
          if decide (m = m') then
            Some (after (processJob_begin m)
                        (set_active (λ a, a ++ [m]) (set_waiting (λ _, q) w)))
          else None
      | [] => None
      end
  | Settle m =>
      if decide (m ∈ active w) then
        Some (set_active (retire m) (after (processJob_end (run_unit u) m) w))
      else None
  | Tick t =>
      if decide (now w ≤ t) then Some (set_now t w) else None
  end.

(** A sequence of events from a state. *)
Fixpoint run (u : StepUnit) (es : list Event) (w : World) : option World :=
  match es with
  | [] => Some w
  | e :: es' =>
      match fire u e w with
      | Some w' => run u es' w'
      | None => None
      end
  end.

Definition reachable (u : StepUnit) (w : World) : Prop :=
  ∃ es, run u es initial = Some w.

Definition terminal (s : Status) : Prop := s = Completed ∨ s = Failed.

Definition waiting_of (workflow_id : nat) (w : World) : list Message :=
  filter (λ m, workflowId m = workflow_id) (waiting w).

Definition active_of (workflow_id : nat) (w : World) : list Message :=
  filter (λ m, workflowId m = workflow_id) (active w).

(** ** Well-formed states *)

(** What the schema and the sequences guarantee: primary keys are unique
    and below the next sequence value, and every job references a
    workflow row. *)
Record store_ok (w : World) : Prop := {
  ok_wf_ids : NoDup (wf_id <$> workflows w);
  ok_wf_seq : ∀ r, r ∈ workflows w → wf_id r < workflows_id_seq w;
  ok_job_ids : NoDup (job_id <$> jobs w);
  ok_job_seq : ∀ j, j ∈ jobs w → job_id j < jobs_id_seq w;
  ok_job_fk : ∀ j, j ∈ jobs w →
              ∃ r, r ∈ workflows w ∧ wf_id r = job_workflow_id j
}.

(** Where one workflow stands: its status, its job rows in table order,
    and its messages among the waiting and the active ones. *)
Inductive Phase (wid : nat) :
    Status → list Job → list Message → list Message → Prop :=
  | phase_rejected :
      Phase wid Pending [] [] []
  | phase_dispatched done j rest :
      Forall (λ x, job_status x = Completed) done →
      job_status j = Pending →
      Forall (λ x, job_status x = Pending) rest →
      Phase wid Queued (done ++ j :: rest) [dispatch wid j] []
  | phase_running done j rest :
      Forall (λ x, job_status x = Completed) done →
      job_status j = Running →
      Forall (λ x, job_status x = Pending) rest →
      Phase wid Queued (done ++ j :: rest) [] [dispatch wid j]
  | phase_completed all :
      Forall (λ x, job_status x = Completed) all →
      Phase wid Completed all [] []
  | phase_failed done j rest :
      Forall (λ x, job_status x = Completed) done →
      job_status j = Failed →
      Forall (λ x, job_status x = Pending) rest →
      Phase wid Failed (done ++ j :: rest) [] [].

Record system_ok (w : World) : Prop := {
  sys_store : store_ok w;
  sys_messages : ∀ m, m ∈ waiting w ++ active w →
                 ∃ r, r ∈ workflows w ∧ wf_id r = workflowId m;
  sys_priorities : ∀ r, r ∈ workflows w →
                   StronglySorted lt (job_priority <$> jobs_of (wf_id r) w);
  sys_phase : ∀ r, r ∈ workflows w →
              Phase (wf_id r) (wf_status r) (jobs_of (wf_id r) w)
                    (waiting_of (wf_id r) w) (active_of (wf_id r) w)
}.

(** The row [createWorkflow] has inserted, at status [s]. *)
Definition new_workflow (w : World) (propertyId : option string)
    (workflowType : string) (s : Status) (completed_at : option nat) : Workflow :=
  {| wf_id := workflows_id_seq w; wf_name := workflowType; wf_status := s;
     wf_property_id := propertyId; wf_created_at := now w;
     wf_updated_at := now w; wf_completed_at := completed_at;
     wf_metadata := workflowType |}.

(** A state after [createWorkflow]: one more workflow row, some more job
    rows and ids drawn, some more waiting messages. *)
Definition grown (w : World) (row : Workflow) (rows : list Job) (drawn : nat)
    (msgs : list Message) (cache : gset nat) : World :=
  {| workflows := workflows w ++ [row];
     jobs := jobs w ++ rows;
     workflows_id_seq := S (workflows_id_seq w);
     jobs_id_seq := jobs_id_seq w + drawn;
     now := now w;
     waiting := waiting w ++ msgs;
     active := active w;
     activeWorkflows := cache |}.

Definition running_row (t : nat) (r : Job) : Job :=
  {| job_id := job_id r; job_workflow_id := job_workflow_id r;
     job_node_name := job_node_name r; job_status := Running;
     job_priority := job_priority r; job_created_at := job_created_at r;
     job_started_at := Some t; job_completed_at := job_completed_at r;
     job_result := job_result r; job_error := job_error r |}.

Definition completed_job (t : nat) (result : NodeResult) (r : Job) : Job :=
  {| job_id := job_id r; job_workflow_id := job_workflow_id r;
     job_node_name := job_node_name r; job_status := Completed;
     job_priority := job_priority r; job_created_at := job_created_at r;
     job_started_at := job_started_at r; job_completed_at := Some t;
     job_result := Some result; job_error := job_error r |}.

Definition failed_job (t : nat) (error : string) (r : Job) : Job :=
  {| job_id := job_id r; job_workflow_id := job_workflow_id r;
     job_node_name := job_node_name r; job_status := Failed;
     job_priority := job_priority r; job_created_at := job_created_at r;
     job_started_at := job_started_at r; job_completed_at := Some t;
     job_result := job_result r; job_error := Some error |}.

(** The state after [Begin m], when [m] heads the waiting messages [m :: q]. *)
Definition started (m : Message) (q : list Message) (w : World) : World :=
  {| workflows := workflows w;
     jobs := update_where (λ r, job_id r = jobId m) (running_row (now w)) (jobs w);
     workflows_id_seq := workflows_id_seq w; jobs_id_seq := jobs_id_seq w;
     now := now w; waiting := q; active := active w ++ [m];
     activeWorkflows := activeWorkflows w |}.

(** The state in which the unit has resolved at time [t] and the job row
    has been marked completed. *)
Definition settled_ok (m : Message) (t : nat) (result : NodeResult)
    (w : World) : World :=
  {| workflows := workflows w;
     jobs := update_where (λ r, job_id r = jobId m) (completed_job t result)
                          (jobs w);
     workflows_id_seq := workflows_id_seq w; jobs_id_seq := jobs_id_seq w;
     now := t; waiting := waiting w; active := active w;
     activeWorkflows := activeWorkflows w |}.

(** The state in which the unit has rejected at time [t] and the failure
    branch of [processJob] has run. *)
Definition settled_failed (m : Message) (t : nat) (e : Error)
    (w : World) : World :=
  {| workflows := update_where (λ r, wf_id r = workflowId m)
                               (with_status Failed t) (workflows w);
     jobs := update_where (λ r, job_id r = jobId m) (failed_job t (message e))
                          (jobs w);
     workflows_id_seq := workflows_id_seq w; jobs_id_seq := jobs_id_seq w;
     now := t; waiting := waiting w; active := active w;
     activeWorkflows := activeWorkflows w |}.



(** The order of the status chain pending, queued, running, then completed
    or failed. *)
Definition rank (s : Status) : nat :=
  match s with
  | Pending => 0
  | Queued => 1
  | Running => 2
  | Completed | Failed => 3
  end.

(** A later version of a job row: same keys and priority, and not back at
    [Pending]. *)
Definition evolves (j j' : Job) : Prop :=
  job_id j' = job_id j ∧ job_workflow_id j' = job_workflow_id j ∧
  job_priority j' = job_priority j ∧
  (job_status j ≠ Pending → job_status j' ≠ Pending).

(** ** A run used as a concrete instance

    A [full_listing] workflow is created, its first job is begun and
    settled by the placeholder unit; the second job is then at the head of
    the queue. *)
Definition first_message : Message :=
  {| jobId := 1; workflowId := 1; nodeName := "mls_data_ingester" |}.

Definition second_message : Message :=
  {| jobId := 2; workflowId := 1; nodeName := "property_photos_collector" |}.

Definition listing_run : list Event :=
  [ CreateWorkflow (Some "P1") "full_listing";
    Begin first_message; Settle first_message ].

Definition listing_state : World :=
  Eval vm_compute in default initial (run placeholder listing_run initial).

Definition listing_state_begun : World :=
  Eval vm_compute in
    default initial (fire placeholder (Begin second_message) listing_state).

(** ** Relations between the states before and after a call *)

(** Every state an [async] call can leave behind is related to the state it
    started from. *)
Definition keeps {A} (P : World → World → Prop) (m : Async A) : Prop :=
  ∀ w, P w (after m w).

(** Every workflow row of [w] is still there in [w'], at the same place and
    with the same id, and either as it was or at a status other than
    [Pending]. *)
Definition no_pending_write (w w' : World) : Prop :=
  ∀ i r, workflows w !! i = Some r →
    ∃ r', workflows w' !! i = Some r' ∧ wf_id r' = wf_id r ∧
          (r' = r ∨ wf_status r' ≠ Pending).

(** One transition seen from a workflow row: it stays where it is, keeps
    its id, and its status stays or moves from [Queued] to a terminal
    status. *)
Definition advances (w w' : World) : Prop :=
  ∀ i r, workflows w !! i = Some r →
    ∃ r', workflows w' !! i = Some r' ∧ wf_id r' = wf_id r ∧
          (wf_status r' = wf_status r ∨
           wf_status r = Queued ∧ terminal (wf_status r')).

(** A workflow with the given id was at status [Running] in some state of
    the run. *)
Definition was_running (u : StepUnit) (es : list Event) (workflow_id : nat) : Prop :=
  ∃ n w r, run u (take n es) initial = Some w ∧
           r ∈ workflows w ∧ wf_id r = workflow_id ∧ wf_status r = Running.

(** A [test] workflow run to its end by the placeholder unit. *)
Definition test_message : Message :=
  {| jobId := 1; workflowId := 1; nodeName := "test_node" |}.

Definition test_run : list Event :=
  [ CreateWorkflow (Some "P1") "test"; Begin test_message; Settle test_message ].

Definition test_state : World :=
  Eval vm_compute in default initial (run placeholder test_run initial).

(** A unit that rejects at one step and behaves as the placeholder at the
    others, and the run in which the second job of a [full_listing]
    workflow is active under it. *)
Definition rejecting_at (step : string) : StepUnit :=
  λ nodeName workflowId w,
    if decide (nodeName = step)
    then (Rejected (StepExecutionFailure "photo service unavailable"),
          now w + 1000)
    else placeholder nodeName workflowId w.

Definition photos_unit : StepUnit := rejecting_at "property_photos_collector".

Definition photos_run : list Event :=
  listing_run ++ [ Begin second_message ].




(** No job row and no workflow row is at status [Failed]. *)
Definition no_failure (w : World) : Prop :=
  Forall (λ j, job_status j ≠ Failed) (jobs w) ∧
  Forall (λ r, wf_status r ≠ Failed) (workflows w).

(** ** Vocabulary of the further properties *)

(** The columns of a job row that no statement of the orchestrator
    writes after the insertion. *)
Definition same_job_keys (j j' : Job) : Prop :=
  job_id j' = job_id j ∧ job_workflow_id j' = job_workflow_id j ∧
  job_node_name j' = job_node_name j ∧ job_priority j' = job_priority j ∧
  job_created_at j' = job_created_at j.


(** One transition seen from a job row: the row stays as it is, or a
    pending row is marked running, or a running row is marked completed or
    failed. *)
Definition job_moves (j j' : Job) : Prop :=
  j' = j ∨
  (job_status j = Pending ∧ ∃ t, j' = running_row t j) ∨
  (job_status j = Running ∧ ∃ t result, j' = completed_job t result j) ∨
  (job_status j = Running ∧ ∃ t error, j' = failed_job t error j).

(** One transition seen from a workflow row: the row stays as it is, or a
    queued row is marked completed or failed. *)
Definition workflow_moves (r r' : Workflow) : Prop :=
  r' = r ∨
  (wf_status r = Queued ∧ ∃ t, r' = completed_row t r) ∨
  (wf_status r = Queued ∧ ∃ t, r' = with_status Failed t r).

(** The optional columns of a job row agree with its status. *)
Definition job_columns_ok (j : Job) : Prop :=
  match job_status j with
  | Pending =>
      job_started_at j = None ∧ job_completed_at j = None ∧
      job_result j = None ∧ job_error j = None
  | Running =>
      is_Some (job_started_at j) ∧ job_completed_at j = None ∧
      job_result j = None ∧ job_error j = None
  | Completed =>
      is_Some (job_started_at j) ∧ is_Some (job_completed_at j) ∧
      is_Some (job_result j) ∧ job_error j = None
  | Failed =>
      is_Some (job_started_at j) ∧ is_Some (job_completed_at j) ∧
      job_result j = None ∧ is_Some (job_error j)
  | Queued => False
  end.

(** [completed_at] of a workflow row is set exactly at status
    [Completed]. *)
Definition workflow_columns_ok (r : Workflow) : Prop :=
  is_Some (wf_completed_at r) ↔ wf_status r = Completed.





(** * The process around the orchestrator

    A shallow embedding of the two connection modules
    ([src/config/database.js], [src/config/redis.js]), of the start-up
    sequence of [src/index.js] with [WorkflowOrchestrator.initialize], and
    of the health monitor ([src/nodes/system-health-monitor.js]).

    Modelling decisions:
    - the module variables [pool], [redisClient] and [jobQueue] are fields
      of the process state; Redis clients and Bull queues are objects on a
      heap, referred to by their position;
    - a request to PostgreSQL or Redis takes its answer from a script of
      replies carried by the state: each reply says how long the request
      takes and whether it fails; a request that fails has no effect, and
      with the script used up every request succeeds at once;
    - time passes in requests only: [Date.now()] is the field [clock];
    - JavaScript numbers that the code divides are IEEE 754 doubles
      (primitive floats); counts and milliseconds are natural numbers;
    - [logger] calls have no effect on the modelled state and are dropped. *)

From Stdlib Require Import Floats.PrimFloat.

(** ** Exceptions and replies *)

(** A thrown [Error], by its [message]. *)
Inductive Exception := JsError (msg : string).

(** [error.message] *)
Definition error_message (e : Exception) : string :=
  match e with JsError msg => msg end.

(** Reading a property of [null]. *)
Definition null_deref (property : string) : Exception :=
  JsError ("Cannot read properties of null (reading '" +:+ property +:+ "')").

Record Reply := {
  took : nat;                 (* milliseconds until the answer *)
  failure : option string     (* the message of the error, if it fails *)
}.

(** ** The objects the modules create *)

(** [ssl: NODE_ENV === 'production' ? { rejectUnauthorized: false } : false] *)
Inductive Ssl := SslOff | SslRejectUnauthorizedFalse.

Record Pool := {
  pool_connectionString : string;
  pool_ssl : Ssl;
  pool_max : N;
  pool_idleTimeoutMillis : N;
  pool_connectionTimeoutMillis : N
}.

(** [new Pool({ connectionString, ssl: ..., max: 20, ... })] *)
Definition new_Pool (connectionString : string) (NODE_ENV : option string) :
    Pool :=
  {| pool_connectionString := connectionString;
     pool_ssl := if bool_decide (NODE_ENV = Some "production")
                 then SslRejectUnauthorizedFalse else SslOff;
     pool_max := 20;
     pool_idleTimeoutMillis := 30000;
     pool_connectionTimeoutMillis := 2000 |}.

Record RedisClient := {
  client_url : string;
  client_open : bool          (* [connect()] has succeeded *)
}.

Record BullQueue := {
  queue_name : string;
  queue_url : string;
  queue_processors : nat      (* handlers set by [process] *)
}.

(** ** The metrics of the health monitor *)

Inductive Health := Unknown | Healthy | Unhealthy.

#[global] Instance Health_eq_dec : EqDecision Health.
Proof. solve_decision. Defined.

Record ServiceMetrics := {
  svc_status : Health;
  svc_responseTime : nat;
  svc_error : option string
}.

Record MemoryMetrics := {
  mem_used : float;           (* MB *)
  mem_total : float;          (* MB *)
  mem_percentage : float
}.

Record Metrics := {
  m_uptime : nat;             (* process.uptime(), in milliseconds *)
  m_lastCheck : option nat;
  m_database : ServiceMetrics;
  m_redis : ServiceMetrics;
  m_memory : MemoryMetrics;
  m_activeWorkflows : nat;
  m_pendingJobs : nat
}.

(** The constructor's [this.metrics]. *)
Definition no_metrics : Metrics :=
  {| m_uptime := 0; m_lastCheck := None;
     m_database := {| svc_status := Unknown; svc_responseTime := 0;
                      svc_error := None |};
     m_redis := {| svc_status := Unknown; svc_responseTime := 0;
                   svc_error := None |};
     m_memory := {| mem_used := 0; mem_total := 0; mem_percentage := 0 |};
     m_activeWorkflows := 0; m_pendingJobs := 0 |}.

Definition with_database (v : ServiceMetrics) (m : Metrics) : Metrics :=
  {| m_uptime := m_uptime m; m_lastCheck := m_lastCheck m; m_database := v;
     m_redis := m_redis m; m_memory := m_memory m;
     m_activeWorkflows := m_activeWorkflows m;
     m_pendingJobs := m_pendingJobs m |}.

Definition with_redis (v : ServiceMetrics) (m : Metrics) : Metrics :=
  {| m_uptime := m_uptime m; m_lastCheck := m_lastCheck m;
     m_database := m_database m; m_redis := v; m_memory := m_memory m;
     m_activeWorkflows := m_activeWorkflows m;
     m_pendingJobs := m_pendingJobs m |}.

Definition with_memory (v : MemoryMetrics) (m : Metrics) : Metrics :=
  {| m_uptime := m_uptime m; m_lastCheck := m_lastCheck m;
     m_database := m_database m; m_redis := m_redis m; m_memory := v;
     m_activeWorkflows := m_activeWorkflows m;
     m_pendingJobs := m_pendingJobs m |}.

Definition with_activeWorkflows (v : nat) (m : Metrics) : Metrics :=
  {| m_uptime := m_uptime m; m_lastCheck := m_lastCheck m;
     m_database := m_database m; m_redis := m_redis m;
     m_memory := m_memory m; m_activeWorkflows := v;
     m_pendingJobs := m_pendingJobs m |}.

Definition with_pendingJobs (v : nat) (m : Metrics) : Metrics :=
  {| m_uptime := m_uptime m; m_lastCheck := m_lastCheck m;
     m_database := m_database m; m_redis := m_redis m;
     m_memory := m_memory m; m_activeWorkflows := m_activeWorkflows m;
     m_pendingJobs := v |}.

Definition with_lastCheck (v : option nat) (m : Metrics) : Metrics :=
  {| m_uptime := m_uptime m; m_lastCheck := v; m_database := m_database m;
     m_redis := m_redis m; m_memory := m_memory m;
     m_activeWorkflows := m_activeWorkflows m;
     m_pendingJobs := m_pendingJobs m |}.

Definition with_uptime (v : nat) (m : Metrics) : Metrics :=
  {| m_uptime := v; m_lastCheck := m_lastCheck m; m_database := m_database m;
     m_redis := m_redis m; m_memory := m_memory m;
     m_activeWorkflows := m_activeWorkflows m;
     m_pendingJobs := m_pendingJobs m |}.

(** The two messages [performHealthCheck] alerts with; the second one
    carries the percentage it prints. *)
Inductive AlertMessage :=
  | SystemHealthCheckFailed           (* 'System health check failed' *)
  | HighMemoryUsage (percentage : float).

Record LogRow := {
  log_id : nat;
  log_level : string;
  log_message : AlertMessage;
  log_metadata : Metrics;     (* JSON.stringify(this.metrics) *)
  log_created_at : nat
}.

Record MemoryUsage := {
  heapTotal : float;
  heapUsed : float
}.

(** ** The state of the process *)

Record Process := {
  env : gmap string string;           (* process.env *)
  pool : option Pool;                 (* database.js: let pool *)
  redisClient : option nat;           (* redis.js: let redisClient (a reference) *)
  jobQueue : option nat;              (* redis.js: let jobQueue (a reference) *)
  redis_clients : list RedisClient;   (* the clients created so far *)
  queues : list BullQueue;            (* the Bull queues created so far *)
  leased : nat;                       (* pg clients checked out of the pool *)
  tables : gset string;               (* the tables that exist *)
  store : World;                      (* the rows of workflows and jobs *)
  system_logs : list LogRow;          (* table system_logs *)
  system_logs_id_seq : nat;           (* next value of system_logs.id *)
  clock : nat;                        (* milliseconds since the process started *)
  replies : list Reply;               (* what the services will answer *)
  memoryUsage : MemoryUsage;          (* process.memoryUsage() *)
  metrics : Metrics;                  (* the monitor: this.metrics *)
  healthCheckInterval : option bool   (* the monitor: the cron task, running or not *)
}.

Definition set_pool (v : option Pool) (p : Process) : Process :=
  {| env := env p; pool := v; redisClient := redisClient p;
     jobQueue := jobQueue p; redis_clients := redis_clients p;
     queues := queues p; leased := leased p; tables := tables p;
     store := store p; system_logs := system_logs p;
     system_logs_id_seq := system_logs_id_seq p; clock := clock p;
     replies := replies p; memoryUsage := memoryUsage p;
     metrics := metrics p; healthCheckInterval := healthCheckInterval p |}.

Definition set_redisClient (v : option nat) (p : Process) : Process :=
  {| env := env p; pool := pool p; redisClient := v; jobQueue := jobQueue p;
     redis_clients := redis_clients p; queues := queues p;
     leased := leased p; tables := tables p; store := store p;
     system_logs := system_logs p;
     system_logs_id_seq := system_logs_id_seq p; clock := clock p;
     replies := replies p; memoryUsage := memoryUsage p;
     metrics := metrics p; healthCheckInterval := healthCheckInterval p |}.

Definition set_jobQueue (v : option nat) (p : Process) : Process :=
  {| env := env p; pool := pool p; redisClient := redisClient p;
     jobQueue := v; redis_clients := redis_clients p; queues := queues p;
     leased := leased p; tables := tables p; store := store p;
     system_logs := system_logs p;
     system_logs_id_seq := system_logs_id_seq p; clock := clock p;
     replies := replies p; memoryUsage := memoryUsage p;
     metrics := metrics p; healthCheckInterval := healthCheckInterval p |}.

Definition set_redis_clients (v : list RedisClient) (p : Process) : Process :=
  {| env := env p; pool := pool p; redisClient := redisClient p;
     jobQueue := jobQueue p; redis_clients := v; queues := queues p;
     leased := leased p; tables := tables p; store := store p;
     system_logs := system_logs p;
     system_logs_id_seq := system_logs_id_seq p; clock := clock p;
     replies := replies p; memoryUsage := memoryUsage p;
     metrics := metrics p; healthCheckInterval := healthCheckInterval p |}.

Definition set_queues (v : list BullQueue) (p : Process) : Process :=
  {| env := env p; pool := pool p; redisClient := redisClient p;
     jobQueue := jobQueue p; redis_clients := redis_clients p; queues := v;
     leased := leased p; tables := tables p; store := store p;
     system_logs := system_logs p;
     system_logs_id_seq := system_logs_id_seq p; clock := clock p;
     replies := replies p; memoryUsage := memoryUsage p;
     metrics := metrics p; healthCheckInterval := healthCheckInterval p |}.

Definition set_leased (v : nat) (p : Process) : Process :=
  {| env := env p; pool := pool p; redisClient := redisClient p;
     jobQueue := jobQueue p; redis_clients := redis_clients p;
     queues := queues p; leased := v; tables := tables p; store := store p;
     system_logs := system_logs p;
     system_logs_id_seq := system_logs_id_seq p; clock := clock p;
     replies := replies p; memoryUsage := memoryUsage p;
     metrics := metrics p; healthCheckInterval := healthCheckInterval p |}.

Definition set_tables (v : gset string) (p : Process) : Process :=
  {| env := env p; pool := pool p; redisClient := redisClient p;
     jobQueue := jobQueue p; redis_clients := redis_clients p;
     queues := queues p; leased := leased p; tables := v; store := store p;
     system_logs := system_logs p;
     system_logs_id_seq := system_logs_id_seq p; clock := clock p;
     replies := replies p; memoryUsage := memoryUsage p;
     metrics := metrics p; healthCheckInterval := healthCheckInterval p |}.

Definition set_system_logs (v : list LogRow) (p : Process) : Process :=
  {| env := env p; pool := pool p; redisClient := redisClient p;
     jobQueue := jobQueue p; redis_clients := redis_clients p;
     queues := queues p; leased := leased p; tables := tables p;
     store := store p; system_logs := v;
     system_logs_id_seq := system_logs_id_seq p; clock := clock p;
     replies := replies p; memoryUsage := memoryUsage p;
     metrics := metrics p; healthCheckInterval := healthCheckInterval p |}.

Definition set_system_logs_id_seq (v : nat) (p : Process) : Process :=
  {| env := env p; pool := pool p; redisClient := redisClient p;
     jobQueue := jobQueue p; redis_clients := redis_clients p;
     queues := queues p; leased := leased p; tables := tables p;
     store := store p; system_logs := system_logs p; system_logs_id_seq := v;
     clock := clock p; replies := replies p; memoryUsage := memoryUsage p;
     metrics := metrics p; healthCheckInterval := healthCheckInterval p |}.

Definition set_clock (v : nat) (p : Process) : Process :=
  {| env := env p; pool := pool p; redisClient := redisClient p;
     jobQueue := jobQueue p; redis_clients := redis_clients p;
     queues := queues p; leased := leased p; tables := tables p;
     store := store p; system_logs := system_logs p;
     system_logs_id_seq := system_logs_id_seq p; clock := v;
     replies := replies p; memoryUsage := memoryUsage p;
     metrics := metrics p; healthCheckInterval := healthCheckInterval p |}.

Definition set_replies (v : list Reply) (p : Process) : Process :=
  {| env := env p; pool := pool p; redisClient := redisClient p;
     jobQueue := jobQueue p; redis_clients := redis_clients p;
     queues := queues p; leased := leased p; tables := tables p;
     store := store p; system_logs := system_logs p;
     system_logs_id_seq := system_logs_id_seq p; clock := clock p;
     replies := v; memoryUsage := memoryUsage p; metrics := metrics p;
     healthCheckInterval := healthCheckInterval p |}.

Definition set_metrics (v : Metrics) (p : Process) : Process :=
  {| env := env p; pool := pool p; redisClient := redisClient p;
     jobQueue := jobQueue p; redis_clients := redis_clients p;
     queues := queues p; leased := leased p; tables := tables p;
     store := store p; system_logs := system_logs p;
     system_logs_id_seq := system_logs_id_seq p; clock := clock p;
     replies := replies p; memoryUsage := memoryUsage p; metrics := v;
     healthCheckInterval := healthCheckInterval p |}.

Definition set_healthCheckInterval (v : option bool) (p : Process) : Process :=
  {| env := env p; pool := pool p; redisClient := redisClient p;
     jobQueue := jobQueue p; redis_clients := redis_clients p;
     queues := queues p; leased := leased p; tables := tables p;
     store := store p; system_logs := system_logs p;
     system_logs_id_seq := system_logs_id_seq p; clock := clock p;
     replies := replies p; memoryUsage := memoryUsage p;
     metrics := metrics p; healthCheckInterval := v |}.

(** A process that has just been started: nothing is initialised. *)
Definition fresh (environment : gmap string string) (script : list Reply)
    (memory : MemoryUsage) (rows : World) : Process :=
  {| env := environment; pool := None; redisClient := None; jobQueue := None;
     redis_clients := []; queues := []; leased := 0; tables := ∅;
     store := rows; system_logs := []; system_logs_id_seq := 1; clock := 0;
     replies := script; memoryUsage := memory; metrics := no_metrics;
     healthCheckInterval := None |}.

(** ** Computations of the process *)

Inductive Settled (A : Type) :=
  | Fulfilled (a : A)
  | Raised (e : Exception).
Arguments Fulfilled {A} a.
Arguments Raised {A} e.

Definition Task (A : Type) : Type := Process → Settled A * Process.

Definition fulfil {A} (a : A) : Task A := λ p, (Fulfilled a, p).
Definition raise {A} (e : Exception) : Task A := λ p, (Raised e, p).
Definition and_then {A B} (m : Task A) (k : A → Task B) : Task B :=
  λ p, match m p with
       | (Fulfilled a, p') => k a p'
       | (Raised e, p') => (Raised e, p')
       end.
(** [try { m } catch (error) { handler }] *)
Definition catch {A} (m : Task A) (handler : Exception → Task A) : Task A :=
  λ p, match m p with
       | (Fulfilled a, p') => (Fulfilled a, p')
       | (Raised e, p') => handler e p'
       end.
(** [try { m } finally { cleanup }] *)
Definition finally {A} (m : Task A) (cleanup : Process → Process) : Task A :=
  λ p, match m p with
       | (r, p') => (r, cleanup p')
       end.
Definition gets {A} (f : Process → A) : Task A := λ p, (Fulfilled (f p), p).
Definition modify (f : Process → Process) : Task unit :=
  λ p, (Fulfilled tt, f p).

#[global] Instance Task_ret : MRet Task := @fulfil.
#[global] Instance Task_bind : MBind Task := λ A B k m, and_then m k.

Definition state_after {A} (m : Task A) (p : Process) : Process := snd (m p).
Definition result_of {A} (m : Task A) (p : Process) : Settled A := fst (m p).

Definition is_fulfilled {A} (r : Settled A) : Prop :=
  match r with Fulfilled _ => True | Raised _ => False end.

(** One request to a service and its answer. *)
Definition round_trip : Task unit :=
  λ p, match replies p with
       | [] => (Fulfilled tt, p)
       | reply :: rest =>
           let p' := set_clock (clock p + took reply) (set_replies rest p) in
           match failure reply with
           | None => (Fulfilled tt, p')
           | Some msg => (Raised (JsError msg), p')
           end
       end.

(** [!value] for an environment variable: unset and empty are falsy. *)
Definition unset (value : option string) : bool :=
  match value with
  | None => true
  | Some s => bool_decide (s = "")
  end.

(** ** [src/config/database.js] *)

(** [await pool.connect()] *)
Definition pool_connect : Task unit :=
  db ← gets pool;
  match db with
  | None => raise (null_deref "connect")
  | Some _ => round_trip;; modify (λ p, set_leased (S (leased p)) p)
  end.

(** [client.release()] *)
Definition client_release (p : Process) : Process :=
  set_leased (leased p - 1) p.

(** [await client.query('CREATE TABLE IF NOT EXISTS name (...)')] *)
Definition create_table_if_not_exists (name : string) : Task unit :=
  round_trip;; modify (λ p, set_tables (tables p ∪ {[ name ]}) p).

Definition createTables : Task unit :=
  pool_connect;;
  finally
    (catch
       (create_table_if_not_exists "workflows";;
        create_table_if_not_exists "jobs";;
        create_table_if_not_exists "system_logs")
       (λ error, raise error))
    client_release.

Definition initializeDatabase : Task (option Pool) :=
  existing ← gets pool;
  match existing with
  | Some _ => fulfil existing
  | None =>
      connectionString ← gets (λ p, env p !! "DATABASE_URL");
      if unset connectionString then
        raise (JsError "DATABASE_URL environment variable is not set")
      else
        NODE_ENV ← gets (λ p, env p !! "NODE_ENV");
        modify (set_pool
                  (Some (new_Pool (default "" connectionString) NODE_ENV)));;
        (* Test connection *)
        catch
          (pool_connect;;
           round_trip;;                     (* client.query('SELECT NOW()') *)
           modify client_release)
          (λ error, raise error);;
        (* Create tables if they don't exist *)
        createTables;;
        gets pool
  end.

Definition getPool : Task Pool :=
  db ← gets pool;
  match db with
  | None =>
      raise (JsError "Database not initialized. Call initializeDatabase() first.")
  | Some db => fulfil db
  end.

(** ** [src/config/redis.js] *)

(** The [reconnectStrategy] given to the client: a delay in milliseconds,
    or an [Error] to stop reconnecting. *)
Definition reconnectStrategy (retries : nat) : Exception + nat :=
  if decide (10 < retries) then
    inl (JsError "Redis reconnection limit exceeded")
  else inr (retries * 100).

(** [client.connect()] *)
Definition client_connect (client : nat) : Task unit :=
  round_trip;;
  modify (λ p, set_redis_clients
                 (alter (λ c, {| client_url := client_url c;
                                 client_open := true |})
                        client (redis_clients p)) p).

(** [client.ping()] *)
Definition client_ping (client : nat) : Task unit := round_trip.

Definition initializeRedis : Task (option nat * option nat) :=
  redisUrl ← gets (λ p, env p !! "REDIS_URL");
  if unset redisUrl then
    raise (JsError "REDIS_URL environment variable is not set")
  else
    (* Create Redis client *)
    modify (λ p,
      set_redisClient (Some (length (redis_clients p)))
        (set_redis_clients
           (redis_clients p ++ [{| client_url := default "" redisUrl;
                                   client_open := false |}]) p));;
    client ← gets redisClient;
    from_option client_connect (raise (null_deref "connect")) client;;
    (* Test connection *)
    client ← gets redisClient;
    from_option client_ping (raise (null_deref "ping")) client;;
    (* Initialize Bull queue for job processing *)
    modify (λ p,
      set_jobQueue (Some (length (queues p)))
        (set_queues
           (queues p ++ [{| queue_name := "empire-jobs";
                            queue_url := default "" redisUrl;
                            queue_processors := 0 |}]) p));;
    gets (λ p, (redisClient p, jobQueue p)).

Definition getRedisClient : Task nat :=
  client ← gets redisClient;
  match client with
  | None =>
      raise (JsError "Redis not initialized. Call initializeRedis() first.")
  | Some client => fulfil client
  end.

Definition getJobQueue : Task nat :=
  queue ← gets jobQueue;
  match queue with
  | None =>
      raise (JsError "Job queue not initialized. Call initializeRedis() first.")
  | Some queue => fulfil queue
  end.

(** ** [WorkflowOrchestrator]: the constructor's fields and [initialize] *)

Record Orchestrator := {
  this_db : Pool;
  this_jobQueue : nat
}.

(** [queue.process(handler)]: Bull refuses a second handler. *)
Definition queue_process (queue : nat) : Task unit :=
  handlers ← gets (λ p, queue_processors <$> queues p !! queue);
  if decide (0 < default 0 handlers) then
    raise (JsError "Cannot define the same handler twice __default__")
  else
    modify (λ p, set_queues
                   (alter (λ q, {| queue_name := queue_name q;
                                   queue_url := queue_url q;
                                   queue_processors := S (queue_processors q) |})
                          queue (queues p)) p).

Definition initialize : Task Orchestrator :=
  db ← getPool;
  queue ← getJobQueue;
  (* Set up job processor *)
  queue_process queue;;
  fulfil {| this_db := db; this_jobQueue := queue |}.

(** ** [src/nodes/system-health-monitor.js] *)

(** [Math.floor] and [Math.round] on doubles. *)
Definition Math_floor (x : float) : float :=
  if (abs x <? 0x1p52)%float then
    let nearest := (abs x + 0x1p52 - 0x1p52)%float in
    let below := if (abs x <? nearest)%float then (nearest - 1)%float
                 else nearest in
    if (x <? 0)%float then
      if (below <? abs x)%float then (- (below + 1))%float else (- below)%float
    else if (x =? 0)%float then x
    else below
  else x.

Definition Math_round (x : float) : float :=
  let below := Math_floor x in
  if (x - below <? 0.5)%float then below
  else if (below =? -1)%float then (-0)%float
  else (below + 1)%float.

(** [new SystemHealthMonitor()] *)
Definition new_SystemHealthMonitor (p : Process) : Process :=
  set_healthCheckInterval None (set_metrics no_metrics p).

(** [await db.query('SELECT 1')] and the other statements of the monitor. *)
Definition select_1 : Task unit := round_trip.

(** [SELECT COUNT( * ) FROM workflows
     WHERE status IN ('pending', 'queued', 'running')] *)
Definition active_workflows (w : World) : nat :=
  length (filter (λ r, wf_status r ∈ [Pending; Queued; Running]) (workflows w)).

Definition count_active_workflows : Task nat :=
  round_trip;; gets (λ p, active_workflows (store p)).

(** [SELECT COUNT( * ) FROM jobs WHERE status = 'pending'] *)
Definition pending_jobs (w : World) : nat :=
  length (filter (λ j, job_status j = Pending) (jobs w)).

Definition count_pending_jobs : Task nat :=
  round_trip;; gets (λ p, pending_jobs (store p)).

(** [INSERT INTO system_logs (level, message, metadata)
     VALUES ($1, $2, $3)] *)
Definition insert_system_log (level : string) (message : AlertMessage)
    (metadata : Metrics) : Task unit :=
  round_trip;;
  modify (λ p,
    set_system_logs_id_seq (S (system_logs_id_seq p))
      (set_system_logs
         (system_logs p ++ [{| log_id := system_logs_id_seq p;
                               log_level := level;
                               log_message := message;
                               log_metadata := metadata;
                               log_created_at := now (store p) |}]) p)).

Definition checkDatabase : Task unit :=
  catch
    (db ← getPool;
     start ← gets clock;
     select_1;;
     finish ← gets clock;
     let responseTime := finish - start in
     modify (λ p, set_metrics
                    (with_database {| svc_status := Healthy;
                                      svc_responseTime := responseTime;
                                      svc_error := None |} (metrics p)) p))
    (λ error,
     modify (λ p, set_metrics
                    (with_database {| svc_status := Unhealthy;
                                      svc_responseTime := 0;
                                      svc_error := Some (error_message error) |}
                                   (metrics p)) p)).

Definition checkRedis : Task unit :=
  catch
    (redis ← getRedisClient;
     start ← gets clock;
     client_ping redis;;
     finish ← gets clock;
     let responseTime := finish - start in
     modify (λ p, set_metrics
                    (with_redis {| svc_status := Healthy;
                                   svc_responseTime := responseTime;
                                   svc_error := None |} (metrics p)) p))
    (λ error,
     modify (λ p, set_metrics
                    (with_redis {| svc_status := Unhealthy;
                                   svc_responseTime := 0;
                                   svc_error := Some (error_message error) |}
                                (metrics p)) p)).

Definition checkSystemResources (p : Process) : Process :=
  let memUsage := memoryUsage p in
  let totalMem := heapTotal memUsage in
  let usedMem := heapUsed memUsage in
  let percentage := (usedMem / totalMem * 100)%float in
  set_metrics
    (with_memory {| mem_used := Math_round (usedMem / 1024 / 1024)%float;
                    mem_total := Math_round (totalMem / 1024 / 1024)%float;
                    mem_percentage := percentage |} (metrics p)) p.

Definition checkWorkflowMetrics : Task unit :=
  catch
    (db ← getPool;
     (* Count active workflows *)
     activeResult ← count_active_workflows;
     modify (λ p, set_metrics (with_activeWorkflows activeResult (metrics p)) p);;
     (* Count pending jobs *)
     pendingResult ← count_pending_jobs;
     modify (λ p, set_metrics (with_pendingJobs pendingResult (metrics p)) p))
    (λ error, fulfil tt).

Definition sendAlert (message : AlertMessage) : Task unit :=
  catch
    (db ← getPool;
     metadata ← gets metrics;
     insert_system_log "alert" message metadata)
    (λ error, fulfil tt).

Definition performHealthCheck : Task unit :=
  catch
    (startTime ← gets clock;
     (* Check database health *)
     checkDatabase;;
     (* Check Redis health *)
     checkRedis;;
     (* Check system resources *)
     modify checkSystemResources;;
     (* Check workflow metrics *)
     checkWorkflowMetrics;;
     modify (λ p, set_metrics (with_lastCheck (Some (clock p)) (metrics p)) p);;
     modify (λ p, set_metrics (with_uptime (clock p) (metrics p)) p);;
     (* Alert if any issues detected *)
     m ← gets metrics;
     (if bool_decide (svc_status (m_database m) = Unhealthy ∨
                      svc_status (m_redis m) = Unhealthy)
      then sendAlert SystemHealthCheckFailed
      else fulfil tt);;
     m ← gets metrics;
     if (90 <? mem_percentage (m_memory m))%float
     then sendAlert (HighMemoryUsage (mem_percentage (m_memory m)))
     else fulfil tt)
    (λ error, fulfil tt).

Definition start : Task unit :=
  (* Run health check every minute *)
  modify (set_healthCheckInterval (Some true));;
  (* Run initial health check *)
  performHealthCheck.

Definition getMetrics : Task Metrics := gets metrics.

Definition stop (p : Process) : Process :=
  match healthCheckInterval p with
  | Some _ => set_healthCheckInterval (Some false) p
  | None => p
  end.

(** ** [src/index.js]: the start-up sequence *)

Inductive Port := PortNumber (n : nat) | PortName (s : string).

(** [const PORT = process.env.PORT || 3000] *)
Definition PORT (p : Process) : Port :=
  if unset (env p !! "PORT") then PortNumber 3000
  else PortName (default "" (env p !! "PORT")).

Inductive Started :=
  | Listening (port : Port)           (* app.listen(PORT, ...) *)
  | Exited (code : nat).              (* process.exit(code) *)

Definition startSystem (p : Process) : Started * Process :=
  match (initializeDatabase;;
         initializeRedis;;
         orchestrator ← initialize;
         modify new_SystemHealthMonitor;;
         start) p with
  | (Fulfilled _, p') => (Listening (PORT p'), p')
  | (Raised error, p') => (Exited 1, p')
  end.

(** ** Counting the requests that succeed *)

(** The time the next [n] requests take. *)
Definition elapsed (n : nat) (script : list Reply) : nat :=
  sum_list (took <$> take n script).

(** Of the next [n] requests, how many succeed before the first failure. *)
Fixpoint answered (n : nat) (script : list Reply) : nat :=
  match n, script with
  | 0, _ => 0
  | S n', [] => S n'
  | S n', reply :: rest =>
      match failure reply with
      | None => S (answered n' rest)
      | Some _ => 0
      end
  end.

(** ** Concrete processes *)

Definition ok_after (ms : nat) : Reply := {| took := ms; failure := None |}.
Definition fails_after (ms : nat) (msg : string) : Reply :=
  {| took := ms; failure := Some msg |}.

Definition settings : gmap string string :=
  list_to_map
    [ ("DATABASE_URL", "postgres://empire@db/empire");
      ("REDIS_URL", "redis://cache:6379");
      ("NODE_ENV", "production") ].

Definition small_heap : MemoryUsage :=
  {| heapTotal := 104857600; heapUsed := 52953088 |}.

(** The server accepts the connection and then drops it. *)
Definition dropped_connection : Process :=
  fresh settings [ok_after 12; fails_after 2000 "Connection terminated"]
        small_heap initial.

(** The second CREATE TABLE fails. *)
Definition refused_jobs_table : Process :=
  fresh settings
        [ok_after 12; ok_after 3; ok_after 1; ok_after 20;
         fails_after 5 "permission denied for schema public"]
        small_heap initial.

(** Redis accepts the connection and does not answer the ping. *)
Definition silent_redis : Process :=
  fresh settings [ok_after 4; fails_after 5000 "Connection timeout"]
        small_heap initial.

(** A process whose database is initialised, and all goes well. *)
Definition database_ready : Process :=
  set_pool (Some (new_Pool "postgres://empire@db/empire" (Some "production")))
    (fresh settings [] small_heap initial).

(** ** What the monitor leaves alone *)

(** [unchanged k p p']: from [p] to [p'], [k] requests were sent and the
    time they took has passed; the environment, the module variables, the
    objects, the pool's clients, the tables and their rows, and the
    schedule of the monitor are the same. *)
Record unchanged (k : nat) (p p' : Process) : Prop := {
  same_env : env p' = env p;
  same_pool : pool p' = pool p;
  same_redisClient : redisClient p' = redisClient p;
  same_jobQueue : jobQueue p' = jobQueue p;
  same_redis_clients : redis_clients p' = redis_clients p;
  same_queues : queues p' = queues p;
  same_leased : leased p' = leased p;
  same_tables : tables p' = tables p;
  same_store : store p' = store p;
  same_memoryUsage : memoryUsage p' = memoryUsage p;
  same_healthCheckInterval : healthCheckInterval p' = healthCheckInterval p;
  requests_sent : replies p' = drop k (replies p);
  time_passed : clock p' = clock p + elapsed k (replies p)
}.

(** What a check records for a service: unhealthy with the message of the
    guard when the module is not initialised, otherwise as the next reply
    says. *)
Definition service_health {A} (module : option A) (guard : string)
    (script : list Reply) : ServiceMetrics :=
  if module is Some _ then
    match script with
    | [] => {| svc_status := Healthy; svc_responseTime := 0;
               svc_error := None |}
    | reply :: _ =>
        match failure reply with
        | None => {| svc_status := Healthy; svc_responseTime := took reply;
                     svc_error := None |}
        | Some msg => {| svc_status := Unhealthy; svc_responseTime := 0;
                         svc_error := Some msg |}
        end
    end
  else {| svc_status := Unhealthy; svc_responseTime := 0;
          svc_error := Some guard |}.

(** The row an alert stores. *)
Definition alert_row (message : AlertMessage) (p : Process) : LogRow :=
  {| log_id := system_logs_id_seq p; log_level := "alert";
     log_message := message; log_metadata := metrics p;
     log_created_at := now (store p) |}.

(** The requests a call sends when it needs the pool and stops at the
    first failure among at most [n]. *)
Definition requests_with_pool (n : nat) (p : Process) : nat :=
  if pool p is Some _ then S (answered n (replies p)) `min` n else 0.

(** The states [performHealthCheck] goes through. *)
Definition checked (p : Process) : Process :=
  let p4 := state_after
              (checkDatabase;; checkRedis;; modify checkSystemResources;;
               checkWorkflowMetrics) p in
  set_metrics (with_uptime (clock p4)
                 (with_lastCheck (Some (clock p4)) (metrics p4))) p4.

Definition unhealthy (m : Metrics) : Prop :=
  svc_status (m_database m) = Unhealthy ∨ svc_status (m_redis m) = Unhealthy.

Definition high_memory (m : Metrics) : bool :=
  (90 <? mem_percentage (m_memory m))%float.

(** What [checkSystemResources] records. *)
Definition memory_metrics (usage : MemoryUsage) : MemoryMetrics :=
  {| mem_used := Math_round (heapUsed usage / 1024 / 1024)%float;
     mem_total := Math_round (heapTotal usage / 1024 / 1024)%float;
     mem_percentage := (heapUsed usage / heapTotal usage * 100)%float |}.

(** The database is there and answers the check; the first count fails. *)
Definition counts_fail : Process :=
  set_metrics
    (with_pendingJobs 7 (with_activeWorkflows 3 no_metrics))
    (set_pool (Some (new_Pool "postgres://empire@db/empire" (Some "production")))
       (fresh settings
              [ok_after 2; fails_after 30 "canceling statement due to statement timeout"]
              small_heap initial)).




(** A process whose services all answer. *)
Definition all_is_well : Process := fresh settings [] small_heap initial.

(** * Properties *)

(** ** The monad *)

Lemma log_and_rethrow_id {A} (m : Async A) (w : World) :
  log_and_rethrow m w = m w.
Proof.
  unfold log_and_rethrow, try_catch, throw.
  destruct (m w) as [[a|e] w']; reflexivity.
Qed.

Lemma await_eq {A B} (m : Async A) (k : A → Async B) (w : World) :
  (m ≫= k) w = match m w with
               | (Resolved a, w') => k a w'
               | (Rejected e, w') => (Rejected e, w')
               end.
Proof. reflexivity. Qed.

(** ** The execution-plan resolver *)

Lemma plans_lookup (key : string) :
  plans !! key =
    if decide (key = "full_listing") then Some (JsArray full_listing_plan)
    else if decide (key = "test") then Some (JsArray test_plan)
    else None.
Proof.
  unfold plans. rewrite !list_to_map_cons, list_to_map_nil.
  repeat case_decide; subst; try done.
  by rewrite !lookup_insert_ne.
Qed.

Lemma plans_test : js_get plans "test" = JsArray test_plan.
Proof. unfold js_get. rewrite plans_lookup. reflexivity. Qed.

Lemma Object_prototype_no_array (key : string) (v : JsValue) :
  Object_prototype !! key = Some v → truthy v = true ∧ ∀ l, v ≠ JsArray l.
Proof.
  unfold Object_prototype.
  rewrite !list_to_map_cons, list_to_map_nil. intros E.
  repeat (apply lookup_insert_Some in E as [[_ E]|[_ E]];
          [subst v; split; [reflexivity|congruence]|]).
  by rewrite lookup_empty in E.
Qed.

(** A label that names no property of [Object.prototype] resolves to a
    non-empty array, and to the [test] plan when it is not a key of
    [plans]. *)
Lemma getExecutionPlan_plain (workflowType : string) :
  Object_prototype !! workflowType = None →
  ∃ plan, getExecutionPlan workflowType = JsArray plan ∧ plan ≠ [] ∧
          (plans !! workflowType = None → plan = test_plan).
Proof.
  intros Hproto. unfold getExecutionPlan. rewrite plans_test.
  unfold js_get. rewrite Hproto, plans_lookup.
  repeat case_decide; simpl; eexists; (split; [reflexivity|]);
    split; done.
Qed.

Lemma getExecutionPlan_array_nonempty (workflowType : string) (plan : list string) :
  getExecutionPlan workflowType = JsArray plan → plan ≠ [].
Proof.
  unfold getExecutionPlan. rewrite plans_test.
  unfold js_get. rewrite plans_lookup.
  repeat case_decide; simpl; try (intros [= <-]; done).
  destruct (Object_prototype !! workflowType) as [v|] eqn:E; simpl.
  - destruct (Object_prototype_no_array _ _ E) as [-> Hv].
    intros ->. by destruct (Hv plan).
  - intros [= <-]. done.
Qed.

(** ** ORDER BY priority *)

Lemma insert_by_priority_perm (j : Job) (l : list Job) :
  insert_by_priority j l ≡ₚ j :: l.
Proof.
  induction l as [|x l IH]; simpl; [done|].
  case_decide; [done|]. rewrite IH. apply Permutation_swap.
Qed.

Lemma order_by_priority_perm (l : list Job) : order_by_priority l ≡ₚ l.
Proof.
  induction l as [|x l IH]; simpl; [done|].
  by rewrite insert_by_priority_perm, IH.
Qed.

Lemma insert_by_priority_sorted (j : Job) (l : list Job) :
  Sorted by_priority l → Sorted by_priority (insert_by_priority j l).
Proof.
  induction 1 as [|x l Hl IH Hx]; simpl.
  - repeat constructor.
  - case_decide as Hjx.
    + constructor; [by constructor|]. by constructor.
    + constructor; [done|].
      assert (by_priority x j) by (unfold by_priority; lia).
      destruct Hx as [|y l' Hxy]; simpl; [by constructor|].
      case_decide; by constructor.
Qed.

Lemma order_by_priority_sorted (l : list Job) :
  Sorted by_priority (order_by_priority l).
Proof.
  induction l; simpl; [constructor|]. by apply insert_by_priority_sorted.
Qed.

(** Rows already in ascending order are returned as they are. *)
Lemma order_by_priority_id (l : list Job) :
  Sorted by_priority l → order_by_priority l = l.
Proof.
  induction 1 as [|x l Hl IH Hx]; simpl; [done|].
  rewrite IH. destruct Hx as [|y l' Hxy]; simpl; [done|].
  unfold by_priority in Hxy. by case_decide.
Qed.

Lemma insert_jobs_from (workflowId : nat) (pre rest : list string) (w : World) :
  foldr (λ i k,
           insert_job workflowId (js_index (JsArray (pre ++ rest)) i) Pending
                      (i + 1);; k)
        (mret tt) (seq (length pre) (length rest)) w =
  (Resolved tt,
   {| workflows := workflows w;
      jobs := jobs w ++
                imap (λ i name, new_job (jobs_id_seq w + i) workflowId name
                                        (length pre + i + 1) (now w)) rest;
      workflows_id_seq := workflows_id_seq w;
      jobs_id_seq := jobs_id_seq w + length rest;
      now := now w; waiting := waiting w; active := active w;
      activeWorkflows := activeWorkflows w |}).
Proof.
  revert pre w. induction rest as [|x rest IH]; intros pre w.
  - simpl. unfold mret, Async_ret, resolve. destruct w; simpl.
    by rewrite app_nil_r, Nat.add_0_r.
  - cbn [length seq foldr]. rewrite await_eq.
    unfold insert_job at 1. cbn [js_index].
    rewrite (list_lookup_middle pre rest x (length pre) eq_refl).
    specialize (IH (pre ++ [x])).
    rewrite length_app in IH. simpl in IH.
    rewrite <- (assoc_L (++) pre [x] rest) in IH. simpl in IH.
    rewrite Nat.add_1_r in IH. rewrite IH. clear IH.
    destruct w; simpl. f_equal. f_equal; [|lia].
    rewrite <- (assoc_L (++)). simpl. f_equal.
    unfold new_job. f_equal; [f_equal; lia|].
    apply imap_ext. intros i y _. simpl. f_equal; lia.
Qed.

Lemma insert_plan_jobs (workflowId : nat) (plan : list string) (w : World) :
  for_upto (length plan) (λ i,
    insert_job workflowId (js_index (JsArray plan) i) Pending (i + 1)) w =
  (Resolved tt,
   {| workflows := workflows w;
      jobs := jobs w ++ plan_jobs workflowId (now w) (jobs_id_seq w) plan;
      workflows_id_seq := workflows_id_seq w;
      jobs_id_seq := jobs_id_seq w + length plan;
      now := now w; waiting := waiting w; active := active w;
      activeWorkflows := activeWorkflows w |}).
Proof. apply (insert_jobs_from workflowId [] plan w). Qed.

(** ** What each method does to the state *)

Lemma completeWorkflow_eq (workflowId : nat) (w : World) :
  completeWorkflow workflowId w =
  (Resolved tt,
   {| workflows := update_where (λ r, wf_id r = workflowId)
                                (completed_row (now w)) (workflows w);
      jobs := jobs w;
      workflows_id_seq := workflows_id_seq w; jobs_id_seq := jobs_id_seq w;
      now := now w; waiting := waiting w; active := active w;
      activeWorkflows := activeWorkflows w ∖ {[workflowId]} |}).
Proof. reflexivity. Qed.

Lemma processNextJob_eq (workflowId : nat) (w : World) :
  processNextJob workflowId w =
  match next_pending workflowId w with
  | None => completeWorkflow workflowId w
  | Some job =>
      (Resolved tt, set_waiting (λ q, q ++ [dispatch workflowId job]) w)
  end.
Proof.
  unfold processNextJob. rewrite log_and_rethrow_id, await_eq.
  unfold select_next_pending, query, next_pending.
  destruct (order_by_priority _) as [|job l]; reflexivity.
Qed.

Lemma update_workflow_status_eq (s : Status) (id : nat) (w : World) :
  update_workflow_status s id w =
  (Resolved tt,
   set_workflows (update_where (λ r, wf_id r = id) (with_status s (now w))) w).
Proof. reflexivity. Qed.

Lemma queueWorkflow_not_found (workflowId : nat) (w : World) :
  find_workflow workflowId w = None →
  queueWorkflow workflowId w = (Rejected (NotFound workflowId), w).
Proof.
  unfold find_workflow, queueWorkflow. intros H.
  rewrite log_and_rethrow_id, await_eq. unfold select_workflow, query.
  by destruct (filter _ _).
Qed.

Lemma queueWorkflow_array (workflowId : nat) (w : World) (r : Workflow)
    (plan : list string) :
  find_workflow workflowId w = Some r →
  getExecutionPlan (wf_name r) = JsArray plan →
  queueWorkflow workflowId w = processNextJob workflowId (queued workflowId plan w).
Proof.
  unfold find_workflow, queueWorkflow. intros Hr Hplan.
  rewrite log_and_rethrow_id, await_eq. unfold select_workflow, query.
  destruct (filter _ _) as [|r' l]; [done|]. injection Hr as ->.
  rewrite Hplan. cbv zeta. cbn [js_length default from_option id].
  rewrite await_eq, insert_plan_jobs, await_eq, update_workflow_status_eq.
  reflexivity.
Qed.


Lemma next_pending_None (workflowId : nat) (w : World) :
  next_pending workflowId w = None ↔
  Forall (λ j, job_workflow_id j = workflowId → job_status j ≠ Pending) (jobs w).
Proof.
  unfold next_pending. rewrite head_None. split.
  - intros H. apply Forall_forall. intros j Hj Hwid Hst.
    assert (j ∈ order_by_priority
      (filter (λ r, job_workflow_id r = workflowId ∧ job_status r = Pending)
              (jobs w))) as Hin.
    { rewrite order_by_priority_perm. apply list_elem_of_filter. tauto. }
    rewrite H in Hin. by apply elem_of_nil in Hin.
  - intros H. rewrite Forall_forall in H.
    destruct (order_by_priority _) as [|j l] eqn:E; [done|]. exfalso.
    assert (j ∈ order_by_priority
      (filter (λ r, job_workflow_id r = workflowId ∧ job_status r = Pending)
              (jobs w))) as Hin by (rewrite E; left).
    rewrite order_by_priority_perm in Hin.
    apply list_elem_of_filter in Hin as [[? ?] ?]. by eapply H.
Qed.

(** ** Updates and selections *)

Lemma filter_all {A} (P : A → Prop) `{!∀ r, Decision (P r)} (l : list A) :
  Forall P l → filter P l = l.
Proof.
  induction 1 as [|x l Hx Hl IH]; [done|].
  by rewrite filter_cons_True, IH.
Qed.

Lemma filter_none {A} (P : A → Prop) `{!∀ r, Decision (P r)} (l : list A) :
  Forall (λ x, ¬ P x) l → filter P l = [].
Proof.
  induction 1 as [|x l Hx Hl IH]; [done|].
  by rewrite filter_cons_False.
Qed.

Lemma filter_update_where {A} (P cond : A → Prop)
    `{!∀ r, Decision (P r)} `{!∀ r, Decision (cond r)}
    (f : A → A) (l : list A) :
  (∀ r, P (f r) ↔ P r) →
  filter P (update_where cond f l) = update_where cond f (filter P l).
Proof.
  intros Hf. unfold update_where. induction l as [|x l IH]; [done|].
  rewrite fmap_cons, !filter_cons.
  destruct (decide (cond x)).
  - destruct (decide (P (f x))) as [HP|HP]; destruct (decide (P x)) as [HP'|HP'].
    + rewrite fmap_cons, IH. by rewrite decide_True.
    + exfalso. apply HP'. by apply Hf.
    + exfalso. apply HP. by apply Hf.
    + done.
  - destruct (decide (P x)); [|done].
    rewrite fmap_cons, IH. by rewrite decide_False.
Qed.

Lemma update_where_none {A} (cond : A → Prop) `{!∀ r, Decision (cond r)}
    (f : A → A) (l : list A) :
  Forall (λ r, ¬ cond r) l → update_where cond f l = l.
Proof.
  unfold update_where. induction 1 as [|x l Hx Hl IH]; [done|].
  rewrite fmap_cons, IH. by rewrite decide_False.
Qed.

Lemma update_where_app {A} (cond : A → Prop) `{!∀ r, Decision (cond r)}
    (f : A → A) (l1 l2 : list A) :
  update_where cond f (l1 ++ l2) =
  update_where cond f l1 ++ update_where cond f l2.
Proof. apply fmap_app. Qed.


Lemma update_where_lookup {A} (cond : A → Prop) `{!∀ r, Decision (cond r)}
    (f : A → A) (l : list A) (i : nat) :
  update_where cond f l !! i =
  (λ r, if decide (cond r) then f r else r) <$> (l !! i).
Proof. apply list_lookup_fmap. Qed.

Lemma update_where_fmap {A B} (cond : A → Prop) `{!∀ r, Decision (cond r)}
    (f : A → A) (g : A → B) (l : list A) :
  (∀ r, g (f r) = g r) → g <$> update_where cond f l = g <$> l.
Proof.
  intros Hg. unfold update_where. rewrite <- list_fmap_compose.
  apply list_fmap_ext. intros i x _. simpl. by case_decide.
Qed.

Lemma elem_of_update_where {A} (cond : A → Prop) `{!∀ r, Decision (cond r)}
    (f : A → A) (l : list A) (y : A) :
  y ∈ update_where cond f l ↔
  ∃ x, x ∈ l ∧ y = if decide (cond x) then f x else x.
Proof.
  unfold update_where. rewrite list_elem_of_fmap.
  split; intros (x & H1 & H2); exists x; tauto.
Qed.


Lemma find_workflow_None (id : nat) (w : World) :
  find_workflow id w = None ↔ ∀ r, r ∈ workflows w → wf_id r ≠ id.
Proof.
  unfold find_workflow. rewrite head_None. split.
  - intros H r Hr Hid.
    assert (r ∈ filter (λ r, wf_id r = id) (workflows w)) as Hin
      by (by apply list_elem_of_filter).
    rewrite H in Hin. by apply elem_of_nil in Hin.
  - intros H. destruct (filter _ _) as [|r l] eqn:E; [done|]. exfalso.
    assert (r ∈ filter (λ r, wf_id r = id) (workflows w)) as Hin
      by (rewrite E; left).
    apply list_elem_of_filter in Hin as [? ?]. by eapply H.
Qed.

Lemma find_workflow_Some (id : nat) (w : World) (r : Workflow) :
  find_workflow id w = Some r → r ∈ workflows w ∧ wf_id r = id.
Proof.
  unfold find_workflow. intros H. apply head_Some_elem_of in H.
  apply list_elem_of_filter in H. tauto.
Qed.

Lemma processNextJob_jobs (workflowId : nat) (w : World) :
  jobs (after (processNextJob workflowId) w) = jobs w.
Proof.
  unfold after. rewrite processNextJob_eq.
  destruct (next_pending workflowId w); reflexivity.
Qed.

Lemma processNextJob_resolves (workflowId : nat) (w : World) :
  outcome (processNextJob workflowId) w = Resolved tt.
Proof.
  unfold outcome. rewrite processNextJob_eq.
  destruct (next_pending workflowId w); reflexivity.
Qed.

Lemma plan_jobs_length wid t id0 plan :
  length (plan_jobs wid t id0 plan) = length plan.
Proof. apply length_imap. Qed.

Lemma plan_jobs_lookup wid t id0 plan i :
  plan_jobs wid t id0 plan !! i =
  (λ name, new_job (id0 + i) wid name (i + 1) t) <$> plan !! i.
Proof. apply list_lookup_imap. Qed.

Lemma plan_jobs_elem wid t id0 plan j :
  j ∈ plan_jobs wid t id0 plan →
  job_workflow_id j = wid ∧ job_status j = Pending ∧
  id0 ≤ job_id j < id0 + length plan.
Proof.
  intros H. apply list_elem_of_lookup in H as [i Hi].
  rewrite plan_jobs_lookup in Hi.
  destruct (plan !! i) as [name|] eqn:E; [|done].
  apply lookup_lt_Some in E. injection Hi as <-. simpl.
  split; [done|]. split; [done|]. lia.
Qed.

Lemma plan_jobs_priorities wid t id0 plan :
  job_priority <$> plan_jobs wid t id0 plan = seq 1 (length plan).
Proof.
  apply list_eq. intros i. rewrite list_lookup_fmap, plan_jobs_lookup.
  destruct (plan !! i) as [name|] eqn:E; simpl.
  - apply lookup_lt_Some in E. symmetry. rewrite lookup_seq. simpl. lia.
  - apply lookup_ge_None in E. symmetry. apply lookup_ge_None.
    by rewrite length_seq.
Qed.

Lemma plan_jobs_filter wid t id0 plan :
  filter (λ r, job_workflow_id r = wid) (plan_jobs wid t id0 plan) =
  plan_jobs wid t id0 plan.
Proof.
  apply filter_all, Forall_forall.
  intros j Hj. by apply plan_jobs_elem in Hj as [? _].
Qed.


(** ** Reasoning along the monad *)

Section keeps.
Context (P : World → World → Prop) `{!PreOrder P}.

Lemma keeps_ret {A} (a : A) : keeps P (mret a).
Proof. intros w. reflexivity. Qed.

Lemma keeps_throw {A} (e : Error) : keeps P (@throw A e).
Proof. intros w. reflexivity. Qed.

Lemma keeps_query {A} (f : World → A) : keeps P (query f).
Proof. intros w. reflexivity. Qed.

Lemma keeps_bind {A B} (m : Async A) (k : A → Async B) :
  keeps P m → (∀ a, keeps P (k a)) → keeps P (m ≫= k).
Proof.
  intros Hm Hk w. unfold after. rewrite await_eq.
  specialize (Hm w). unfold after in Hm.
  destruct (m w) as [[a|e] w1]; simpl in *; [|done].
  etrans; [exact Hm|]. apply Hk.
Qed.

Lemma keeps_try_catch {A} (m : Async A) (h : Error → Async A) :
  keeps P m → (∀ e, keeps P (h e)) → keeps P (try_catch m h).
Proof.
  intros Hm Hh w. unfold after, try_catch.
  specialize (Hm w). unfold after in Hm.
  destruct (m w) as [[a|e] w1]; simpl in *; [done|].
  etrans; [exact Hm|]. apply Hh.
Qed.

Lemma keeps_log_and_rethrow {A} (m : Async A) :
  keeps P m → keeps P (log_and_rethrow m).
Proof. intros Hm. apply keeps_try_catch; [done|]. apply keeps_throw. Qed.

Lemma keeps_for_upto (n : nat) (body : nat → Async unit) :
  (∀ i, keeps P (body i)) → keeps P (for_upto n body).
Proof.
  intros Hbody. unfold for_upto. generalize (seq 0 n).
  induction l as [|i l IH]; simpl; [apply keeps_ret|].
  apply keeps_bind; [apply Hbody|]. intros _. apply IH.
Qed.
End keeps.

#[global] Instance no_pending_write_preorder : PreOrder no_pending_write.
Proof.
  split.
  - intros w i r Hr. exists r. eauto.
  - intros w1 w2 w3 H12 H23 i r Hr.
    destruct (H12 i r Hr) as (r2 & Hr2 & Hid2 & Hs2).
    destruct (H23 i r2 Hr2) as (r3 & Hr3 & Hid3 & Hs3).
    exists r3. split; [done|]. split; [congruence|].
    destruct Hs3 as [->|?]; [done|by right].
Qed.

Lemma no_pending_write_same (w w' : World) :
  workflows w' = workflows w → no_pending_write w w'.
Proof. intros H i r Hr. exists r. rewrite H. eauto. Qed.

Lemma no_pending_write_update (w w' : World) (cond : Workflow → Prop)
    `{!∀ r, Decision (cond r)} (f : Workflow → Workflow) :
  (∀ r, wf_id (f r) = wf_id r ∧ wf_status (f r) ≠ Pending) →
  workflows w' = update_where cond f (workflows w) →
  no_pending_write w w'.
Proof.
  intros Hf Hw i r Hr. rewrite Hw, update_where_lookup, Hr. simpl.
  eexists. split; [reflexivity|]. case_decide; [|by eauto].
  destruct (Hf r). eauto.
Qed.

Lemma no_pending_write_insert (w w' : World) (row : Workflow) :
  workflows w' = workflows w ++ [row] → no_pending_write w w'.
Proof.
  intros H i r Hr. exists r. rewrite H. split; [|by eauto].
  by apply lookup_app_l_Some.
Qed.

Lemma keeps_insert_job workflow_id node_name status priority :
  keeps no_pending_write (insert_job workflow_id node_name status priority).
Proof.
  intros w. unfold after, insert_job.
  destruct node_name; by apply no_pending_write_same.
Qed.

Lemma keeps_completeWorkflow (workflowId : nat) :
  keeps no_pending_write (completeWorkflow workflowId).
Proof.
  intros w. unfold after. rewrite completeWorkflow_eq. cbn [snd].
  by apply (no_pending_write_update _ _ (λ r, wf_id r = workflowId)
                                    (completed_row (now w))).
Qed.

Lemma keeps_processNextJob (workflowId : nat) :
  keeps no_pending_write (processNextJob workflowId).
Proof.
  intros w. unfold after. rewrite processNextJob_eq.
  destruct (next_pending workflowId w).
  - by apply no_pending_write_same.
  - apply keeps_completeWorkflow.
Qed.

Lemma keeps_update_workflow_status (s : Status) (id : nat) :
  s ≠ Pending → keeps no_pending_write (update_workflow_status s id).
Proof.
  intros Hs w. unfold after. rewrite update_workflow_status_eq. cbn [snd].
  by apply (no_pending_write_update _ _ (λ r, wf_id r = id)
                                    (with_status s (now w))).
Qed.

Lemma keeps_queueWorkflow (workflowId : nat) :
  keeps no_pending_write (queueWorkflow workflowId).
Proof.
  unfold queueWorkflow. apply keeps_log_and_rethrow; [apply _|].
  apply keeps_bind; [apply _|apply keeps_query; apply _|].
  intros [|workflow rows]; [apply keeps_throw; apply _|].
  cbv zeta. apply keeps_bind; [apply _| |].
  - apply keeps_for_upto; [apply _|]. intros i. apply keeps_insert_job.
  - intros _. apply keeps_bind; [apply _| |].
    + by apply keeps_update_workflow_status.
    + intros _. apply keeps_processNextJob.
Qed.

Lemma keeps_createWorkflow propertyId workflowType :
  keeps no_pending_write (createWorkflow propertyId workflowType).
Proof.
  unfold createWorkflow. apply keeps_log_and_rethrow; [apply _|].
  apply keeps_bind; [apply _| |].
  - intros w. unfold after, insert_workflow. cbn [snd].
    by eapply no_pending_write_insert.
  - intros workflowId. apply keeps_bind; [apply _|apply keeps_queueWorkflow|].
    intros _. apply keeps_ret; apply _.
Qed.

Lemma keeps_run_unit (u : StepUnit) nodeName workflowId :
  keeps no_pending_write (run_unit u nodeName workflowId).
Proof.
  intros w. unfold after, run_unit.
  destruct (u nodeName workflowId w). by apply no_pending_write_same.
Qed.

Lemma keeps_processJob (u : StepUnit) (bullJob : Message) :
  keeps no_pending_write (processJob (run_unit u) bullJob).
Proof.
  destruct bullJob as [jid wid name]. unfold processJob.
  apply keeps_try_catch; [apply _| |].
  - apply keeps_bind; [apply _| |].
    { intros w. by apply no_pending_write_same. }
    intros _. apply keeps_bind; [apply _|apply keeps_run_unit|].
    intros result. apply keeps_bind; [apply _| |].
    { intros w. by apply no_pending_write_same. }
    intros _. apply keeps_bind; [apply _|apply keeps_processNextJob|].
    intros _. apply keeps_ret; apply _.
  - intros e. apply keeps_bind; [apply _| |].
    { intros w. by apply no_pending_write_same. }
    intros _. apply keeps_bind; [apply _| |].
    + by apply keeps_update_workflow_status.
    + intros _. apply keeps_throw; apply _.
Qed.

(** ** [queueWorkflow] on a workflow that exists *)

Lemma find_workflow_updated (id id' : nat) (f : Workflow → Workflow)
    (w w' : World) :
  (∀ r, wf_id (f r) = wf_id r) →
  workflows w' = update_where (λ r, wf_id r = id') f (workflows w) →
  find_workflow id w' =
  (λ r, if decide (wf_id r = id') then f r else r) <$> find_workflow id w.
Proof.
  intros Hf Hw. unfold find_workflow. rewrite Hw.
  rewrite filter_update_where by (intros r; by rewrite Hf).
  unfold update_where. by destruct (filter _ _).
Qed.

Lemma processNextJob_name (workflowId id : nat) (w : World) :
  wf_name <$> find_workflow id (after (processNextJob workflowId) w) =
  wf_name <$> find_workflow id w.
Proof.
  unfold after. rewrite processNextJob_eq.
  destruct (next_pending workflowId w); [done|].
  rewrite completeWorkflow_eq. cbn [snd].
  rewrite (find_workflow_updated id workflowId (completed_row (now w)) w)
    by done.
  destruct (find_workflow id w) as [r|]; [|done]. simpl. by case_decide.
Qed.

Lemma processNextJob_clock (workflowId : nat) (w : World) :
  now (after (processNextJob workflowId) w) = now w ∧
  jobs_id_seq (after (processNextJob workflowId) w) = jobs_id_seq w.
Proof.
  unfold after. rewrite processNextJob_eq.
  by destruct (next_pending workflowId w).
Qed.

Lemma queued_name (workflowId id : nat) (plan : list string) (w : World) :
  wf_name <$> find_workflow id (queued workflowId plan w) =
  wf_name <$> find_workflow id w.
Proof.
  rewrite (find_workflow_updated id workflowId (with_status Queued (now w)) w)
    by done.
  destruct (find_workflow id w) as [r|]; [|done]. simpl. by case_decide.
Qed.

Lemma queueWorkflow_found (workflowId : nat) (w : World) (r : Workflow)
    (plan : list string) :
  find_workflow workflowId w = Some r →
  getExecutionPlan (wf_name r) = JsArray plan →
  let w' := after (queueWorkflow workflowId) w in
  outcome (queueWorkflow workflowId) w = Resolved tt ∧
  jobs w' = jobs w ++ plan_jobs workflowId (now w) (jobs_id_seq w) plan ∧
  now w' = now w ∧ jobs_id_seq w' = jobs_id_seq w + length plan ∧
  ∃ r', find_workflow workflowId w' = Some r' ∧ wf_name r' = wf_name r.
Proof.
  intros Hr Hplan w'. unfold w', after, outcome.
  rewrite (queueWorkflow_array _ _ _ _ Hr Hplan).
  fold (outcome (processNextJob workflowId) (queued workflowId plan w)).
  fold (after (processNextJob workflowId) (queued workflowId plan w)).
  rewrite processNextJob_resolves, processNextJob_jobs.
  destruct (processNextJob_clock workflowId (queued workflowId plan w))
    as [-> ->].
  repeat (split; [done|]).
  pose proof (processNextJob_name workflowId workflowId
                (queued workflowId plan w)) as Hname.
  rewrite queued_name, Hr in Hname. simpl in Hname.
  destruct (find_workflow workflowId
              (after (processNextJob workflowId) (queued workflowId plan w)))
    as [r'|]; [|done].
  exists r'. split; [done|]. simpl in Hname. congruence.
Qed.

(** ** Sorted priorities *)

Lemma seq_strongly_sorted (a n : nat) : StronglySorted lt (seq a n).
Proof.
  revert a. induction n as [|n IH]; intros a; simpl; constructor; [apply IH|].
  apply Forall_forall. intros x Hx. apply elem_of_seq in Hx. lia.
Qed.

Lemma strict_priorities_sorted (l : list Job) :
  StronglySorted lt (job_priority <$> l) → Sorted by_priority l.
Proof.
  induction l as [|x l IH]; simpl; intros H; [constructor|].
  apply StronglySorted_inv in H as [Hl Hx].
  constructor; [by apply IH|].
  destruct l as [|y l]; constructor.
  apply Forall_inv in Hx. unfold by_priority. simpl in Hx. lia.
Qed.

Lemma next_pending_jobs_of (workflow_id : nat) (w : World) :
  next_pending workflow_id w =
  head (order_by_priority
          (filter (λ r, job_status r = Pending) (jobs_of workflow_id w))).
Proof.
  unfold next_pending, jobs_of. rewrite list_filter_filter.
  do 2 f_equal. apply list_filter_iff. tauto.
Qed.

Lemma filter_pending_split (done rest : list Job) (j : Job) :
  Forall (λ x, job_status x = Completed) done →
  job_status j ≠ Pending →
  Forall (λ x, job_status x = Pending) rest →
  filter (λ r, job_status r = Pending) (done ++ j :: rest) = rest.
Proof.
  intros Hd Hj Hr. rewrite filter_app, filter_cons_False by done.
  rewrite (filter_all _ rest) by done.
  rewrite filter_none; [done|].
  eapply Forall_impl; [exact Hd|]. simpl. intros x ->. done.
Qed.

(** ** Primary keys *)

Lemma fmap_NoDup_inj {A B} (f : A → B) (l : list A) (x y : A) :
  NoDup (f <$> l) → x ∈ l → y ∈ l → f x = f y → x = y.
Proof.
  induction l as [|a l IH]; simpl; intros Hnd Hx Hy Hxy.
  - by apply elem_of_nil in Hx.
  - apply NoDup_cons in Hnd as [Ha Hnd].
    apply elem_of_cons in Hx as [->|Hx]; apply elem_of_cons in Hy as [->|Hy].
    + done.
    + exfalso. apply Ha. rewrite Hxy. by apply list_elem_of_fmap_2.
    + exfalso. apply Ha. rewrite <- Hxy. by apply list_elem_of_fmap_2.
    + by apply IH.
Qed.

Lemma job_id_inj (w : World) (x y : Job) :
  store_ok w → x ∈ jobs w → y ∈ jobs w → job_id x = job_id y → x = y.
Proof. intros Hok. apply fmap_NoDup_inj, Hok. Qed.

Lemma jobs_of_elem (wid : nat) (w : World) (j : Job) :
  j ∈ jobs_of wid w ↔ job_workflow_id j = wid ∧ j ∈ jobs w.
Proof. unfold jobs_of. by rewrite list_elem_of_filter. Qed.

Lemma jobs_of_NoDup (wid : nat) (w : World) :
  store_ok w → NoDup (jobs_of wid w).
Proof.
  intros Hok. apply NoDup_filter. eapply NoDup_fmap_1, Hok.
Qed.

(** Rewriting the row with a given id, in a list that holds it once. *)
Lemma update_where_middle (w : World) (wid : nat) (f : Job → Job)
    (done rest : list Job) (j : Job) :
  store_ok w →
  jobs_of wid w = done ++ j :: rest →
  update_where (λ r, job_id r = job_id j) f (done ++ j :: rest) =
  done ++ f j :: rest.
Proof.
  intros Hok HJ.
  pose proof (jobs_of_NoDup wid w Hok) as Hnd. rewrite HJ in Hnd.
  apply NoDup_app in Hnd as (_ & Hdj & Hnd).
  apply NoDup_cons in Hnd as [Hjr _].
  assert (∀ x, x ∈ done ++ j :: rest → x ∈ jobs w) as Hin.
  { intros x Hx. rewrite <- HJ in Hx. by apply jobs_of_elem in Hx as [_ ?]. }
  assert (∀ x, x ∈ done ++ j :: rest → job_id x = job_id j → x = j) as Hinj.
  { intros x Hx Hid. eapply job_id_inj; eauto.
    apply Hin, elem_of_app. right. left. }
  assert (Forall (λ r, ¬ job_id r = job_id j) done) as Hd.
  { apply Forall_forall. intros x Hx Hid.
    assert (x = j) as -> by (apply Hinj; [apply elem_of_app; by left|done]).
    apply (Hdj j Hx). left. }
  assert (Forall (λ r, ¬ job_id r = job_id j) rest) as Hr.
  { apply Forall_forall. intros x Hx Hid. apply Hjr.
    assert (x = j) as ->; [|done].
    apply Hinj; [|done]. apply elem_of_app. right. by right. }
  rewrite update_where_app.
  rewrite (update_where_none _ f done Hd).
  unfold update_where at 1. rewrite fmap_cons.
  rewrite decide_True by done.
  fold (update_where (λ r, job_id r = job_id j) f rest).
  by rewrite (update_where_none _ f rest Hr).
Qed.

Lemma jobs_of_update (w : World) (wid : nat) (f : Job → Job) (j : Job) :
  store_ok w → j ∈ jobs w →
  (∀ r, job_workflow_id (f r) = job_workflow_id r) →
  filter (λ r, job_workflow_id r = wid)
         (update_where (λ r, job_id r = job_id j) f (jobs w)) =
  if decide (wid = job_workflow_id j)
  then update_where (λ r, job_id r = job_id j) f (jobs_of wid w)
  else jobs_of wid w.
Proof.
  intros Hok Hj Hf.
  rewrite filter_update_where by (intros r; by rewrite Hf).
  case_decide as Hwid; [done|].
  apply update_where_none, Forall_forall. intros x Hx Hid.
  apply jobs_of_elem in Hx as [Hx1 Hx2].
  assert (x = j) as -> by (eapply job_id_inj; eauto). congruence.
Qed.

(** ** [createWorkflow], case by case *)

Lemma fresh_workflow_id (w : World) :
  store_ok w →
  Forall (λ r, ¬ wf_id r = workflows_id_seq w) (workflows w).
Proof.
  intros Hok. apply Forall_forall. intros r Hr.
  apply (ok_wf_seq w Hok) in Hr. lia.
Qed.

Lemma fresh_workflow_jobs (w : World) :
  store_ok w →
  Forall (λ j, ¬ job_workflow_id j = workflows_id_seq w) (jobs w).
Proof.
  intros Hok. apply Forall_forall. intros j Hj.
  destruct (ok_job_fk w Hok j Hj) as (r & Hr & Hid).
  apply (ok_wf_seq w Hok) in Hr. lia.
Qed.

Lemma insert_workflow_eq name status property_id metadata (w : World) :
  insert_workflow name status property_id metadata w =
  (Resolved (workflows_id_seq w),
   grown w {| wf_id := workflows_id_seq w; wf_name := name;
              wf_status := status; wf_property_id := property_id;
              wf_created_at := now w; wf_updated_at := now w;
              wf_completed_at := None; wf_metadata := metadata |}
         [] 0 [] (activeWorkflows w)).
Proof.
  unfold insert_workflow, grown. destruct w; simpl.
  by rewrite !app_nil_r, Nat.add_0_r.
Qed.

Lemma find_workflow_grown (w : World) row rows drawn msgs cache :
  store_ok w → wf_id row = workflows_id_seq w →
  find_workflow (workflows_id_seq w) (grown w row rows drawn msgs cache) =
  Some row.
Proof.
  intros Hok Hid. unfold find_workflow, grown. cbn [workflows].
  rewrite filter_app, filter_none by by apply fresh_workflow_id.
  by rewrite filter_cons_True.
Qed.

Lemma update_fresh_row (w : World) (f : Workflow → Workflow) (row : Workflow) :
  store_ok w → wf_id row = workflows_id_seq w →
  update_where (λ r, wf_id r = workflows_id_seq w) f (workflows w ++ [row]) =
  workflows w ++ [f row].
Proof.
  intros Hok Hid. rewrite update_where_app.
  rewrite update_where_none by (apply (fresh_workflow_id _ Hok)).
  unfold update_where. rewrite fmap_cons, decide_True by done. done.
Qed.

Lemma createWorkflow_array propertyId workflowType (w : World) n0 plan :
  store_ok w →
  getExecutionPlan workflowType = JsArray (n0 :: plan) →
  createWorkflow propertyId workflowType w =
  (Resolved (workflows_id_seq w),
   grown w (new_workflow w propertyId workflowType Queued None)
         (plan_jobs (workflows_id_seq w) (now w) (jobs_id_seq w) (n0 :: plan))
         (length (n0 :: plan))
         [ {| jobId := jobs_id_seq w; workflowId := workflows_id_seq w;
              nodeName := n0 |} ]
         (activeWorkflows w)).
Proof.
  intros Hok Hplan. unfold createWorkflow.
  rewrite log_and_rethrow_id, await_eq, insert_workflow_eq, await_eq.
  set (row := {| wf_id := workflows_id_seq w |}).
  set (w0 := grown w row [] 0 [] (activeWorkflows w)).
  assert (workflows_id_seq w0 = S (workflows_id_seq w)) as Hseq by done.
  rewrite (queueWorkflow_array _ w0 row (n0 :: plan))
    by (by apply find_workflow_grown || done).
  rewrite processNextJob_eq.
  assert (next_pending (workflows_id_seq w)
            (queued (workflows_id_seq w) (n0 :: plan) w0) =
          Some (new_job (jobs_id_seq w) (workflows_id_seq w) n0 1 (now w)))
    as ->.
  { rewrite next_pending_jobs_of. unfold jobs_of, queued, w0, grown.
    cbn [jobs jobs_id_seq now].
    rewrite app_nil_r, Nat.add_0_r, filter_app.
    rewrite (filter_none _ (jobs w)) by by apply fresh_workflow_jobs.
    rewrite app_nil_l, plan_jobs_filter.
    rewrite filter_all.
    2:{ apply Forall_forall. intros j Hj.
        by apply plan_jobs_elem in Hj as (_ & ? & _). }
    rewrite order_by_priority_id.
    2:{ apply strict_priorities_sorted. rewrite plan_jobs_priorities.
        apply seq_strongly_sorted. }
    simpl. by rewrite Nat.add_0_r. }
  unfold queued, w0, grown, set_waiting, new_workflow, dispatch, row.
  cbn -[update_where plan_jobs]. clear w0 row Hseq.
  rewrite update_fresh_row by done.
  by rewrite !app_nil_r, !Nat.add_0_r.
Qed.

Lemma createWorkflow_no_steps propertyId workflowType (w : World) :
  store_ok w →
  default 0 (js_length (getExecutionPlan workflowType)) = 0 →
  createWorkflow propertyId workflowType w =
  (Resolved (workflows_id_seq w),
   grown w (new_workflow w propertyId workflowType Completed (Some (now w)))
         [] 0 [] (activeWorkflows w ∖ {[workflows_id_seq w]})).
Proof.
  intros Hok Hlen. unfold createWorkflow.
  rewrite log_and_rethrow_id, await_eq, insert_workflow_eq, await_eq.
  set (row := {| wf_id := workflows_id_seq w |}).
  set (w0 := grown w row [] 0 [] (activeWorkflows w)).
  unfold queueWorkflow. rewrite log_and_rethrow_id, await_eq.
  unfold select_workflow, query.
  pose proof (find_workflow_grown w row [] 0 [] (activeWorkflows w) Hok eq_refl)
    as Hfind.
  unfold find_workflow in Hfind. fold w0 in Hfind.
  destruct (filter _ (workflows w0)) as [|r' l]; [done|].
  injection Hfind as ->. cbv zeta. cbn [wf_name row]. rewrite Hlen.
  unfold for_upto. cbn [seq foldr].
  rewrite await_eq. unfold mret at 1, Async_ret, resolve.
  rewrite await_eq, update_workflow_status_eq, processNextJob_eq.
  assert (∀ g, next_pending (workflows_id_seq w) (set_workflows g w0) = None)
    as ->.
  { intros g. apply next_pending_None. unfold set_workflows, w0, grown.
    cbn [jobs]. rewrite app_nil_r.
    eapply Forall_impl; [apply (fresh_workflow_jobs _ Hok)|]. simpl. tauto. }
  rewrite completeWorkflow_eq.
  unfold w0, grown, set_workflows, new_workflow, row.
  cbn -[update_where]. clear w0 row.
  rewrite !update_fresh_row by done. reflexivity.
Qed.

Lemma createWorkflow_function propertyId workflowType (w : World) name n :
  store_ok w →
  getExecutionPlan workflowType = JsFunction name (S n) →
  createWorkflow propertyId workflowType w =
  (Rejected (PersistenceFailure
               "null value in column node_name violates not-null constraint"),
   grown w (new_workflow w propertyId workflowType Pending None)
         [] 1 [] (activeWorkflows w)).
Proof.
  intros Hok Hplan. unfold createWorkflow.
  rewrite log_and_rethrow_id, await_eq, insert_workflow_eq, await_eq.
  set (row := {| wf_id := workflows_id_seq w |}).
  set (w0 := grown w row [] 0 [] (activeWorkflows w)).
  unfold queueWorkflow. rewrite log_and_rethrow_id, await_eq.
  unfold select_workflow, query.
  pose proof (find_workflow_grown w row [] 0 [] (activeWorkflows w) Hok eq_refl)
    as Hfind.
  unfold find_workflow in Hfind. fold w0 in Hfind.
  destruct (filter _ (workflows w0)) as [|r' l]; [done|].
  injection Hfind as ->. cbv zeta. cbn [wf_name row]. rewrite Hplan.
  cbn [js_length default from_option id].
  unfold for_upto. cbn [seq foldr js_index].
  rewrite await_eq, await_eq. unfold insert_job.
  unfold w0, grown, set_jobs_id_seq, new_workflow, row.
  cbn. by rewrite !app_nil_r, !Nat.add_0_r, Nat.add_1_r.
Qed.

(** ** The invariant of the running system *)

Lemma store_ok_initial : store_ok initial.
Proof.
  split; simpl; try apply NoDup_nil_2; intros ? H; by apply elem_of_nil in H.
Qed.

Lemma system_ok_initial : system_ok initial.
Proof.
  split; [apply store_ok_initial|..]; simpl; intros ? H;
    by apply elem_of_nil in H.
Qed.

Lemma waiting_fresh (w : World) :
  system_ok w →
  Forall (λ m, ¬ workflowId m = workflows_id_seq w) (waiting w ++ active w).
Proof.
  intros Hok. apply Forall_forall. intros m Hm.
  destruct (sys_messages w Hok m Hm) as (r & Hr & Hid).
  apply (ok_wf_seq w (sys_store w Hok)) in Hr. lia.
Qed.

(** A new workflow with its rows and messages joins a well-formed state. *)
Lemma system_ok_grown (w : World) row rows drawn msgs cache :
  system_ok w →
  wf_id row = workflows_id_seq w →
  Forall (λ j, job_workflow_id j = workflows_id_seq w ∧
               jobs_id_seq w ≤ job_id j < jobs_id_seq w + drawn) rows →
  NoDup (job_id <$> rows) →
  StronglySorted lt (job_priority <$> rows) →
  Forall (λ m, workflowId m = workflows_id_seq w) msgs →
  Phase (workflows_id_seq w) (wf_status row) rows msgs [] →
  system_ok (grown w row rows drawn msgs cache).
Proof.
  intros Hok Hid Hrows Hnd Hsorted Hmsgs Hphase.
  pose proof (sys_store w Hok) as Hst.
  pose proof (fresh_workflow_id w Hst) as Hfw.
  pose proof (fresh_workflow_jobs w Hst) as Hfj.
  pose proof (waiting_fresh w Hok) as Hfm.
  apply Forall_app in Hfm as [Hfwait Hfact].
  rewrite Forall_forall in Hrows.
  assert (jobs_of (workflows_id_seq w) (grown w row rows drawn msgs cache) = rows)
    as HJnew.
  { unfold jobs_of, grown. cbn [jobs]. rewrite filter_app.
    rewrite filter_none by done. rewrite filter_all; [done|].
    apply Forall_forall. intros j Hj. by apply Hrows. }
  assert (waiting_of (workflows_id_seq w) (grown w row rows drawn msgs cache)
          = msgs) as HWnew.
  { unfold waiting_of, grown. cbn [waiting]. rewrite filter_app.
    rewrite filter_none by done. by rewrite filter_all. }
  assert (active_of (workflows_id_seq w) (grown w row rows drawn msgs cache)
          = []) as HAnew.
  { unfold active_of, grown. cbn [active]. by rewrite filter_none. }
  assert (∀ wid, wid ≠ workflows_id_seq w →
            jobs_of wid (grown w row rows drawn msgs cache) = jobs_of wid w ∧
            waiting_of wid (grown w row rows drawn msgs cache) = waiting_of wid w ∧
            active_of wid (grown w row rows drawn msgs cache) = active_of wid w)
    as Hframe.
  { intros wid Hwid. unfold jobs_of, waiting_of, active_of, grown.
    cbn [jobs waiting active]. rewrite !filter_app.
    rewrite (filter_none _ rows), (filter_none _ msgs), !app_nil_r; [done|..].
    - eapply Forall_impl; [exact Hmsgs|]. simpl. intros m ->. congruence.
    - apply Forall_forall. intros j Hj. apply Hrows in Hj as [-> _].
      congruence. }
  split.
  - split; unfold grown; cbn [workflows jobs workflows_id_seq jobs_id_seq].
    + rewrite fmap_app. apply NoDup_app. split; [apply Hst|]. split.
      * intros x Hx. simpl. rewrite list_elem_of_singleton, Hid. intros ->.
        apply list_elem_of_fmap in Hx as (r & Hr1 & Hr2).
        rewrite Forall_forall in Hfw. by apply (Hfw r).
      * apply NoDup_singleton.
    + intros r Hr. apply elem_of_app in Hr as [Hr|Hr].
      * apply (ok_wf_seq w Hst) in Hr. lia.
      * apply list_elem_of_singleton in Hr as ->. lia.
    + rewrite fmap_app. apply NoDup_app. split; [apply Hst|]. split; [|done].
      intros x Hx Hx'.
      apply list_elem_of_fmap in Hx as (j & -> & Hj).
      apply list_elem_of_fmap in Hx' as (j' & Hjj' & Hj').
      apply (ok_job_seq w Hst) in Hj. apply Hrows in Hj'. lia.
    + intros j Hj. apply elem_of_app in Hj as [Hj|Hj].
      * apply (ok_job_seq w Hst) in Hj. lia.
      * apply Hrows in Hj. lia.
    + intros j Hj. apply elem_of_app in Hj as [Hj|Hj].
      * destruct (ok_job_fk w Hst j Hj) as (r & Hr & Hrid).
        exists r. split; [|done]. apply elem_of_app. by left.
      * exists row. split; [apply elem_of_app; right; left|].
        apply Hrows in Hj as [-> _]. done.
  - intros m Hm. unfold grown in Hm. cbn [waiting active workflows] in *.
    assert (m ∈ waiting w ++ active w ∨ m ∈ msgs) as [Hm'|Hm'].
    { rewrite !elem_of_app in Hm. rewrite elem_of_app. tauto. }
    + destruct (sys_messages w Hok m Hm') as (r & Hr & Hrid).
      exists r. split; [|done]. unfold grown. cbn [workflows].
      apply elem_of_app. by left.
    + exists row. split; [unfold grown; cbn [workflows];
                          apply elem_of_app; right; left|].
      rewrite Forall_forall in Hmsgs. rewrite (Hmsgs m Hm'). done.
  - intros r Hr. unfold grown in Hr. cbn [workflows] in Hr.
    apply elem_of_app in Hr as [Hr|Hr].
    + assert (wf_id r ≠ workflows_id_seq w) as Hne
        by (rewrite Forall_forall in Hfw; by apply Hfw).
      destruct (Hframe _ Hne) as (-> & _ & _). by apply (sys_priorities w Hok).
    + apply list_elem_of_singleton in Hr as ->. by rewrite Hid, HJnew.
  - intros r Hr. unfold grown in Hr. cbn [workflows] in Hr.
    apply elem_of_app in Hr as [Hr|Hr].
    + assert (wf_id r ≠ workflows_id_seq w) as Hne
        by (rewrite Forall_forall in Hfw; by apply Hfw).
      destruct (Hframe _ Hne) as (-> & -> & ->). by apply (sys_phase w Hok).
    + apply list_elem_of_singleton in Hr as ->.
      by rewrite Hid, HJnew, HWnew, HAnew.
Qed.

Lemma plan_jobs_ids wid t id0 plan :
  job_id <$> plan_jobs wid t id0 plan = seq id0 (length plan).
Proof.
  apply list_eq. intros i. rewrite list_lookup_fmap, plan_jobs_lookup.
  destruct (plan !! i) as [name|] eqn:E; simpl.
  - apply lookup_lt_Some in E. symmetry. rewrite lookup_seq. simpl. lia.
  - apply lookup_ge_None in E. symmetry. apply lookup_ge_None.
    by rewrite length_seq.
Qed.

Lemma plan_jobs_cons wid t id0 n0 plan :
  ∃ rest, plan_jobs wid t id0 (n0 :: plan) = new_job id0 wid n0 1 t :: rest.
Proof.
  unfold plan_jobs. simpl. rewrite Nat.add_0_r. by eexists.
Qed.

(** The three ways [createWorkflow] can end, by the value the resolver
    returns: an array, a value without steps, a function that declares
    parameters. *)
Lemma createWorkflow_cases (workflowType : string) :
  (∃ n0 plan, getExecutionPlan workflowType = JsArray (n0 :: plan)) ∨
  default 0 (js_length (getExecutionPlan workflowType)) = 0 ∨
  (∃ name n, getExecutionPlan workflowType = JsFunction name (S n)).
Proof.
  destruct (getExecutionPlan workflowType) as [|[|n0 plan]|name [|n]|];
    simpl; eauto.
Qed.

Lemma system_ok_createWorkflow propertyId workflowType (w : World) :
  system_ok w → system_ok (after (createWorkflow propertyId workflowType) w).
Proof.
  intros Hok. pose proof (sys_store w Hok) as Hst. unfold after.
  destruct (createWorkflow_cases workflowType)
    as [(n0 & plan & Hplan)|[Hlen|(name & n & Hplan)]].
  - rewrite (createWorkflow_array _ _ _ _ _ Hst Hplan). cbn [snd].
    apply system_ok_grown; try done.
    + apply Forall_forall. intros j Hj. apply plan_jobs_elem in Hj. tauto.
    + rewrite plan_jobs_ids. apply NoDup_seq.
    + rewrite plan_jobs_priorities. apply seq_strongly_sorted.
    + by repeat constructor.
    + destruct (plan_jobs_cons (workflows_id_seq w) (now w) (jobs_id_seq w)
                               n0 plan) as [rest Hrest].
      assert (Forall (λ x, job_status x = Pending) rest) as Hpend.
      { apply Forall_forall. intros j Hj.
        assert (j ∈ plan_jobs (workflows_id_seq w) (now w) (jobs_id_seq w)
                              (n0 :: plan)) as Hj'
          by (rewrite Hrest; by right).
        by apply plan_jobs_elem in Hj' as (_ & ? & _). }
      rewrite Hrest.
      apply (phase_dispatched _ [] (new_job _ _ n0 1 _) rest);
        [apply Forall_nil_2|done|done].
  - rewrite (createWorkflow_no_steps _ _ _ Hst Hlen). cbn [snd].
    apply system_ok_grown; try done; try by constructor.
  - rewrite (createWorkflow_function _ _ _ _ _ Hst Hplan). cbn [snd].
    apply system_ok_grown; try done; try by constructor.
Qed.

(** A transition that rewrites one job row and the row of its workflow, and
    moves messages of that workflow only, keeps the state well formed
    provided the workflow ends in a phase. *)
Lemma system_ok_step (w w' : World) (wid : nat)
    (f : Workflow → Workflow) (g : Job → Job) (j : Job) :
  system_ok w →
  j ∈ jobs w → job_workflow_id j = wid →
  (∀ r, wf_id (f r) = wf_id r) →
  (∀ x, job_id (g x) = job_id x) →
  (∀ x, job_workflow_id (g x) = job_workflow_id x) →
  (∀ x, job_priority (g x) = job_priority x) →
  workflows w' = update_where (λ r, wf_id r = wid) f (workflows w) →
  jobs w' = update_where (λ x, job_id x = job_id j) g (jobs w) →
  workflows_id_seq w' = workflows_id_seq w →
  jobs_id_seq w' = jobs_id_seq w →
  (∀ wid', wid' ≠ wid →
     waiting_of wid' w' = waiting_of wid' w ∧
     active_of wid' w' = active_of wid' w) →
  (∀ m, m ∈ waiting w' ++ active w' →
     m ∈ waiting w ++ active w ∨ workflowId m = wid) →
  (∀ r, r ∈ workflows w → wf_id r = wid →
     Phase wid (wf_status (f r)) (jobs_of wid w')
           (waiting_of wid w') (active_of wid w')) →
  system_ok w'.
Proof.
  intros Hok Hj Hjw Hf Hg1 Hg2 Hg3 HW HJ Hs1 Hs2 Hframe Hmsgs Hphase.
  pose proof (sys_store w Hok) as Hst.
  assert (∀ r', r' ∈ workflows w' →
            ∃ r, r ∈ workflows w ∧
                 r' = if decide (wf_id r = wid) then f r else r) as HWin.
  { intros r' Hr'. rewrite HW in Hr'. by apply elem_of_update_where in Hr'. }
  assert (∀ r, r ∈ workflows w → ∃ r', r' ∈ workflows w' ∧ wf_id r' = wf_id r)
    as HWout.
  { intros r Hr. exists (if decide (wf_id r = wid) then f r else r). split.
    - rewrite HW. apply elem_of_update_where. eauto.
    - by case_decide. }
  assert (∀ x', x' ∈ jobs w' →
            ∃ x, x ∈ jobs w ∧ job_id x' = job_id x ∧
                 job_workflow_id x' = job_workflow_id x) as HJin.
  { intros x' Hx'. rewrite HJ in Hx'.
    apply elem_of_update_where in Hx' as (x & Hx & ->).
    exists x. split; [done|]. by case_decide. }
  assert (∀ wid', jobs_of wid' w' =
            update_where (λ x, job_id x = job_id j) g (jobs_of wid' w)) as HJof.
  { intros wid'. unfold jobs_of. rewrite HJ.
    apply filter_update_where. intros x. by rewrite Hg2. }
  split.
  - split.
    + rewrite HW, update_where_fmap by done. apply Hst.
    + intros r' Hr'. destruct (HWin r' Hr') as (r & Hr & ->).
      rewrite Hs1. apply (ok_wf_seq w Hst) in Hr. by case_decide; rewrite ?Hf.
    + rewrite HJ, update_where_fmap by done. apply Hst.
    + intros x' Hx'. destruct (HJin x' Hx') as (x & Hx & -> & _).
      rewrite Hs2. by apply (ok_job_seq w Hst).
    + intros x' Hx'. destruct (HJin x' Hx') as (x & Hx & _ & ->).
      destruct (ok_job_fk w Hst x Hx) as (r & Hr & <-). by apply HWout.
  - intros m Hm. destruct (Hmsgs m Hm) as [Hm'|Hm'].
    + destruct (sys_messages w Hok m Hm') as (r & Hr & <-). by apply HWout.
    + destruct (ok_job_fk w Hst j Hj) as (r & Hr & Hid).
      rewrite Hm', <- Hjw, <- Hid. by apply HWout.
  - intros r' Hr'. destruct (HWin r' Hr') as (r & Hr & ->).
    assert (wf_id (if decide (wf_id r = wid) then f r else r) = wf_id r)
      as -> by (by case_decide).
    rewrite HJof, update_where_fmap by done.
    by apply (sys_priorities w Hok).
  - intros r' Hr'. destruct (HWin r' Hr') as (r & Hr & ->).
    case_decide as Hwid.
    + rewrite Hf, Hwid. by apply Hphase.
    + destruct (Hframe _ Hwid) as [-> ->].
      unfold jobs_of at 1. rewrite HJ.
      rewrite (jobs_of_update w (wf_id r) g j Hst Hj Hg2).
      rewrite decide_False by congruence.
      by apply (sys_phase w Hok).
Qed.

(** ** [Begin] *)

Lemma fire_Begin (u : StepUnit) (m : Message) (w w' : World) :
  fire u (Begin m) w = Some w' ↔
  ∃ q, waiting w = m :: q ∧ w' = started m q w.
Proof.
  unfold fire. destruct (waiting w) as [|m' q] eqn:E.
  - split; [done|]. by intros (q & ? & _).
  - case_decide as Hm.
    + subst m'. split.
      * intros [= <-]. by exists q.
      * intros (q' & [= <-] & ->). done.
    + split; [done|]. intros (q' & [= <-] & _). done.
Qed.

Lemma Phase_waiting_inv wid s J m ms A :
  Phase wid s J (m :: ms) A →
  ∃ done j rest,
    s = Queued ∧ J = done ++ j :: rest ∧ m = dispatch wid j ∧ ms = [] ∧ A = [] ∧
    Forall (λ x, job_status x = Completed) done ∧ job_status j = Pending ∧
    Forall (λ x, job_status x = Pending) rest.
Proof. inversion 1; subst. by exists done, j, rest. Qed.

Lemma Phase_active_inv wid s J W m ms :
  Phase wid s J W (m :: ms) →
  ∃ done j rest,
    s = Queued ∧ J = done ++ j :: rest ∧ m = dispatch wid j ∧ ms = [] ∧ W = [] ∧
    Forall (λ x, job_status x = Completed) done ∧ job_status j = Running ∧
    Forall (λ x, job_status x = Pending) rest.
Proof. inversion 1; subst. by exists done, j, rest. Qed.

Lemma update_where_same {A} (cond : A → Prop) `{!∀ r, Decision (cond r)}
    (l : list A) :
  update_where cond (λ r, r) l = l.
Proof.
  unfold update_where. induction l as [|x l IH]; [done|].
  rewrite fmap_cons, IH. by case_decide.
Qed.

(** The message at the head of the queue is the one message of its
    workflow, and it names the first pending job of that workflow. *)
Lemma begin_phase (w : World) (m : Message) (q : list Message) :
  system_ok w → waiting w = m :: q →
  ∃ r done j rest,
    r ∈ workflows w ∧ wf_id r = workflowId m ∧ wf_status r = Queued ∧
    jobs_of (workflowId m) w = done ++ j :: rest ∧
    m = dispatch (workflowId m) j ∧
    Forall (λ x, job_status x = Completed) done ∧ job_status j = Pending ∧
    Forall (λ x, job_status x = Pending) rest ∧
    filter (λ x, workflowId x = workflowId m) q = [] ∧
    active_of (workflowId m) w = [].
Proof.
  intros Hok Hq.
  destruct (sys_messages w Hok m) as (r & Hr & Hid).
  { rewrite Hq. left. }
  pose proof (sys_phase w Hok r Hr) as Hph. rewrite Hid in Hph.
  unfold waiting_of in Hph. rewrite Hq, filter_cons_True in Hph by done.
  apply Phase_waiting_inv in Hph
    as (done & j & rest & Hs & HJ & Hm & Hq' & HA & Hd & Hj & Hrest).
  exists r, done, j, rest. repeat (split; [done|]). done.
Qed.

Lemma system_ok_Begin (w : World) (m : Message) (q : list Message) :
  system_ok w → waiting w = m :: q → system_ok (started m q w).
Proof.
  intros Hok Hq. pose proof (sys_store w Hok) as Hst.
  destruct (begin_phase w m q Hok Hq)
    as (r & done & j & rest & Hr & Hid & Hs & HJ & Hm & Hd & Hj & Hrest & Hq' & HA).
  assert (j ∈ jobs w ∧ job_workflow_id j = workflowId m) as [Hjin Hjw].
  { assert (j ∈ jobs_of (workflowId m) w) as Hjj
      by (rewrite HJ; apply elem_of_app; right; left).
    apply jobs_of_elem in Hjj. tauto. }
  assert (jobId m = job_id j) as Hjid by (by rewrite Hm).
  apply (system_ok_step w (started m q w) (workflowId m) (λ r, r)
                        (running_row (now w)) j); try done.
  - unfold started. cbn [workflows]. by rewrite update_where_same.
  - unfold started. cbn [jobs]. by rewrite Hjid.
  - intros wid' Hne. unfold waiting_of, active_of, started.
    cbn [waiting active]. rewrite Hq, filter_cons_False by congruence.
    rewrite filter_app, filter_cons_False by congruence.
    by rewrite filter_nil, app_nil_r.
  - intros m' Hm'. unfold started in Hm'. cbn [waiting active] in Hm'.
    rewrite Hq. rewrite !elem_of_app in Hm'. rewrite elem_of_app, elem_of_cons.
    destruct Hm' as [?|[?|Hm']]; [tauto|tauto|].
    apply list_elem_of_singleton in Hm'. tauto.
  - intros r' Hr' Hid'. cbn beta.
    assert (r' = r) as ->.
    { eapply (fmap_NoDup_inj wf_id); [apply Hst|done|done|congruence]. }
    rewrite Hs.
    assert (jobs_of (workflowId m) (started m q w) =
            done ++ running_row (now w) j :: rest) as ->.
    { unfold jobs_of, started. cbn [jobs]. rewrite Hjid.
      rewrite (jobs_of_update w _ _ j Hst Hjin) by done.
      rewrite decide_True by done. rewrite HJ.
      by apply (update_where_middle w (workflowId m)). }
    assert (waiting_of (workflowId m) (started m q w) = []) as ->
      by (unfold waiting_of, started; by cbn [waiting]).
    assert (active_of (workflowId m) (started m q w) =
            [dispatch (workflowId m) (running_row (now w) j)]) as ->.
    { unfold active_of in *. unfold started. cbn [active].
      rewrite filter_app, HA, filter_cons_True by done.
      rewrite filter_nil. simpl. by rewrite Hm. }
    by apply phase_running.
Qed.

(** ** [Settle] *)

Lemma processJob_end_eq (u : StepUnit) (m : Message) (w : World) :
  processJob_end (run_unit u) m w =
  match u (nodeName m) (workflowId m) w with
  | (Resolved result, t) =>
      (Resolved result,
       after (processNextJob (workflowId m)) (settled_ok m t result w))
  | (Rejected e, t) => (Rejected e, settled_failed m t e w)
  end.
Proof.
  destruct m as [jid wid name]. unfold processJob_end, try_catch.
  rewrite await_eq. unfold run_unit. cbn [jobId workflowId nodeName].
  destruct (u name wid w) as [[result|e] t].
  - rewrite await_eq.
    change (update_job_completed result jid (set_now t w))
      with (Resolved tt, settled_ok {| jobId := jid; workflowId := wid;
                                       nodeName := name |} t result w).
    cbn iota beta. rewrite await_eq. unfold after.
    pose proof (processNextJob_resolves wid
      (settled_ok {| jobId := jid; workflowId := wid; nodeName := name |}
                  t result w)) as Hres.
    unfold outcome in Hres.
    destruct (processNextJob wid _) as [r' w']. simpl in Hres. subst r'.
    reflexivity.
  - reflexivity.
Qed.

Lemma elem_of_retire (m x : Message) (l : list Message) :
  x ∈ retire m l → x ∈ l.
Proof.
  induction l as [|y l IH]; simpl; [done|].
  case_decide as Hy; intros Hx; [by right|].
  apply elem_of_cons in Hx as [->|Hx]; [left|right; by apply IH].
Qed.

Lemma filter_retire_other (P : Message → Prop) `{!∀ x, Decision (P x)}
    (m : Message) (l : list Message) :
  ¬ P m → filter P (retire m l) = filter P l.
Proof.
  intros Hm. induction l as [|y l IH]; simpl; [done|].
  destruct (decide (y = m)) as [->|Hy].
  - by rewrite filter_cons_False.
  - rewrite !filter_cons, IH. done.
Qed.

Lemma filter_retire_only (P : Message → Prop) `{!∀ x, Decision (P x)}
    (m : Message) (l : list Message) :
  filter P l = [m] → filter P (retire m l) = [].
Proof.
  induction l as [|y l IH]; simpl; [done|].
  destruct (decide (y = m)) as [->|Hy].
  - destruct (decide (P m)) as [HP|HP].
    + rewrite filter_cons_True by done. by intros [= ->].
    + rewrite filter_cons_False by done. intros H'. exfalso. apply HP.
      assert (m ∈ filter P l) as Hin by (rewrite H'; left).
      by apply list_elem_of_filter in Hin as [? _].
  - destruct (decide (P y)) as [HP|HP].
    + rewrite filter_cons_True by done. intros [= ? _]. done.
    + rewrite !filter_cons_False by done. apply IH.
Qed.

(** An active message is the one message of its workflow, and it names
    the job of that workflow that is running. *)
Lemma settle_phase (w : World) (m : Message) :
  system_ok w → m ∈ active w →
  ∃ r done j rest,
    r ∈ workflows w ∧ wf_id r = workflowId m ∧ wf_status r = Queued ∧
    jobs_of (workflowId m) w = done ++ j :: rest ∧
    m = dispatch (workflowId m) j ∧
    Forall (λ x, job_status x = Completed) done ∧ job_status j = Running ∧
    Forall (λ x, job_status x = Pending) rest ∧
    waiting_of (workflowId m) w = [] ∧ active_of (workflowId m) w = [m].
Proof.
  intros Hok Hm.
  destruct (sys_messages w Hok m) as (r & Hr & Hid).
  { apply elem_of_app. by right. }
  pose proof (sys_phase w Hok r Hr) as Hph. rewrite Hid in Hph.
  assert (m ∈ active_of (workflowId m) w) as Hin
    by (by apply list_elem_of_filter).
  destruct (active_of (workflowId m) w) as [|m0 ms] eqn:HA.
  { by apply elem_of_nil in Hin. }
  apply Phase_active_inv in Hph
    as (done & j & rest & Hs & HJ & Hm0 & -> & HW & Hd & Hj & Hrest).
  apply list_elem_of_singleton in Hin. subst m0.
  exists r, done, j, rest. rewrite <- Hin. repeat (split; [done|]). done.
Qed.

Lemma rest_sorted (l1 l2 : list Job) (j : Job) :
  StronglySorted lt (job_priority <$> (l1 ++ j :: l2)) →
  Sorted by_priority l2.
Proof.
  rewrite fmap_app, fmap_cons. intros H.
  apply StronglySorted_app_1_r in H.
  apply StronglySorted_inv in H as [H _].
  by apply strict_priorities_sorted.
Qed.

Lemma system_ok_Settle (u : StepUnit) (w : World) (m : Message) :
  system_ok w → m ∈ active w →
  system_ok (set_active (retire m) (after (processJob_end (run_unit u) m) w)).
Proof.
  intros Hok Hact. pose proof (sys_store w Hok) as Hst.
  destruct (settle_phase w m Hok Hact)
    as (r & done & j & rest & Hr & Hid & Hs & HJ & Hm & Hd & Hj & Hrest & HW & HA).
  assert (j ∈ jobs w ∧ job_workflow_id j = workflowId m) as [Hjin Hjw].
  { assert (j ∈ jobs_of (workflowId m) w) as Hjj
      by (rewrite HJ; apply elem_of_app; right; left).
    apply jobs_of_elem in Hjj. tauto. }
  assert (jobId m = job_id j) as Hjid by (by rewrite Hm).
  assert (∀ r', r' ∈ workflows w → wf_id r' = workflowId m → r' = r) as Hruniq.
  { intros r' Hr' Hid'.
    eapply (fmap_NoDup_inj wf_id); [apply Hst|done|done|congruence]. }
  assert (∀ (g : Job → Job) w2,
            (∀ x, job_workflow_id (g x) = job_workflow_id x) →
            jobs w2 = update_where (λ x, job_id x = jobId m) g (jobs w) →
            jobs_of (workflowId m) w2 = done ++ g j :: rest) as HJ'.
  { intros g w2 Hg HJ2. unfold jobs_of. rewrite HJ2, Hjid.
    rewrite (jobs_of_update w _ _ j Hst Hjin) by done.
    rewrite decide_True by done. rewrite HJ.
    by apply (update_where_middle w (workflowId m)). }
  assert (∀ wid' (a : World), wid' ≠ workflowId m → active a = active w →
            active_of wid' (set_active (retire m) a) = active_of wid' w)
    as Hframe_act.
  { intros wid' a Hne Ha. unfold active_of, set_active. cbn [active].
    rewrite Ha. apply filter_retire_other. congruence. }
  assert (∀ (a : World), active a = active w →
            active_of (workflowId m) (set_active (retire m) a) = [])
    as Hretired.
  { intros a Ha. unfold active_of, set_active. cbn [active]. rewrite Ha.
    by apply filter_retire_only. }
  unfold after. rewrite processJob_end_eq.
  destruct (u (nodeName m) (workflowId m) w) as [[result|e] t]; cbn [snd].
  - set (w2 := settled_ok m t result w).
    assert (jobs_of (workflowId m) w2 = done ++ completed_job t result j :: rest)
      as HJ2 by (by apply HJ').
    assert (next_pending (workflowId m) w2 = head rest) as Hnext.
    { rewrite next_pending_jobs_of, HJ2.
      rewrite filter_pending_split by done.
      rewrite order_by_priority_id; [done|].
      pose proof (sys_priorities w Hok r Hr) as Hsorted.
      rewrite Hid, HJ in Hsorted. by eapply rest_sorted. }
    unfold after. rewrite processNextJob_eq, Hnext.
    destruct rest as [|j2 rest2]; cbn [head].
    + rewrite completeWorkflow_eq. cbn [snd].
      apply (system_ok_step w _ (workflowId m) (completed_row t)
                            (completed_job t result) j); try done.
      * by rewrite <- Hjid.
      * intros wid' Hne. split; [done|]. by apply Hframe_act.
      * intros m' Hm'. left. unfold set_active in Hm'.
        cbn [waiting active] in Hm'. rewrite elem_of_app in *.
        destruct Hm' as [?|Hm']; [by left|right]. by eapply elem_of_retire.
      * intros r' Hr' Hid'.
        match goal with |- Phase _ _ (jobs_of _ ?a) _ _ =>
          rewrite (HJ' (completed_job t result) a) by done end.
        rewrite Hretired by done.
        change (waiting_of (workflowId m) _) with (waiting_of (workflowId m) w).
        rewrite HW. cbn [completed_row wf_status].
        apply phase_completed. apply Forall_app. split; [done|].
        by repeat constructor.
    + cbn [snd].
      apply (system_ok_step w _ (workflowId m) (λ r, r)
                            (completed_job t result) j); try done.
      * unfold set_active, set_waiting, w2, settled_ok. cbn [workflows].
        by rewrite update_where_same.
      * by rewrite <- Hjid.
      * intros wid' Hne. split; [|by apply Hframe_act].
        unfold waiting_of, set_active, set_waiting. cbn [waiting].
        rewrite filter_app, filter_cons_False by (simpl; congruence).
        by rewrite filter_nil, app_nil_r.
      * intros m' Hm'. unfold set_active, set_waiting in Hm'.
        cbn [waiting active] in Hm'. rewrite !elem_of_app in Hm'.
        rewrite elem_of_app.
        destruct Hm' as [[?|Hm']|Hm']; [tauto| |].
        -- apply list_elem_of_singleton in Hm' as ->. by right.
        -- left. right. by eapply elem_of_retire.
      * intros r' Hr' Hid'. rewrite (Hruniq r' Hr' Hid'), Hs.
        match goal with |- Phase _ _ (jobs_of _ ?a) _ _ =>
          rewrite (HJ' (completed_job t result) a) by done end.
        rewrite Hretired by done.
        assert (waiting_of (workflowId m)
                  (set_active (retire m)
                     (set_waiting (λ q, q ++ [dispatch (workflowId m) j2]) w2))
                = [dispatch (workflowId m) j2]) as ->.
        { unfold waiting_of in *. unfold set_active, set_waiting.
          cbn [waiting]. rewrite filter_app.
          change (waiting w2) with (waiting w). rewrite HW.
          by rewrite filter_cons_True. }
        apply Forall_cons in Hrest as [Hj2 Hrest2].
        rewrite (cons_middle (completed_job t result j)), (assoc_L (++)).
        apply phase_dispatched; [|done|done].
        apply Forall_app. split; [done|]. by repeat constructor.
  - apply (system_ok_step w _ (workflowId m) (with_status Failed t)
                          (failed_job t (message e)) j); try done.
    + by rewrite <- Hjid.
    + intros wid' Hne. split; [done|]. by apply Hframe_act.
    + intros m' Hm'. left. unfold set_active in Hm'.
      cbn [waiting active] in Hm'. rewrite elem_of_app in *.
      destruct Hm' as [?|Hm']; [by left|right]. by eapply elem_of_retire.
    + intros r' Hr' Hid'.
      assert (jobs_of (workflowId m)
                (set_active (retire m) (settled_failed m t e w)) =
              done ++ failed_job t (message e) j :: rest) as ->
        by (by apply HJ').
      rewrite Hretired by done.
      change (waiting_of (workflowId m) _) with (waiting_of (workflowId m) w).
      rewrite HW. cbn [with_status wf_status]. by apply phase_failed.
Qed.

(** ** Every reachable state is well formed *)

Lemma getWorkflowStatus_after (workflowId : nat) (w : World) :
  after (getWorkflowStatus workflowId) w = w.
Proof.
  unfold after, getWorkflowStatus.
  rewrite log_and_rethrow_id, await_eq. unfold select_workflow, query.
  by destruct (filter _ (workflows w)).
Qed.

Lemma system_ok_set_now (t : nat) (w : World) :
  system_ok w → system_ok (set_now t w).
Proof.
  intros [[H1 H2 H3 H4 H5] H6 H7 H8]. by repeat split.
Qed.

Lemma system_ok_fire (u : StepUnit) (e : Event) (w w' : World) :
  system_ok w → fire u e w = Some w' → system_ok w'.
Proof.
  intros Hok. destruct e as [p ty|wid|m|m|t].
  - intros [= <-]. by apply system_ok_createWorkflow.
  - intros [= <-]. by rewrite getWorkflowStatus_after.
  - intros Hf. apply fire_Begin in Hf as (q & Hq & ->).
    by apply system_ok_Begin.
  - simpl. case_decide; [|done]. intros [= <-]. by apply system_ok_Settle.
  - simpl. case_decide; [|done]. intros [= <-]. by apply system_ok_set_now.
Qed.

Lemma system_ok_run (u : StepUnit) (es : list Event) (w w' : World) :
  system_ok w → run u es w = Some w' → system_ok w'.
Proof.
  revert w. induction es as [|e es IH]; simpl; intros w Hok.
  - by intros [= <-].
  - destruct (fire u e w) as [w1|] eqn:E; [|done].
    apply IH. by eapply system_ok_fire.
Qed.

Lemma reachable_ok (u : StepUnit) (w : World) :
  reachable u w → system_ok w.
Proof.
  intros [es Hes]. eapply system_ok_run; [apply system_ok_initial|done].
Qed.


(** ** The shape of each transition *)

Lemma createWorkflow_grown propertyId workflowType (w : World) :
  store_ok w →
  ∃ row rows drawn msgs cache,
    after (createWorkflow propertyId workflowType) w =
      grown w row rows drawn msgs cache ∧
    wf_id row = workflows_id_seq w ∧
    Forall (λ j, job_workflow_id j = workflows_id_seq w) rows ∧
    Forall (λ m, workflowId m = workflows_id_seq w) msgs.
Proof.
  intros Hst. unfold after.
  destruct (createWorkflow_cases workflowType)
    as [(n0 & plan & Hplan)|[Hlen|(name & n & Hplan)]].
  - rewrite (createWorkflow_array _ _ _ _ _ Hst Hplan). cbn [snd].
    do 5 eexists. split; [reflexivity|]. split; [done|]. split.
    + apply Forall_forall. intros j Hj. by apply plan_jobs_elem in Hj as [? _].
    + by repeat constructor.
  - rewrite (createWorkflow_no_steps _ _ _ Hst Hlen). cbn [snd].
    do 5 eexists. split; [reflexivity|]. by repeat constructor.
  - rewrite (createWorkflow_function _ _ _ _ _ Hst Hplan). cbn [snd].
    do 5 eexists. split; [reflexivity|]. by repeat constructor.
Qed.

Lemma Settle_shape (u : StepUnit) (w : World) (m : Message) :
  system_ok w → m ∈ active w →
  ∃ j (f : Workflow → Workflow) (g : Job → Job) msgs w',
    w' = set_active (retire m) (after (processJob_end (run_unit u) m) w) ∧
    j ∈ jobs w ∧ job_id j = jobId m ∧ job_workflow_id j = workflowId m ∧
    job_status j = Running ∧
    (∀ r, wf_id (f r) = wf_id r ∧
          (wf_status (f r) = wf_status r ∨ terminal (wf_status (f r)))) ∧
    (∀ x, job_id (g x) = job_id x ∧
          job_workflow_id (g x) = job_workflow_id x ∧
          job_priority (g x) = job_priority x ∧
          terminal (job_status (g x))) ∧
    workflows w' = update_where (λ r, wf_id r = workflowId m) f (workflows w) ∧
    jobs w' = update_where (λ x, job_id x = jobId m) g (jobs w) ∧
    waiting w' = waiting w ++ msgs ∧
    Forall (λ x, workflowId x = workflowId m) msgs ∧
    active w' = retire m (active w).
Proof.
  intros Hok Hact.
  destruct (settle_phase w m Hok Hact)
    as (r & done & j & rest & Hr & Hid & Hs & HJ & Hm & Hd & Hj & Hrest & HW & HA).
  assert (j ∈ jobs w ∧ job_workflow_id j = workflowId m) as [Hjin Hjw].
  { assert (j ∈ jobs_of (workflowId m) w) as Hjj
      by (rewrite HJ; apply elem_of_app; right; left).
    apply jobs_of_elem in Hjj. tauto. }
  assert (job_id j = jobId m) as Hjid by (by rewrite Hm).
  exists j. unfold after. rewrite processJob_end_eq.
  destruct (u (nodeName m) (workflowId m) w) as [[result|e] t]; cbn [snd].
  - unfold after. rewrite processNextJob_eq.
    destruct (next_pending _ _) as [j2|]; cbn [snd].
    + exists (λ r, r), (completed_job t result), [dispatch (workflowId m) j2].
      eexists. split; [reflexivity|]. repeat (split; [done|]).
      split; [intros r0; split; [done|by left]|].
      split; [intros x; repeat (split; [done|]); by left|].
      split; [simpl; by rewrite update_where_same|].
      split; [done|]. split; [done|]. split; [|done]. by repeat constructor.
    + exists (completed_row t), (completed_job t result), [].
      eexists. split; [reflexivity|]. repeat (split; [done|]).
      split; [intros r0; split; [done|right; by left]|].
      split; [intros x; repeat (split; [done|]); by left|].
      split; [done|]. split; [done|].
      split; [simpl; by rewrite app_nil_r|]. split; [|done]. constructor.
  - exists (with_status Failed t), (failed_job t (message e)), [].
    eexists. split; [reflexivity|]. repeat (split; [done|]).
    split; [intros r0; split; [done|right; by right]|].
    split; [intros x; repeat (split; [done|]); by right|].
    split; [done|]. split; [done|].
    split; [simpl; by rewrite app_nil_r|]. split; [|done]. constructor.
Qed.




(** ** Workflows that are not queued stay as they are *)

Lemma workflow_row_unique (w : World) (r r' : Workflow) :
  store_ok w → r ∈ workflows w → r' ∈ workflows w → wf_id r = wf_id r' →
  r = r'.
Proof. intros Hst. apply fmap_NoDup_inj, Hst. Qed.




(** ** Job rows never return to [pending] *)

Lemma evolves_refl (j : Job) : evolves j j.
Proof. by repeat split. Qed.

Lemma fire_jobs_evolve (u : StepUnit) (e : Event) (w w' : World) (j : Job) :
  system_ok w → fire u e w = Some w' → j ∈ jobs w →
  ∃ j', j' ∈ jobs w' ∧ evolves j j'.
Proof.
  intros Hok Hfire Hj. pose proof (sys_store w Hok) as Hst.
  destruct e as [p ty|wid0|m|m|t].
  - injection Hfire as <-.
    destruct (createWorkflow_grown p ty w Hst)
      as (row & rows & drawn & msgs & cache & -> & _).
    exists j. split; [|apply evolves_refl].
    unfold grown. cbn [jobs]. apply elem_of_app. by left.
  - injection Hfire as <-. rewrite getWorkflowStatus_after.
    exists j. split; [done|apply evolves_refl].
  - apply fire_Begin in Hfire as (q & Hq & ->).
    exists (if decide (job_id j = jobId m) then running_row (now w) j else j).
    split.
    + unfold started. cbn [jobs]. apply elem_of_update_where. eauto.
    + case_decide; [|apply evolves_refl]. by repeat split.
  - simpl in Hfire. case_decide as Hact; [|done]. injection Hfire as <-.
    destruct (Settle_shape u w m Hok Hact)
      as (j0 & f & g & msgs & w' & <- & _ & _ & _ & _ & _ & Hg & _ & HJ' & _).
    exists (if decide (job_id j = jobId m) then g j else j). split.
    + rewrite HJ'. apply elem_of_update_where. eauto.
    + case_decide; [|apply evolves_refl].
      destruct (Hg j) as (? & ? & ? & Hterm). repeat split; try done.
      intros _. destruct Hterm as [-> | ->]; done.
  - simpl in Hfire. case_decide; [|done]. injection Hfire as <-.
    exists j. split; [done|apply evolves_refl].
Qed.

Lemma run_jobs_evolve (u : StepUnit) (es : list Event) (w w' : World) (j : Job) :
  system_ok w → run u es w = Some w' → j ∈ jobs w →
  ∃ j', j' ∈ jobs w' ∧ evolves j j'.
Proof.
  revert w j. induction es as [|e es IH]; simpl; intros w j Hok Hrun Hj.
  - injection Hrun as <-. exists j. split; [done|apply evolves_refl].
  - destruct (fire u e w) as [w1|] eqn:Hfire; [|done].
    destruct (fire_jobs_evolve u e w w1 j Hok Hfire Hj) as (j1 & Hj1 & E1).
    destruct (IH w1 j1 (system_ok_fire u e w w1 Hok Hfire) Hrun Hj1)
      as (j2 & Hj2 & E2).
    exists j2. split; [done|].
    destruct E1 as (A1 & A2 & A3 & A4), E2 as (B1 & B2 & B3 & B4).
    repeat split; try congruence. auto.
Qed.

(** A job that was begun at some point of a run is not pending at its
    end. *)
Lemma begun_not_pending (u : StepUnit) (es : list Event) (w w' : World)
    (m : Message) :
  system_ok w → run u es w = Some w' → Begin m ∈ es →
  ∃ j, j ∈ jobs w' ∧ job_id j = jobId m ∧
       job_workflow_id j = workflowId m ∧ job_status j ≠ Pending.
Proof.
  revert w. induction es as [|e es IH]; simpl; intros w Hok Hrun Hin.
  - by apply elem_of_nil in Hin.
  - destruct (fire u e w) as [w1|] eqn:Hfire; [|done].
    pose proof (system_ok_fire u e w w1 Hok Hfire) as Hok1.
    apply elem_of_cons in Hin as [<-|Hin]; [|by eapply IH].
    apply fire_Begin in Hfire as (q & Hq & ->).
    destruct (begin_phase w m q Hok Hq)
      as (r & done & j & rest & Hr & Hid & Hs & HJ & Hm & _).
    assert (j ∈ jobs w ∧ job_workflow_id j = workflowId m) as [Hjin Hjw].
    { assert (j ∈ jobs_of (workflowId m) w) as Hjj
        by (rewrite HJ; apply elem_of_app; right; left).
      apply jobs_of_elem in Hjj. tauto. }
    assert (job_id j = jobId m) as Hjid by (by rewrite Hm).
    assert (running_row (now w) j ∈ jobs (started m q w)) as Hrun1.
    { unfold started. cbn [jobs]. apply elem_of_update_where.
      exists j. split; [done|]. by rewrite decide_True. }
    destruct (run_jobs_evolve u es _ w' _ Hok1 Hrun Hrun1)
      as (j' & Hj' & E1 & E2 & E3 & E4).
    exists j'. split; [done|]. simpl in *.
    split; [congruence|]. split; [congruence|]. by apply E4.
Qed.

Lemma split_by_priority (done rest : list Job) (j j' : Job) :
  StronglySorted lt (job_priority <$> (done ++ j :: rest)) →
  j' ∈ done ++ j :: rest →
  (j' ∈ done ∧ job_priority j' < job_priority j) ∨ j' = j ∨
  (j' ∈ rest ∧ job_priority j < job_priority j').
Proof.
  rewrite fmap_app, fmap_cons. intros Hsorted Hin.
  apply elem_of_app in Hin as [Hin|Hin].
  - left. split; [done|].
    eapply (StronglySorted_app_1_elem_of _ _ _ _ _ Hsorted).
    + by apply list_elem_of_fmap_2.
    + left.
  - apply elem_of_cons in Hin as [->|Hin]; [by right; left|].
    right. right. split; [done|].
    apply StronglySorted_app_1_r, StronglySorted_inv in Hsorted as [_ Hall].
    rewrite Forall_forall in Hall. apply Hall. by apply list_elem_of_fmap_2.
Qed.

(** ** A unit that rejects *)


(** [processJob] is its beginning followed by its end. *)
Lemma processJob_split (exec : string → nat → Async NodeResult)
    (m : Message) (w : World) :
  processJob exec m w = processJob_end exec m (after (processJob_begin m) w).
Proof. by destruct m. Qed.

(** ** How workflow rows move *)

Lemma workflow_not_running (w : World) (r : Workflow) :
  system_ok w → r ∈ workflows w → wf_status r ≠ Running.
Proof.
  intros Hok Hr Hs. pose proof (sys_phase w Hok r Hr) as Hph.
  rewrite Hs in Hph. inversion Hph.
Qed.

Lemma advances_same (w w' : World) :
  workflows w' = workflows w → advances w w'.
Proof. intros H i r Hr. exists r. rewrite H. eauto. Qed.

Lemma fire_advances (u : StepUnit) (e : Event) (w w' : World) :
  system_ok w → fire u e w = Some w' → advances w w'.
Proof.
  intros Hok Hfire. pose proof (sys_store w Hok) as Hst.
  destruct e as [p ty|wid0|m|m|t].
  - injection Hfire as <-.
    destruct (createWorkflow_grown p ty w Hst)
      as (row & rows & drawn & msgs & cache & -> & _).
    intros i r Hr. exists r. split; [|by eauto].
    unfold grown. cbn [workflows]. by apply lookup_app_l_Some.
  - injection Hfire as <-. rewrite getWorkflowStatus_after.
    by apply advances_same.
  - apply fire_Begin in Hfire as (q & Hq & ->). by apply advances_same.
  - simpl in Hfire. case_decide as Hact; [|done]. injection Hfire as <-.
    destruct (Settle_shape u w m Hok Hact)
      as (j & f & g & msgs & w' & <- & _ & _ & _ & _ & Hf & _ & HW' & _).
    destruct (settle_phase w m Hok Hact) as (r0 & ? & ? & ? & Hr0 & Hid0 & Hs0 & _).
    intros i r Hr. rewrite HW', update_where_lookup, Hr. simpl.
    eexists. split; [reflexivity|]. case_decide as Hid; [|by eauto].
    destruct (Hf r) as [Hfid Hfs]. split; [done|].
    destruct Hfs as [?|?]; [by left|right]. split; [|done].
    assert (r = r0) as ->; [|done].
    eapply workflow_row_unique; eauto; [|congruence].
    by eapply list_elem_of_lookup_2.
  - simpl in Hfire. case_decide; [|done]. injection Hfire as <-.
    by apply advances_same.
Qed.

Lemma advances_rank (w w' : World) (i : nat) (r : Workflow) :
  advances w w' → workflows w !! i = Some r →
  ∃ r', workflows w' !! i = Some r' ∧ wf_id r' = wf_id r ∧
        rank (wf_status r) ≤ rank (wf_status r') ∧
        (wf_status r ≠ Pending → wf_status r' ≠ Pending) ∧
        (terminal (wf_status r) → wf_status r' = wf_status r).
Proof.
  intros Hadv Hr. destruct (Hadv i r Hr) as (r' & Hr' & Hid & Hs).
  exists r'. split; [done|]. split; [done|].
  destruct Hs as [->|[Hq Ht]].
  - by repeat split.
  - rewrite Hq. split; [destruct Ht as [-> | ->]; simpl; lia|].
    split; [intros _; destruct Ht as [-> | ->]; done|].
    intros [?|?]; congruence.
Qed.

(** ** The placeholder unit *)

Lemma executeNode_placeholder (nodeName : string) (workflowId : nat) :
  executeNode nodeName workflowId = run_unit placeholder nodeName workflowId.
Proof. reflexivity. Qed.

Lemma processJob_executeNode (m : Message) (w : World) :
  processJob executeNode m w =
  (Resolved {| res_nodeName := nodeName m; res_status := "success";
               res_timestamp := now w + 1000 |},
   after (processNextJob (workflowId m))
         (settled_ok m (now w + 1000)
            {| res_nodeName := nodeName m; res_status := "success";
               res_timestamp := now w + 1000 |}
            (after (processJob_begin m) w))).
Proof.
  rewrite processJob_split.
  change (processJob_end executeNode m)
    with (processJob_end (run_unit placeholder) m).
  by rewrite processJob_end_eq.
Qed.

Lemma Forall_update_where {A} (P : A → Prop) (cond : A → Prop)
    `{!∀ r, Decision (cond r)} (f : A → A) (l : list A) :
  (∀ r, P (f r)) → Forall P l → Forall P (update_where cond f l).
Proof.
  intros Hf Hl. apply Forall_forall. intros y Hy.
  apply elem_of_update_where in Hy as (x & Hx & ->).
  case_decide; [apply Hf|]. rewrite Forall_forall in Hl. by apply Hl.
Qed.

Lemma processNextJob_no_failure (workflowId : nat) (w : World) :
  no_failure w → no_failure (after (processNextJob workflowId) w).
Proof.
  intros [HJ HW]. unfold after. rewrite processNextJob_eq.
  destruct (next_pending workflowId w); [by split|].
  rewrite completeWorkflow_eq. split; [done|]. cbn [snd workflows].
  by apply Forall_update_where.
Qed.

Lemma createWorkflow_no_failure propertyId workflowType (w : World) :
  store_ok w → no_failure w →
  no_failure (after (createWorkflow propertyId workflowType) w).
Proof.
  intros Hst [HJ HW]. unfold after.
  destruct (createWorkflow_cases workflowType)
    as [(n0 & plan & Hplan)|[Hlen|(name & n & Hplan)]].
  - rewrite (createWorkflow_array _ _ _ _ _ Hst Hplan). cbn [snd].
    split; unfold grown; cbn [jobs workflows]; apply Forall_app.
    + split; [done|]. apply Forall_forall. intros j Hj.
      apply plan_jobs_elem in Hj as (_ & -> & _). done.
    + split; [done|]. by repeat constructor.
  - rewrite (createWorkflow_no_steps _ _ _ Hst Hlen). cbn [snd].
    split; unfold grown; cbn [jobs workflows]; apply Forall_app.
    + by split.
    + split; [done|]. by repeat constructor.
  - rewrite (createWorkflow_function _ _ _ _ _ Hst Hplan). cbn [snd].
    split; unfold grown; cbn [jobs workflows]; apply Forall_app.
    + by split.
    + split; [done|]. by repeat constructor.
Qed.

Lemma fire_no_failure (e : Event) (w w' : World) :
  system_ok w → no_failure w → fire placeholder e w = Some w' →
  no_failure w'.
Proof.
  intros Hok Hnf Hfire. pose proof (sys_store w Hok) as Hst.
  destruct e as [p ty|wid0|m|m|t].
  - injection Hfire as <-. by apply createWorkflow_no_failure.
  - injection Hfire as <-. by rewrite getWorkflowStatus_after.
  - apply fire_Begin in Hfire as (q & Hq & ->). destruct Hnf as [HJ HW].
    split; [|done]. unfold started. cbn [jobs].
    by apply Forall_update_where.
  - simpl in Hfire. case_decide as Hact; [|done]. injection Hfire as <-.
    unfold after. rewrite processJob_end_eq. cbn [placeholder snd].
    match goal with |- no_failure (set_active _ ?a) =>
      assert (no_failure a) as [HJ HW]; [|by split] end.
    apply processNextJob_no_failure. destruct Hnf as [HJ HW].
    split; [|done]. unfold settled_ok. cbn [jobs].
    by apply Forall_update_where.
  - simpl in Hfire. case_decide; [|done]. by injection Hfire as <-.
Qed.

Lemma run_no_failure (es : list Event) (w w' : World) :
  system_ok w → no_failure w → run placeholder es w = Some w' →
  no_failure w'.
Proof.
  revert w. induction es as [|e es IH]; simpl; intros w Hok Hnf Hrun.
  - by injection Hrun as <-.
  - destruct (fire placeholder e w) as [w1|] eqn:Hfire; [|done].
    eapply IH; [|by eapply fire_no_failure|done].
    by eapply system_ok_fire.
Qed.

(** ** The last job of a workflow *)

(** When the unit resolves for a job and every other job row of the
    workflow is already completed, the end of [processJob] completes the
    job, finds nothing pending and completes the workflow. *)
Lemma last_job_completes_workflow (u : StepUnit) (m : Message) (w : World)
    (result : NodeResult) (t : nat) :
  u (nodeName m) (workflowId m) w = (Resolved result, t) →
  (∀ j, j ∈ jobs w → job_workflow_id j = workflowId m →
        job_id j ≠ jobId m → job_status j = Completed) →
  let w' := after (processJob_end (run_unit u) m) w in
  outcome (processJob_end (run_unit u) m) w = Resolved result ∧
  (∀ j, j ∈ jobs w' → job_workflow_id j = workflowId m →
        job_status j = Completed) ∧
  (∀ r, r ∈ workflows w' → wf_id r = workflowId m →
        wf_status r = Completed ∧ wf_completed_at r = Some t).
Proof.
  intros Hu Hothers w'. unfold w', outcome, after.
  rewrite processJob_end_eq, Hu. cbn [fst snd].
  set (w2 := settled_ok m t result w).
  assert (∀ j, j ∈ jobs w2 → job_workflow_id j = workflowId m →
            job_status j = Completed) as Hall.
  { intros j Hj Hw. unfold w2, settled_ok in Hj. cbn [jobs] in Hj.
    apply elem_of_update_where in Hj as (j0 & Hj0 & ->).
    case_decide as Hid; [done|]. by apply Hothers. }
  assert (next_pending (workflowId m) w2 = None) as Hnone.
  { apply next_pending_None, Forall_forall. intros j Hj Hw.
    by rewrite (Hall j Hj Hw). }
  split; [done|]. unfold after.
  rewrite processNextJob_eq, Hnone, completeWorkflow_eq. cbn [snd jobs workflows].
  split; [done|]. intros r Hr Hid.
  apply elem_of_update_where in Hr as (r0 & Hr0 & ->).
  by case_decide.
Qed.

(** ** Outside the protocol

    The order of execution rests on [queueWorkflow] running once per
    workflow.  Called again while the first job is still waiting, it
    dispatches a job a second time (here the same row, as rows of equal
    priority are read in table order), and the job is then begun twice. *)
Example queueWorkflow_again_dispatches_again :
  waiting (after (queueWorkflow 1)
                 (after (createWorkflow (Some "P1") "test") initial)) =
  [test_message; test_message].
Proof. vm_compute. reflexivity. Qed.

(** * The claims *)

(** ** C1: one job at a time, in ascending priority *)

(** C1.  In every run of the system (workflows created through
    [createWorkflow], each message handed to [processJob] once), whatever
    the step-execution unit does: when a job is about to be marked running,
    it is pending; every job of the same workflow with a smaller priority
    has reached a terminal status, every job with a greater priority is
    still pending and no other job has the same priority, so none of them is
    running; and every job of that workflow that was begun earlier in the
    run has a strictly smaller priority and is terminal. *)
Theorem jobs_run_in_priority_order (u : StepUnit) (es : list Event)
    (w w' : World) (m : Message) :
  run u es initial = Some w →
  fire u (Begin m) w = Some w' →
  ∃ j, j ∈ jobs w ∧ job_id j = jobId m ∧
       job_workflow_id j = workflowId m ∧ job_status j = Pending ∧
       running_row (now w) j ∈ jobs w' ∧
       (∀ j', j' ∈ jobs w → job_workflow_id j' = workflowId m →
          (job_priority j' < job_priority j → terminal (job_status j')) ∧
          (job_priority j' = job_priority j → j' = j) ∧
          (job_priority j < job_priority j' → job_status j' = Pending)) ∧
       (∀ m', Begin m' ∈ es → workflowId m' = workflowId m →
          ∃ j', j' ∈ jobs w ∧ job_id j' = jobId m' ∧
                job_priority j' < job_priority j ∧
                terminal (job_status j')).
Proof.
  intros Hrun Hfire.
  pose proof (system_ok_run u es _ _ system_ok_initial Hrun) as Hok.
  apply fire_Begin in Hfire as (q & Hq & ->).
  destruct (begin_phase w m q Hok Hq)
    as (r & done & j & rest & Hr & Hid & Hs & HJ & Hm & Hd & Hj & Hrest & _).
  assert (j ∈ jobs w ∧ job_workflow_id j = workflowId m) as [Hjin Hjw].
  { assert (j ∈ jobs_of (workflowId m) w) as Hjj
      by (rewrite HJ; apply elem_of_app; right; left).
    apply jobs_of_elem in Hjj. tauto. }
  assert (job_id j = jobId m) as Hjid by (by rewrite Hm).
  pose proof (sys_priorities w Hok r Hr) as Hsorted.
  rewrite Hid, HJ in Hsorted.
  assert (∀ j', j' ∈ jobs w → job_workflow_id j' = workflowId m →
            (j' ∈ done ∧ job_priority j' < job_priority j) ∨ j' = j ∨
            (j' ∈ rest ∧ job_priority j < job_priority j')) as Hsplit.
  { intros j' Hj' Hw'. apply split_by_priority; [done|].
    rewrite <- HJ. by apply jobs_of_elem. }
  rewrite Forall_forall in Hd. rewrite Forall_forall in Hrest.
  exists j. repeat (split; [done|]). split; [|split].
  - unfold started. cbn [jobs]. apply elem_of_update_where.
    exists j. split; [done|]. by rewrite decide_True.
  - intros j' Hj' Hw'.
    destruct (Hsplit j' Hj' Hw') as [[Hin Hlt]|[->|[Hin Hlt]]].
    + split; [intros _; left; by apply Hd|]. split; intros; lia.
    + split; [intros; lia|]. split; [done|intros; lia].
    + split; [intros; lia|]. split; [intros; lia|]. intros _. by apply Hrest.
  - intros m' Hm' Hw'.
    destruct (begun_not_pending u es _ w m' system_ok_initial Hrun Hm')
      as (j' & Hj' & Hid' & Hjw' & Hst').
    exists j'. split; [done|]. split; [done|].
    destruct (Hsplit j' Hj' ltac:(congruence)) as [[Hin Hlt]|[->|[Hin Hlt]]].
    + split; [done|]. left. by apply Hd.
    + done.
    + exfalso. apply Hst'. by apply Hrest.
Qed.

Lemma jobs_run_in_priority_order_witness :
  run placeholder listing_run initial = Some listing_state ∧
  fire placeholder (Begin second_message) listing_state =
    Some listing_state_begun ∧
  ∃ j, j ∈ jobs listing_state ∧ job_id j = jobId second_message ∧
       job_workflow_id j = workflowId second_message ∧
       job_status j = Pending ∧
       running_row (now listing_state) j ∈ jobs listing_state_begun ∧
       (∀ j', j' ∈ jobs listing_state →
          job_workflow_id j' = workflowId second_message →
          (job_priority j' < job_priority j → terminal (job_status j')) ∧
          (job_priority j' = job_priority j → j' = j) ∧
          (job_priority j < job_priority j' → job_status j' = Pending)) ∧
       (∀ m', Begin m' ∈ listing_run →
          workflowId m' = workflowId second_message →
          ∃ j', j' ∈ jobs listing_state ∧ job_id j' = jobId m' ∧
                job_priority j' < job_priority j ∧
                terminal (job_status j')).
Proof.
  split; [vm_compute; reflexivity|]. split; [vm_compute; reflexivity|].
  apply (jobs_run_in_priority_order placeholder listing_run listing_state
           listing_state_begun second_message); vm_compute; reflexivity.
Defined.

(** ** C2: a failing step halts its workflow *)




(** ** C3: a workflow whose jobs are all completed *)

(** C3.  When every job row of a workflow is [Completed],
    [processNextJob] finds no pending row, does what [completeWorkflow]
    does and resolves; afterwards every row of that workflow in the
    workflows table is [Completed] with [completed_at] set to the current
    time, no row is added or removed, and the workflow is not among the
    active workflows of the orchestrator. *)
Theorem all_completed_completes_workflow (workflowId : nat) (w : World) :
  Forall (λ j, job_workflow_id j = workflowId → job_status j = Completed)
         (jobs w) →
  let w' := after (processNextJob workflowId) w in
  next_pending workflowId w = None ∧
  processNextJob workflowId w = completeWorkflow workflowId w ∧
  outcome (processNextJob workflowId) w = Resolved tt ∧
  wf_id <$> workflows w' = wf_id <$> workflows w ∧
  (∀ r, r ∈ workflows w' → wf_id r = workflowId →
     wf_status r = Completed ∧ wf_completed_at r = Some (now w)) ∧
  workflowId ∉ activeWorkflows w'.
Proof.
  intros Hall w'.
  assert (next_pending workflowId w = None) as Hnone.
  { apply next_pending_None. eapply Forall_impl; [exact Hall|].
    simpl. intros j Hj Hw. by rewrite Hj. }
  assert (processNextJob workflowId w = completeWorkflow workflowId w) as Heq
    by (by rewrite processNextJob_eq, Hnone).
  split; [done|]. split; [done|]. split; [apply processNextJob_resolves|].
  unfold w', after. rewrite Heq, completeWorkflow_eq. cbn [snd workflows
    activeWorkflows].
  split; [by apply update_where_fmap|]. split.
  - intros r Hr Hid. apply elem_of_update_where in Hr as (r0 & Hr0 & ->).
    case_decide as Hid0; [done|]. done.
  - intros Hin. apply elem_of_difference in Hin as [_ Hin].
    apply Hin. by apply elem_of_singleton.
Qed.

Lemma all_completed_completes_workflow_witness :
  let w := after (update_job_completed
                    {| res_nodeName := "test_node"; res_status := "success";
                       res_timestamp := 1000 |} 1)
                 (after (createWorkflow (Some "P1") "test") initial) in
  Forall (λ j, job_workflow_id j = 1 → job_status j = Completed) (jobs w) ∧
  wf_status <$> workflows (after (processNextJob 1) w) = [Completed] ∧
  wf_completed_at <$> workflows (after (processNextJob 1) w) = [Some 0].
Proof.
  intros w.
  assert (Forall (λ j, job_workflow_id j = 1 → job_status j = Completed)
                 (jobs w)) as Hall by (vm_compute; by repeat constructor).
  split; [exact Hall|].
  destruct (all_completed_completes_workflow 1 w Hall) as (_ & Heq & _).
  unfold after. rewrite Heq. split; vm_compute; reflexivity.
Defined.

(** ** C4: [createWorkflow] inserts the plan *)

(** C4.  In a well-formed store, for a workflow type whose execution plan
    is an array of [N] steps, and within the limits of the columns (the
    type and the property reference fit [VARCHAR(255)], the ids to be
    drawn fit [int4]), [createWorkflow] resolves to the id drawn from the
    sequence and appends exactly [N] job rows, which are all the job rows
    of the new workflow: the [i]-th has the [i]-th step as [node_name],
    priority [i + 1] and status [Pending], so the priorities are [1 .. N]
    in plan order; the workflow row ends at status [Queued].
    [queueWorkflow] rejects with NotFound, changing nothing, when the id
    fits [int4] and no workflow row has it. *)
Theorem createWorkflow_inserts_plan (w : World) (propertyId : option string)
    (workflowType : string) (plan : list string) :
  store_ok w →
  getExecutionPlan workflowType = JsArray plan →
  varchar255 workflowType → from_option varchar255 True propertyId →
  int4 (workflows_id_seq w) → int4 (jobs_id_seq w + length plan) →
  let wid := workflows_id_seq w in
  let w' := after (createWorkflow propertyId workflowType) w in
  outcome (createWorkflow propertyId workflowType) w = Resolved wid ∧
  jobs w' = jobs w ++ plan_jobs wid (now w) (jobs_id_seq w) plan ∧
  jobs_of wid w' = plan_jobs wid (now w) (jobs_id_seq w) plan ∧
  length (jobs_of wid w') = length plan ∧
  (∀ i name, plan !! i = Some name →
     ∃ j, jobs_of wid w' !! i = Some j ∧ job_node_name j = name ∧
          job_priority j = i + 1 ∧ job_status j = Pending) ∧
  job_priority <$> jobs_of wid w' = seq 1 (length plan) ∧
  (∃ r, find_workflow wid w' = Some r ∧ wf_name r = workflowType ∧
        wf_status r = Queued) ∧
  (∀ w0 id, int4 id → (∀ r, r ∈ workflows w0 → wf_id r ≠ id) →
     queueWorkflow id w0 = (Rejected (NotFound id), w0)).
Proof.
  intros Hst Hplan _ _ _ _ wid w'.
  destruct plan as [|n0 plan].
  { by apply getExecutionPlan_array_nonempty in Hplan. }
  pose proof (createWorkflow_array propertyId _ _ _ _ Hst Hplan) as Hcreate.
  assert (jobs_of wid w' = plan_jobs wid (now w) (jobs_id_seq w) (n0 :: plan))
    as HJ.
  { unfold w', after, jobs_of. rewrite Hcreate. unfold grown. cbn [snd jobs].
    rewrite filter_app, plan_jobs_filter.
    by rewrite filter_none by apply (fresh_workflow_jobs _ Hst). }
  split; [unfold outcome; by rewrite Hcreate|].
  split; [unfold w', after; by rewrite Hcreate|].
  split; [done|]. rewrite HJ.
  split; [apply plan_jobs_length|]. split; [|split; [|split]].
  - intros i name Hi. rewrite plan_jobs_lookup, Hi. simpl.
    eexists. by split.
  - apply plan_jobs_priorities.
  - unfold w', wid, after. rewrite Hcreate. cbn [snd].
    rewrite find_workflow_grown by done. eexists. by split.
  - intros w0 id _ Hno. apply queueWorkflow_not_found.
    by apply find_workflow_None.
Qed.

Lemma createWorkflow_inserts_plan_witness :
  store_ok initial ∧
  getExecutionPlan "full_listing" = JsArray full_listing_plan ∧
  varchar255 "full_listing" ∧ varchar255 "P1" ∧
  int4 (workflows_id_seq initial) ∧
  int4 (jobs_id_seq initial + length full_listing_plan) ∧
  length (jobs_of 1 (after (createWorkflow (Some "P1") "full_listing") initial))
    = 10 ∧
  job_priority <$>
    jobs_of 1 (after (createWorkflow (Some "P1") "full_listing") initial)
    = [1; 2; 3; 4; 5; 6; 7; 8; 9; 10].
Proof.
  assert (store_ok initial) as Hst.
  { split; simpl; try apply NoDup_nil_2; intros ? H;
      by apply elem_of_nil in H. }
  assert (varchar255 "full_listing") as Hname
    by (split; [simpl; lia|by repeat constructor]).
  assert (varchar255 "P1") as Hprop
    by (split; [simpl; lia|by repeat constructor]).
  assert (int4 (workflows_id_seq initial)) as Hwid
    by (unfold int4; simpl; lia).
  assert (int4 (jobs_id_seq initial + length full_listing_plan)) as Hjid
    by (unfold int4; simpl; lia).
  split; [exact Hst|]. split; [reflexivity|].
  split; [exact Hname|]. split; [exact Hprop|].
  split; [exact Hwid|]. split; [exact Hjid|].
  destruct (createWorkflow_inserts_plan initial (Some "P1") "full_listing"
              full_listing_plan Hst eq_refl Hname Hprop Hwid Hjid)
    as (_ & _ & _ & Hlen & _ & Hprio & _).
  split; [exact Hlen|exact Hprio].
Defined.

(** ** C5: the execution-plan resolver *)

(** C5.  The claim that every label resolves to a non-empty plan, and every
    unrecognized label to the [test] plan, fails on the labels that name an
    inherited property: for ["constructor"] the property read finds the
    [Object] function on the prototype chain, which is truthy, so the
    fallback is not taken and no array is returned; the function is not a
    key of [plans].  [createWorkflow] with that label then rejects, having
    inserted the workflow row and no job. *)
Theorem getExecutionPlan_constructor :
  plans !! "constructor" = None ∧
  getExecutionPlan "constructor" = JsFunction "Object" 1 ∧
  getExecutionPlan "constructor" ≠ JsArray test_plan ∧
  (∀ plan, getExecutionPlan "constructor" ≠ JsArray plan) ∧
  outcome (createWorkflow (Some "P1") "constructor") initial =
    Rejected (PersistenceFailure
                "null value in column node_name violates not-null constraint") ∧
  jobs (after (createWorkflow (Some "P1") "constructor") initial) = [] ∧
  wf_status <$> workflows (after (createWorkflow (Some "P1") "constructor") initial)
    = [Pending].
Proof.
  assert (getExecutionPlan "constructor" = JsFunction "Object" 1) as E
    by reflexivity.
  split; [reflexivity|]. split; [exact E|]. rewrite E.
  split; [congruence|]. split; [congruence|].
  split; [reflexivity|]. split; reflexivity.
Qed.

(** ** C6: no workflow returns to [pending] *)

(** C6.  None of [queueWorkflow], [processJob], [completeWorkflow] (nor
    [processNextJob] and [createWorkflow]) writes [Pending] to a workflow
    row that exists: from any state, every row is afterwards at the same
    place with the same id, unchanged or at a status other than [Pending].
    And along every transition of a run a workflow row's place in the chain
    pending, queued, running, completed or failed never decreases: a row
    that has left [Pending] is not [Pending] afterwards, and a completed or
    failed row keeps its status. *)
Theorem workflow_status_monotonic :
  (∀ workflowId, keeps no_pending_write (queueWorkflow workflowId)) ∧
  (∀ u bullJob, keeps no_pending_write (processJob (run_unit u) bullJob)) ∧
  (∀ workflowId, keeps no_pending_write (completeWorkflow workflowId)) ∧
  (∀ workflowId, keeps no_pending_write (processNextJob workflowId)) ∧
  (∀ propertyId workflowType,
     keeps no_pending_write (createWorkflow propertyId workflowType)) ∧
  (∀ u es e w w' i r,
     run u es initial = Some w → fire u e w = Some w' →
     workflows w !! i = Some r →
     ∃ r', workflows w' !! i = Some r' ∧ wf_id r' = wf_id r ∧
           rank (wf_status r) ≤ rank (wf_status r') ∧
           (wf_status r ≠ Pending → wf_status r' ≠ Pending) ∧
           (terminal (wf_status r) → wf_status r' = wf_status r)).
Proof.
  split; [apply keeps_queueWorkflow|]. split; [apply keeps_processJob|].
  split; [apply keeps_completeWorkflow|]. split; [apply keeps_processNextJob|].
  split; [apply keeps_createWorkflow|].
  intros u es e w w' i r Hrun Hfire Hr.
  pose proof (system_ok_run u es _ _ system_ok_initial Hrun) as Hok.
  eapply advances_rank; [|done]. by eapply fire_advances.
Qed.

Lemma workflow_status_monotonic_witness :
  run placeholder [CreateWorkflow (Some "P1") "test"; Begin test_message]
      initial ≠ None ∧
  ∃ r', workflows test_state !! 0 = Some r' ∧ wf_id r' = 1 ∧
        rank Queued ≤ rank (wf_status r').
Proof.
  split; [by vm_compute|].
  destruct workflow_status_monotonic as (_ & _ & _ & _ & _ & H).
  destruct (run placeholder [CreateWorkflow (Some "P1") "test";
                             Begin test_message] initial) as [w|] eqn:Hrun;
    [|by vm_compute in Hrun].
  assert (fire placeholder (Settle test_message) w = Some test_state) as Hfire.
  { vm_compute in Hrun. injection Hrun as <-. vm_compute. reflexivity. }
  assert (∃ r, workflows w !! 0 = Some r ∧ wf_id r = 1 ∧ wf_status r = Queued)
    as (r & Hr & Hid & Hs).
  { vm_compute in Hrun. injection Hrun as <-. eexists.
    split; [reflexivity|]. by split. }
  destruct (H placeholder _ _ w test_state 0 r Hrun Hfire Hr)
    as (r' & Hr' & Hid' & Hrank & _).
  exists r'. split; [done|]. split; [congruence|]. by rewrite <- Hs.
Defined.

(** ** C7: the status [running] of a workflow *)

(** C7, the claim as stated.  A [test] workflow runs to [Completed] and at
    no point of the run is a workflow row at status [Running]: the code
    never writes that status to the workflows table. *)
Lemma workflow_completes_without_running :
  run placeholder test_run initial = Some test_state ∧
  (∃ r, r ∈ workflows test_state ∧ wf_id r = 1 ∧ wf_status r = Completed) ∧
  ¬ was_running placeholder test_run 1.
Proof.
  split; [vm_compute; reflexivity|]. split.
  - eexists. split; [vm_compute; left|]. by split.
  - intros (n & w & r & Hrun & Hr & _ & Hs).
    eapply workflow_not_running; [|exact Hr|exact Hs].
    by eapply system_ok_run; [apply system_ok_initial|].
Qed.

(** C7, amended.  In every state of every run a workflow row is [Pending],
    [Queued], [Completed] or [Failed], never [Running]; and along every
    transition a row keeps its status or moves from [Queued] to
    [Completed] or [Failed].  (The move from [Pending] to [Queued] happens
    inside [createWorkflow], before the new row is first seen.) *)
Theorem workflow_never_running (u : StepUnit) (es : list Event) (w : World) :
  run u es initial = Some w →
  (∀ r, r ∈ workflows w → wf_status r ≠ Running) ∧
  (∀ e w', fire u e w = Some w' → advances w w').
Proof.
  intros Hrun.
  pose proof (system_ok_run u es _ _ system_ok_initial Hrun) as Hok. split.
  - intros r Hr. by eapply workflow_not_running.
  - intros e w' Hfire. by eapply fire_advances.
Qed.

Lemma workflow_never_running_witness :
  run placeholder test_run initial = Some test_state ∧
  (∀ r, r ∈ workflows test_state → wf_status r ≠ Running).
Proof.
  split; [vm_compute; reflexivity|].
  apply (workflow_never_running placeholder test_run test_state).
  vm_compute; reflexivity.
Defined.

(** ** C8: [queueWorkflow] is not idempotent *)

(** C8.  For a workflow that exists and whose plan is an array of [N]
    steps, [queueWorkflow] called twice resolves twice and appends the
    [N] job rows of the plan twice: the workflow has [N] more job rows
    after the first call and [2 × N] more after the second. *)
Theorem queueWorkflow_twice_duplicates (workflowId : nat) (w : World)
    (r : Workflow) (plan : list string) :
  find_workflow workflowId w = Some r →
  getExecutionPlan (wf_name r) = JsArray plan →
  let w1 := after (queueWorkflow workflowId) w in
  let w2 := after (queueWorkflow workflowId) w1 in
  outcome (queueWorkflow workflowId) w = Resolved tt ∧
  outcome (queueWorkflow workflowId) w1 = Resolved tt ∧
  jobs w2 = jobs w ++
            plan_jobs workflowId (now w) (jobs_id_seq w) plan ++
            plan_jobs workflowId (now w) (jobs_id_seq w + length plan) plan ∧
  length (jobs_of workflowId w1) = length (jobs_of workflowId w) + length plan ∧
  length (jobs_of workflowId w2) =
    length (jobs_of workflowId w) + 2 * length plan.
Proof.
  intros Hr Hplan w1 w2.
  destruct (queueWorkflow_found workflowId w r plan Hr Hplan)
    as (Hout1 & HJ1 & Hnow1 & Hseq1 & r1 & Hr1 & Hname1).
  fold w1 in HJ1, Hnow1, Hseq1, Hr1.
  rewrite <- Hname1 in Hplan.
  destruct (queueWorkflow_found workflowId w1 r1 plan Hr1 Hplan)
    as (Hout2 & HJ2 & _).
  fold w2 in HJ2. rewrite HJ1, Hnow1, Hseq1, <- (assoc_L (++)) in HJ2.
  repeat (split; [done|]). unfold jobs_of. rewrite HJ2, HJ1.
  rewrite !filter_app, !plan_jobs_filter, !length_app, !plan_jobs_length.
  lia.
Qed.

Lemma queueWorkflow_twice_duplicates_witness :
  let w := after (createWorkflow (Some "P1") "test") initial in
  length (jobs_of 1 w) = 1 ∧
  length (jobs_of 1 (after (queueWorkflow 1) (after (queueWorkflow 1) w))) =
    1 + 2 * length test_plan.
Proof.
  intros w. split; [vm_compute; reflexivity|].
  change 1 with (length (jobs_of 1 w)) at 3.
  eapply (queueWorkflow_twice_duplicates 1 w _ test_plan);
    vm_compute; reflexivity.
Defined.

(** ** C9: [getWorkflowStatus] *)

(** C9.  For an id within [int4], [getWorkflowStatus] leaves the state as
    it is; it rejects with NotFound when no workflow row has the id, and
    otherwise resolves to the row together with all job rows of the
    workflow in ascending priority. *)
Theorem getWorkflowStatus_spec (workflowId : nat) (w : World) :
  int4 workflowId →
  after (getWorkflowStatus workflowId) w = w ∧
  match find_workflow workflowId w with
  | None =>
      (∀ r, r ∈ workflows w → wf_id r ≠ workflowId) ∧
      outcome (getWorkflowStatus workflowId) w = Rejected (NotFound workflowId)
  | Some r =>
      r ∈ workflows w ∧ wf_id r = workflowId ∧
      ∃ rows, outcome (getWorkflowStatus workflowId) w = Resolved (r, rows) ∧
              rows ≡ₚ jobs_of workflowId w ∧
              Sorted by_priority rows
  end.
Proof.
  intros _. unfold after, outcome, getWorkflowStatus.
  rewrite log_and_rethrow_id, await_eq. unfold select_workflow, query.
  destruct (find_workflow workflowId w) as [r|] eqn:E.
  - pose proof (find_workflow_Some _ _ _ E) as [Hin Hid].
    unfold find_workflow in E.
    destruct (filter _ (workflows w)) as [|r' l]; [done|]. injection E as ->.
    split; [reflexivity|]. split; [done|]. split; [done|].
    eexists. split; [reflexivity|]. split.
    + apply order_by_priority_perm.
    + apply order_by_priority_sorted.
  - pose proof (proj1 (find_workflow_None _ _) E) as Hno.
    unfold find_workflow in E.
    destruct (filter _ (workflows w)) as [|r' l]; [|done].
    split; [reflexivity|]. split; [done|]. reflexivity.
Qed.

Lemma getWorkflowStatus_spec_witness :
  int4 1 ∧ int4 7 ∧
  after (getWorkflowStatus 1) test_state = test_state ∧
  outcome (getWorkflowStatus 7) test_state = Rejected (NotFound 7) ∧
  ∃ r rows, outcome (getWorkflowStatus 1) test_state = Resolved (r, rows) ∧
            wf_status r = Completed ∧ Sorted by_priority rows.
Proof.
  assert (int4 1) as H1 by (unfold int4; lia).
  assert (int4 7) as H7 by (unfold int4; lia).
  split; [exact H1|]. split; [exact H7|].
  destruct (getWorkflowStatus_spec 1 test_state H1) as [Hsame Hfound].
  destruct (getWorkflowStatus_spec 7 test_state H7) as [_ Hnone].
  split; [exact Hsame|].
  assert (find_workflow 7 test_state = None) as E7 by (vm_compute; reflexivity).
  rewrite E7 in Hnone. split; [apply Hnone|].
  destruct (find_workflow 1 test_state) as [r|] eqn:E1;
    [|vm_compute in E1; discriminate].
  destruct Hfound as (_ & _ & rows & Hout & _ & Hsorted).
  exists r, rows. split; [exact Hout|]. split; [|exact Hsorted].
  vm_compute in E1. by injection E1 as <-.
Defined.

(** ** C10: the placeholder unit never fails *)

Lemma processJob_on_jobQueue_add (exec : string → nat → Async NodeResult)
    (m : Message) :
  processJob_on jobQueue_add exec m = processJob exec m.
Proof. by destruct m. Qed.

Lemma accepts_jobQueue_add : accepts jobQueue_add.
Proof. intros data w. by eexists. Qed.

Lemma processNextJob_on_eq (add : Message → Async unit) (workflowId : nat)
    (w : World) :
  processNextJob_on add workflowId w =
  match next_pending workflowId w with
  | None => completeWorkflow workflowId w
  | Some job => add (dispatch workflowId job) w
  end.
Proof.
  unfold processNextJob_on. rewrite log_and_rethrow_id, await_eq.
  unfold select_next_pending, query, next_pending.
  destruct (order_by_priority _) as [|job l]; reflexivity.
Qed.

Lemma processJob_on_executeNode (add : Message → Async unit) (m : Message)
    (w : World) :
  accepts add →
  let result := {| res_nodeName := nodeName m; res_status := "success";
                   res_timestamp := now w + 1000 |} in
  let w1 := settled_ok m (now w + 1000) result (after (processJob_begin m) w) in
  ∃ w2,
    processJob_on add executeNode m w = (Resolved result, w2) ∧
    jobs w2 = jobs w1 ∧
    (workflows w2 = workflows w ∨
     workflows w2 = update_where (λ r, wf_id r = workflowId m)
                                 (completed_row (now w + 1000)) (workflows w)).
Proof.
  intros Hadd result w1.
  assert (∃ w2, processNextJob_on add (workflowId m) w1 = (Resolved tt, w2) ∧
                jobs w2 = jobs w1 ∧
                (workflows w2 = workflows w ∨
                 workflows w2 =
                   update_where (λ r, wf_id r = workflowId m)
                                (completed_row (now w + 1000)) (workflows w)))
    as (w2 & H2 & HJ & HW).
  { rewrite processNextJob_on_eq. destruct (next_pending _ _) as [job|].
    - destruct (Hadd (dispatch (workflowId m) job) w1) as (w2 & -> & ? & Hw).
      exists w2. split; [done|]. split; [done|]. left. by rewrite Hw.
    - rewrite completeWorkflow_eq. eexists. split; [done|].
      split; [done|]. by right. }
  exists w2. split; [|by split].
  destruct m as [jid wid name]. unfold processJob_on, try_catch.
  match goal with
  | |- context [match ?body w with _ => _ end] =>
      change (body w)
        with ((processNextJob_on add wid;; mret result) w1)
  end.
  rewrite await_eq. cbn [workflowId] in H2. by rewrite H2.
Qed.

(** C10, the claim as stated.  With every store write succeeding, a queue
    that refuses the next job makes [processJob] take its failure branch
    under the placeholder: [processNextJob] is awaited inside the [try],
    so the job that has just been completed, result stored, is marked
    [Failed] with the message of the queue, and so is its workflow. *)
Lemma refused_add_fails_completed_job :
  let w := after (createWorkflow (Some "P1") "full_listing") initial in
  let w' := after (processJob_on refusing_add executeNode first_message) w in
  outcome (executeNode (nodeName first_message) (workflowId first_message))
          (after (processJob_begin first_message) w) =
    Resolved {| res_nodeName := "mls_data_ingester"; res_status := "success";
                res_timestamp := 1000 |} ∧
  outcome (processJob_on refusing_add executeNode first_message) w =
    Rejected (QueueFailure "Connection is closed.") ∧
  (∃ j, jobs w' !! 0 = Some j ∧ job_id j = jobId first_message ∧
        job_status j = Failed ∧ is_Some (job_result j) ∧
        job_error j = Some "Connection is closed.") ∧
  wf_status <$> workflows w' = [Failed].
Proof.
  split; [vm_compute; reflexivity|]. split; [vm_compute; reflexivity|].
  split; [|vm_compute; reflexivity].
  eexists. split; [vm_compute; reflexivity|]. vm_compute.
  repeat split. by eexists.
Qed.

(** C10, amended.  [executeNode] resolves, for every step name, workflow
    id and state, to [{nodeName, status: 'success', timestamp}] with the
    given name, one second later, and touches nothing else.  Hence, when
    the store writes and the queue adds succeed, [processJob] as shipped
    always resolves to that result and leaves the job it was given
    completed with the result stored; it marks no job and no workflow
    failed (a row that is [Failed] afterwards was there, as it is,
    before): so it is with [jobQueue_add], which accepts every job, and
    with every [add] that succeeds.  And in every run
    under the placeholder no job row and no workflow row is ever
    [Failed], and every active message can settle, leaving its job
    [Completed]. *)
Theorem placeholder_never_fails :
  (∀ nodeName workflowId w,
     executeNode nodeName workflowId w =
     (Resolved {| res_nodeName := nodeName; res_status := "success";
                  res_timestamp := now w + 1000 |},
      set_now (now w + 1000) w)) ∧
  (∀ bullJob w,
     let w' := after (processJob executeNode bullJob) w in
     ∃ result,
       outcome (processJob executeNode bullJob) w = Resolved result ∧
       res_nodeName result = nodeName bullJob ∧
       res_status result = "success" ∧
       (∀ j, j ∈ jobs w' → job_id j = jobId bullJob →
          job_status j = Completed ∧ job_result j = Some result) ∧
       (∀ j, j ∈ jobs w' → job_status j = Failed → j ∈ jobs w) ∧
       (∀ r, r ∈ workflows w' → wf_status r = Failed → r ∈ workflows w)) ∧
  (∀ add, accepts add → ∀ bullJob w,
     let w' := after (processJob_on add executeNode bullJob) w in
     ∃ result,
       outcome (processJob_on add executeNode bullJob) w = Resolved result ∧
       res_nodeName result = nodeName bullJob ∧
       res_status result = "success" ∧
       (∀ j, j ∈ jobs w' → job_id j = jobId bullJob →
          job_status j = Completed ∧ job_result j = Some result) ∧
       (∀ j, j ∈ jobs w' → job_status j = Failed → j ∈ jobs w) ∧
       (∀ r, r ∈ workflows w' → wf_status r = Failed → r ∈ workflows w)) ∧
  (∀ es w,
     run placeholder es initial = Some w →
     no_failure w ∧
     ∀ m, m ∈ active w →
       ∃ w', fire placeholder (Settle m) w = Some w' ∧
             ∀ j, j ∈ jobs w' → job_id j = jobId m → job_status j = Completed).
Proof.
  split; [reflexivity|]. split; [|split].
  - intros m w w'. unfold w', after, outcome.
    rewrite processJob_executeNode. cbn [fst snd].
    eexists. split; [reflexivity|]. split; [done|]. split; [done|].
    fold (after (processNextJob (workflowId m))
            (settled_ok m (now w + 1000)
               {| res_nodeName := nodeName m; res_status := "success";
                  res_timestamp := now w + 1000 |}
               (after (processJob_begin m) w))).
    rewrite processNextJob_jobs. unfold settled_ok at 1 2. cbn [jobs].
    split; [|split].
    + intros j Hj Hid. apply elem_of_update_where in Hj as (j0 & Hj0 & ->).
      case_decide as Hid0; [done|].
      apply elem_of_update_where in Hj0 as (j1 & Hj1 & ->).
      exfalso. apply Hid0. by case_decide.
    + intros j Hj Hs. apply elem_of_update_where in Hj as (j0 & Hj0 & ->).
      case_decide as Hid0; [done|].
      apply elem_of_update_where in Hj0 as (j1 & Hj1 & ->).
      by case_decide.
    + intros r Hr Hs. unfold after in Hr. rewrite processNextJob_eq in Hr.
      destruct (next_pending _ _); [done|].
      rewrite completeWorkflow_eq in Hr. cbn [snd workflows] in Hr.
      apply elem_of_update_where in Hr as (r0 & Hr0 & ->).
      by case_decide.
  - intros add Hadd m w w'.
    destruct (processJob_on_executeNode add m w Hadd) as (w2 & Hrun & HJ & HW).
    unfold w', after, outcome. rewrite Hrun. cbn [fst snd].
    eexists. split; [reflexivity|]. split; [done|]. split; [done|].
    rewrite HJ. unfold settled_ok, after, processJob_begin. cbn [jobs snd].
    split; [|split].
    + intros j Hj Hid. apply elem_of_update_where in Hj as (j0 & Hj0 & ->).
      case_decide as Hid0; [done|].
      apply elem_of_update_where in Hj0 as (j1 & Hj1 & ->).
      exfalso. apply Hid0. by case_decide.
    + intros j Hj Hs. apply elem_of_update_where in Hj as (j0 & Hj0 & ->).
      case_decide as Hid0; [done|].
      apply elem_of_update_where in Hj0 as (j1 & Hj1 & ->).
      by case_decide.
    + intros r Hr Hs. destruct HW as [HW|HW]; rewrite HW in Hr; [done|].
      apply elem_of_update_where in Hr as (r0 & Hr0 & ->).
      by case_decide.
  - intros es w Hrun.
    pose proof (system_ok_run placeholder es _ _ system_ok_initial Hrun) as Hok.
    split.
    + eapply run_no_failure; [apply system_ok_initial| |done].
      split; apply Forall_nil_2.
    + intros m Hm. eexists. split; [simpl; by rewrite decide_True|].
      unfold after. rewrite processJob_end_eq. cbn [placeholder snd].
      intros j Hj Hid. unfold set_active in Hj. cbn [jobs] in Hj.
      fold (after (processNextJob (workflowId m))
              (settled_ok m (now w + 1000)
                 {| res_nodeName := nodeName m; res_status := "success";
                    res_timestamp := now w + 1000 |} w)) in Hj.
      rewrite processNextJob_jobs in Hj. unfold settled_ok in Hj.
      cbn [jobs] in Hj.
      apply elem_of_update_where in Hj as (j0 & Hj0 & ->).
      by case_decide.
Qed.

Lemma placeholder_never_fails_witness :
  run placeholder test_run initial = Some test_state ∧ no_failure test_state.
Proof.
  split; [vm_compute; reflexivity|].
  destruct placeholder_never_fails as (_ & _ & _ & H).
  apply (H test_run test_state). vm_compute; reflexivity.
Defined.

(** * Further properties of the orchestrator *)

(** ** What a reachable state looks like *)










(** ** Creation, read back *)

Lemma getWorkflowStatus_found (workflowId : nat) (w : World) (r : Workflow) :
  find_workflow workflowId w = Some r →
  getWorkflowStatus workflowId w =
  (Resolved (r, order_by_priority (jobs_of workflowId w)), w).
Proof.
  unfold find_workflow, getWorkflowStatus. intros Hr.
  rewrite log_and_rethrow_id, await_eq. unfold select_workflow, query.
  destruct (filter _ (workflows w)) as [|r' l]; [done|]. by injection Hr as ->.
Qed.

Lemma plan_jobs_node_names wid t id0 plan :
  job_node_name <$> plan_jobs wid t id0 plan = plan.
Proof.
  apply list_eq. intros i. rewrite list_lookup_fmap, plan_jobs_lookup.
  by destruct (plan !! i).
Qed.

Lemma plan_jobs_sorted wid t id0 plan :
  Sorted by_priority (plan_jobs wid t id0 plan).
Proof.
  apply strict_priorities_sorted. rewrite plan_jobs_priorities.
  apply seq_strongly_sorted.
Qed.

(** X4.  Create, then read: in a well-formed store, for a workflow type
    whose plan is an array, within the limits of the columns (the type and
    the property reference fit [VARCHAR(255)], the ids to be drawn fit
    [int4]), [getWorkflowStatus] called with the id that
    [createWorkflow] has just returned resolves, without changing the
    state, to the new row (the given type as name, the given property
    reference, status [Queued], no [completed_at]) and to one job per plan
    step, in plan order. *)
Theorem createWorkflow_then_getWorkflowStatus (w : World)
    (propertyId : option string) (workflowType : string) (plan : list string) :
  store_ok w →
  getExecutionPlan workflowType = JsArray plan →
  varchar255 workflowType → from_option varchar255 True propertyId →
  int4 (workflows_id_seq w) → int4 (jobs_id_seq w + length plan) →
  let w' := after (createWorkflow propertyId workflowType) w in
  ∃ workflowId r rows,
    outcome (createWorkflow propertyId workflowType) w = Resolved workflowId ∧
    getWorkflowStatus workflowId w' = (Resolved (r, rows), w') ∧
    wf_id r = workflowId ∧ wf_name r = workflowType ∧
    wf_property_id r = propertyId ∧ wf_status r = Queued ∧
    wf_completed_at r = None ∧
    job_node_name <$> rows = plan ∧
    job_priority <$> rows = seq 1 (length plan) ∧
    Forall (λ j, job_workflow_id j = workflowId ∧ job_status j = Pending) rows.
Proof.
  intros Hst Hplan _ _ _ _ w'. destruct plan as [|n0 plan].
  { by apply getExecutionPlan_array_nonempty in Hplan. }
  pose proof (createWorkflow_array propertyId _ _ _ _ Hst Hplan) as Hcreate.
  exists (workflows_id_seq w),
         (new_workflow w propertyId workflowType Queued None),
         (plan_jobs (workflows_id_seq w) (now w) (jobs_id_seq w) (n0 :: plan)).
  split; [unfold outcome; by rewrite Hcreate|].
  unfold w', after. rewrite Hcreate. cbn [snd]. split.
  - rewrite (getWorkflowStatus_found _ _ (new_workflow w propertyId workflowType
                                                       Queued None))
      by (by apply find_workflow_grown).
    do 3 f_equal. unfold jobs_of, grown. cbn [jobs].
    rewrite filter_app, plan_jobs_filter.
    rewrite filter_none by apply (fresh_workflow_jobs _ Hst).
    apply order_by_priority_id, plan_jobs_sorted.
  - repeat (split; [done|]). split; [apply plan_jobs_node_names|].
    split; [apply plan_jobs_priorities|].
    apply Forall_forall. intros j Hj. apply plan_jobs_elem in Hj. tauto.
Qed.

Lemma createWorkflow_then_getWorkflowStatus_witness :
  store_ok initial ∧
  getExecutionPlan "full_listing" = JsArray full_listing_plan ∧
  ∃ r rows,
    getWorkflowStatus 1 (after (createWorkflow None "full_listing") initial) =
      (Resolved (r, rows), after (createWorkflow None "full_listing") initial) ∧
    job_node_name <$> rows = full_listing_plan.
Proof.
  assert (store_ok initial) as Hst.
  { split; simpl; try apply NoDup_nil_2; intros ? H;
      by apply elem_of_nil in H. }
  split; [exact Hst|]. split; [reflexivity|].
  destruct (createWorkflow_then_getWorkflowStatus initial None "full_listing"
              full_listing_plan Hst eq_refl
              ltac:(split; [simpl; lia|by repeat constructor]) I
              ltac:(unfold int4; simpl; lia) ltac:(unfold int4; simpl; lia))
    as (wid & r & rows & Hout & Hget & _ & _ & _ & _ & _ & Hnames & _).
  injection Hout as <-. eauto.
Defined.

(** ** Creation that does not queue a job *)





(** ** Ids that are not there, calls that are repeated *)

(** X7.  Unlike [queueWorkflow] and [getWorkflowStatus], neither
    [completeWorkflow] nor [processNextJob] looks the workflow up: for an
    id within [int4] that no workflow row has, [completeWorkflow] resolves
    and changes nothing but the cache of active workflows, and so does
    [processNextJob] when no pending job carries the id. *)
Theorem unknown_workflow_is_not_reported (workflowId : nat) (w : World) :
  int4 workflowId →
  (∀ r, r ∈ workflows w → wf_id r ≠ workflowId) →
  completeWorkflow workflowId w =
    (Resolved tt, set_activeWorkflows (λ s, s ∖ {[workflowId]}) w) ∧
  (next_pending workflowId w = None →
   processNextJob workflowId w =
     (Resolved tt, set_activeWorkflows (λ s, s ∖ {[workflowId]}) w)).
Proof.
  intros _ Hno.
  assert (completeWorkflow workflowId w =
          (Resolved tt, set_activeWorkflows (λ s, s ∖ {[workflowId]}) w)) as Hc.
  { rewrite completeWorkflow_eq, update_where_none; [done|].
    apply Forall_forall. intros r Hr. by apply Hno. }
  split; [done|]. intros Hnone. by rewrite processNextJob_eq, Hnone.
Qed.

Lemma unknown_workflow_is_not_reported_witness :
  int4 7 ∧
  completeWorkflow 7 test_state =
    (Resolved tt, set_activeWorkflows (λ s, s ∖ {[7]}) test_state).
Proof.
  assert (int4 7) as H7 by (unfold int4; lia).
  assert (Forall (λ r, wf_id r ≠ 7) (workflows test_state)) as Hall.
  { unfold test_state. cbn [workflows]. repeat constructor. simpl. lia. }
  split; [exact H7|].
  refine (proj1 (unknown_workflow_is_not_reported 7 test_state H7 _)).
  intros r Hr. rewrite Forall_forall in Hall. by apply Hall.
Defined.

(** X8.  [processNextJob] leaves the job it dispatches [Pending] (only
    [processJob] marks it running), so it is not idempotent: called twice
    in a row it adds the same message to the queue twice. *)
Theorem processNextJob_twice_dispatches_twice (workflowId : nat) (w : World)
    (job : Job) :
  next_pending workflowId w = Some job →
  let w2 := after (processNextJob workflowId)
                  (after (processNextJob workflowId) w) in
  jobs w2 = jobs w ∧ workflows w2 = workflows w ∧
  job ∈ jobs w2 ∧ job_status job = Pending ∧
  waiting w2 = waiting w ++ [dispatch workflowId job; dispatch workflowId job].
Proof.
  intros Hnext w2.
  assert (after (processNextJob workflowId) w =
          set_waiting (λ q, q ++ [dispatch workflowId job]) w) as H1
    by (unfold after; by rewrite processNextJob_eq, Hnext).
  assert (next_pending workflowId
            (set_waiting (λ q, q ++ [dispatch workflowId job]) w) = Some job)
    as Hnext' by done.
  assert (w2 = set_waiting (λ q, q ++ [dispatch workflowId job])
                 (set_waiting (λ q, q ++ [dispatch workflowId job]) w)) as ->.
  { unfold w2. rewrite H1. unfold after. by rewrite processNextJob_eq, Hnext'. }
  cbn [set_waiting jobs workflows waiting].
  split; [done|]. split; [done|].
  assert (job ∈ order_by_priority
            (filter (λ r, job_workflow_id r = workflowId ∧ job_status r = Pending)
                    (jobs w))) as Hin
    by (by apply head_Some_elem_of).
  rewrite order_by_priority_perm in Hin.
  apply list_elem_of_filter in Hin as [[_ Hs] Hin].
  split; [done|]. split; [done|]. by rewrite <- (assoc_L (++)).
Qed.

Lemma processNextJob_twice_dispatches_twice_witness :
  let w := after (createWorkflow None "test") initial in
  next_pending 1 w ≠ None ∧
  waiting (after (processNextJob 1) (after (processNextJob 1) w)) =
    [test_message; test_message; test_message].
Proof.
  intros w. split; [by vm_compute|].
  destruct (next_pending 1 w) as [job|] eqn:Hnext; [|by vm_compute in Hnext].
  destruct (processNextJob_twice_dispatches_twice 1 w job Hnext)
    as (_ & _ & _ & _ & ->).
  vm_compute in Hnext. injection Hnext as <-. vm_compute. reflexivity.
Defined.

(** ** What [processJob] touches *)




(** ** Rows along a run *)

Lemma Forall2_update_where_elem {A} (R : A → A → Prop) (cond : A → Prop)
    `{!∀ r, Decision (cond r)} (f : A → A) (l : list A) :
  (∀ x, x ∈ l → cond x → R x (f x)) → (∀ x, R x x) →
  Forall2 R l (update_where cond f l).
Proof.
  intros Hf Hid. unfold update_where.
  induction l as [|x l IH]; [constructor|].
  rewrite fmap_cons. constructor.
  - case_decide; [|done]. apply Hf; [left|done].
  - apply IH. intros y Hy. apply Hf. by right.
Qed.

Lemma Forall2_diag {A} (R : A → A → Prop) (l : list A) :
  (∀ x, R x x) → Forall2 R l l.
Proof. intros HR. induction l; by constructor. Qed.

(** The state [createWorkflow] leaves, by the value the resolver returns. *)
Lemma createWorkflow_shape propertyId workflowType (w : World) :
  store_ok w →
  ∃ s c rows drawn msgs cache,
    after (createWorkflow propertyId workflowType) w =
      grown w (new_workflow w propertyId workflowType s c) rows drawn msgs cache ∧
    ((∃ plan, getExecutionPlan workflowType = JsArray plan ∧
              rows = plan_jobs (workflows_id_seq w) (now w) (jobs_id_seq w) plan ∧
              s = Queued ∧ c = None) ∨
     ((∀ plan, getExecutionPlan workflowType ≠ JsArray plan) ∧ rows = [] ∧
      (s = Completed ∧ c = Some (now w) ∨ s = Pending ∧ c = None))).
Proof.
  intros Hst. unfold after.
  destruct (createWorkflow_cases workflowType)
    as [(n0 & plan & Hplan)|[Hlen|(name & n & Hplan)]].
  - rewrite (createWorkflow_array _ _ _ _ _ Hst Hplan). cbn [snd].
    do 6 eexists. split; [reflexivity|]. left. by exists (n0 :: plan).
  - rewrite (createWorkflow_no_steps _ _ _ Hst Hlen). cbn [snd].
    do 6 eexists. split; [reflexivity|]. right. split; [|by eauto].
    intros plan Hplan. rewrite Hplan in Hlen. simpl in Hlen.
    apply getExecutionPlan_array_nonempty in Hplan. by destruct plan.
  - rewrite (createWorkflow_function _ _ _ _ _ Hst Hplan). cbn [snd].
    do 6 eexists. split; [reflexivity|]. right. split; [|by eauto].
    intros plan. by rewrite Hplan.
Qed.

Lemma fire_jobs_step (u : StepUnit) (e : Event) (w w' : World) :
  system_ok w → fire u e w = Some w' →
  ∃ old new,
    jobs w' = old ++ new ∧ Forall2 job_moves (jobs w) old ∧
    Forall (λ j, ∃ id wid name priority t, j = new_job id wid name priority t)
           new ∧
    ((∀ p ty, e ≠ CreateWorkflow p ty) → new = []).
Proof.
  intros Hok Hfire. pose proof (sys_store w Hok) as Hst.
  assert (∀ l : list Job, Forall2 job_moves l l) as Hdiag
    by (intros l; apply Forall2_diag; by left).
  destruct e as [p ty|wid0|m|m|t].
  - injection Hfire as <-.
    destruct (createWorkflow_shape p ty w Hst)
      as (s & c & rows & drawn & msgs & cache & -> & Hcase).
    exists (jobs w), rows. split; [done|]. split; [done|].
    split; [|intros Hne; by destruct (Hne p ty)].
    destruct Hcase as [(plan & _ & -> & _)|(_ & -> & _)]; [|constructor].
    apply Forall_forall. intros j Hj.
    apply list_elem_of_lookup in Hj as [i Hi]. rewrite plan_jobs_lookup in Hi.
    destruct (plan !! i); [|done]. injection Hi as <-. by do 5 eexists.
  - injection Hfire as <-. rewrite getWorkflowStatus_after.
    exists (jobs w), []. by rewrite app_nil_r.
  - apply fire_Begin in Hfire as (q & Hq & ->).
    destruct (begin_phase w m q Hok Hq)
      as (r & done & j & rest & Hr & Hid & Hs & HJ & Hm & Hd & Hj & _).
    assert (j ∈ jobs w) as Hjin.
    { assert (j ∈ jobs_of (workflowId m) w) as Hjj
        by (rewrite HJ; apply elem_of_app; right; left).
      by apply jobs_of_elem in Hjj as [_ ?]. }
    eexists _, []. rewrite app_nil_r. split; [reflexivity|].
    split; [|by split].
    apply Forall2_update_where_elem; [|by left].
    intros x Hx Hxid. right. left.
    assert (x = j) as -> by (eapply job_id_inj; eauto; by rewrite Hm in Hxid).
    split; [done|]. by eexists.
  - simpl in Hfire. case_decide as Hact; [|done]. injection Hfire as <-.
    destruct (settle_phase w m Hok Hact)
      as (r & done & j & rest & Hr & Hid & Hs & HJ & Hm & Hd & Hj & _).
    assert (j ∈ jobs w) as Hjin.
    { assert (j ∈ jobs_of (workflowId m) w) as Hjj
        by (rewrite HJ; apply elem_of_app; right; left).
      by apply jobs_of_elem in Hjj as [_ ?]. }
    assert (∀ x, x ∈ jobs w → job_id x = jobId m → x = j ∧ job_status x = Running)
      as Huniq.
    { intros x Hx Hxid.
      assert (x = j) as -> by (eapply job_id_inj; eauto; by rewrite Hm in Hxid).
      done. }
    unfold after. rewrite processJob_end_eq.
    destruct (u (nodeName m) (workflowId m) w) as [[result|e] t]; cbn [snd].
    + eexists _, []. rewrite app_nil_r. split.
      { unfold set_active. cbn [jobs]. apply processNextJob_jobs. }
      split; [|by split]. unfold settled_ok. cbn [jobs].
      apply Forall2_update_where_elem; [|by left].
      intros x Hx Hxid. destruct (Huniq x Hx Hxid) as [-> ?].
      right. right. left. split; [done|]. by do 2 eexists.
    + eexists _, []. rewrite app_nil_r. split; [reflexivity|].
      split; [|by split]. cbn [set_active settled_failed jobs].
      apply Forall2_update_where_elem; [|by left].
      intros x Hx Hxid. destruct (Huniq x Hx Hxid) as [-> ?].
      right. right. right. split; [done|]. by do 2 eexists.
  - simpl in Hfire. case_decide; [|done]. injection Hfire as <-.
    exists (jobs w), []. by rewrite app_nil_r.
Qed.

Lemma job_moves_keys (j j' : Job) : job_moves j j' → same_job_keys j j'.
Proof.
  intros [->|[[_ [t ->]]|[[_ (t & res & ->)]|[_ (t & e & ->)]]]]; by repeat split.
Qed.

(** X10.  The life of a job row.  Along every transition of every run no
    job row is deleted or moved; a row is left as it is, or goes from
    [Pending] to [Running] (with [started_at] set), or from [Running] to
    [Completed] (result stored) or [Failed] (error stored), with
    [completed_at] set; the key columns are never rewritten; and the rows
    that appear are the pending rows of a new workflow, after all the
    others. *)
Theorem job_lifecycle (u : StepUnit) (es : list Event) (e : Event)
    (w w' : World) :
  run u es initial = Some w → fire u e w = Some w' →
  ∃ old new,
    jobs w' = old ++ new ∧
    Forall2 (λ j j', job_moves j j' ∧ same_job_keys j j') (jobs w) old ∧
    Forall (λ j, ∃ id wid name priority t, j = new_job id wid name priority t)
           new.
Proof.
  intros Hrun Hfire.
  pose proof (system_ok_run u es _ _ system_ok_initial Hrun) as Hok.
  destruct (fire_jobs_step u e w w' Hok Hfire)
    as (old & new & HJ & Hold & Hnew & _).
  exists old, new. split; [done|]. split; [|done].
  eapply Forall2_impl; [exact Hold|]. intros j j' Hm. split; [done|].
  by apply job_moves_keys.
Qed.

Lemma job_lifecycle_witness :
  run placeholder listing_run initial = Some listing_state ∧
  fire placeholder (Begin second_message) listing_state =
    Some listing_state_begun ∧
  ∃ old new,
    jobs listing_state_begun = old ++ new ∧
    Forall2 (λ j j', job_moves j j' ∧ same_job_keys j j')
            (jobs listing_state) old.
Proof.
  split; [vm_compute; reflexivity|]. split; [vm_compute; reflexivity|].
  destruct (job_lifecycle placeholder listing_run (Begin second_message)
              listing_state listing_state_begun)
    as (old & new & H1 & H2 & _); [vm_compute; reflexivity..|].
  by exists old, new.
Defined.

Lemma fire_workflows_step (u : StepUnit) (e : Event) (w w' : World) :
  system_ok w → fire u e w = Some w' →
  ∃ old new,
    workflows w' = old ++ new ∧ Forall2 workflow_moves (workflows w) old ∧
    Forall (λ r, ∃ w0 p ty s c,
                   r = new_workflow w0 p ty s c ∧
                   (s = Queued ∧ c = None ∨ s = Completed ∧ is_Some c ∨
                    s = Pending ∧ c = None)) new ∧
    ((∀ p ty, e ≠ CreateWorkflow p ty) → new = []).
Proof.
  intros Hok Hfire. pose proof (sys_store w Hok) as Hst.
  assert (∀ l : list Workflow, Forall2 workflow_moves l l) as Hdiag
    by (intros l; apply Forall2_diag; by left).
  destruct e as [p ty|wid0|m|m|t].
  - injection Hfire as <-.
    destruct (createWorkflow_shape p ty w Hst)
      as (s & c & rows & drawn & msgs & cache & -> & Hcase).
    eexists (workflows w), [_]. split; [reflexivity|]. split; [done|].
    split; [|intros Hne; by destruct (Hne p ty)].
    repeat constructor. do 5 eexists. split; [reflexivity|].
    destruct Hcase as [(plan & _ & _ & -> & ->)|(_ & _ & [[-> ->]|[-> ->]])];
      eauto.
  - injection Hfire as <-. rewrite getWorkflowStatus_after.
    exists (workflows w), []. by rewrite app_nil_r.
  - apply fire_Begin in Hfire as (q & Hq & ->).
    exists (workflows w), []. by rewrite app_nil_r.
  - simpl in Hfire. case_decide as Hact; [|done]. injection Hfire as <-.
    destruct (settle_phase w m Hok Hact)
      as (r & done & j0 & rest & Hr & Hid & Hs & _).
    assert (∀ y, y ∈ workflows w → wf_id y = workflowId m →
                 wf_status y = Queued) as Huniq.
    { intros y Hy Hyid.
      assert (y = r) as -> by (eapply workflow_row_unique; eauto; congruence).
      done. }
    unfold after. rewrite processJob_end_eq.
    destruct (u (nodeName m) (workflowId m) w) as [[result|e] t]; cbn [snd].
    + unfold after. rewrite processNextJob_eq.
      destruct (next_pending _ _); cbn [snd].
      * exists (workflows w), []. by rewrite app_nil_r.
      * rewrite completeWorkflow_eq. cbn [snd set_active workflows settled_ok now].
        eexists _, []. rewrite app_nil_r. split; [reflexivity|].
        split; [|by split].
        apply Forall2_update_where_elem; [|by left].
        intros x Hx Hxid. right. left. split; [by apply Huniq|]. by eexists.
    + cbn [set_active settled_failed workflows].
      eexists _, []. rewrite app_nil_r. split; [reflexivity|].
      split; [|by split].
      apply Forall2_update_where_elem; [|by left].
      intros x Hx Hxid. right. right. split; [by apply Huniq|]. by eexists.
  - simpl in Hfire. case_decide; [|done]. injection Hfire as <-.
    exists (workflows w), []. by rewrite app_nil_r.
Qed.

Lemma job_moves_columns (j j' : Job) :
  job_moves j j' → job_columns_ok j → job_columns_ok j'.
Proof.
  unfold job_columns_ok.
  intros [->|[[Hs [t ->]]|[[Hs (t & res & ->)]|[Hs (t & e & ->)]]]]; [done|..];
    rewrite Hs; simpl; intros (H1 & H2 & H3 & H4); eauto 10.
Qed.

Lemma workflow_moves_columns (r r' : Workflow) :
  workflow_moves r r' → workflow_columns_ok r → workflow_columns_ok r'.
Proof.
  unfold workflow_columns_ok.
  intros [->|[[Hs [t ->]]|[Hs [t ->]]]]; [done|..]; rewrite Hs; simpl;
    intros Hok; split; try done; eauto.
  - intros Hc. apply Hok in Hc. done.
Qed.

Lemma fire_columns (u : StepUnit) (e : Event) (w w' : World) :
  system_ok w → fire u e w = Some w' →
  Forall job_columns_ok (jobs w) ∧ Forall workflow_columns_ok (workflows w) →
  Forall job_columns_ok (jobs w') ∧ Forall workflow_columns_ok (workflows w').
Proof.
  intros Hok Hfire [HJ HW].
  destruct (fire_jobs_step u e w w' Hok Hfire)
    as (old & new & -> & Hold & Hnew & _).
  destruct (fire_workflows_step u e w w' Hok Hfire)
    as (old' & new' & -> & Hold' & Hnew' & _).
  split; apply Forall_app; split.
  - clear Hnew. induction Hold as [|j j' l l' Hm Hl IH]; [constructor|].
    apply Forall_cons in HJ as [Hj HJ]. constructor; [|by apply IH].
    by eapply job_moves_columns.
  - eapply Forall_impl; [exact Hnew|]. simpl.
    intros j (id & wid & name & prio & t & ->). by repeat split.
  - clear Hnew'. induction Hold' as [|r r' l l' Hm Hl IH]; [constructor|].
    apply Forall_cons in HW as [Hr HW]. constructor; [|by apply IH].
    by eapply workflow_moves_columns.
  - eapply Forall_impl; [exact Hnew'|]. simpl.
    intros r (w0 & p & ty & s & c & -> & [[-> ->]|[[-> Hc]|[-> ->]]]);
      unfold workflow_columns_ok; simpl; split; try done.
    all: intros [? ?]; done.
Qed.

Lemma run_columns (u : StepUnit) (es : list Event) (w w' : World) :
  system_ok w → run u es w = Some w' →
  Forall job_columns_ok (jobs w) ∧ Forall workflow_columns_ok (workflows w) →
  Forall job_columns_ok (jobs w') ∧ Forall workflow_columns_ok (workflows w').
Proof.
  revert w. induction es as [|e es IH]; simpl; intros w Hok Hrun Hcols.
  - by injection Hrun as <-.
  - destruct (fire u e w) as [w1|] eqn:Hfire; [|done].
    eapply IH; [by eapply system_ok_fire|done|by eapply fire_columns].
Qed.

(** X11.  Timestamps and payloads agree with the status, in every state of
    every run.  A pending job has no [started_at], [completed_at],
    [result] or [error]; a running job has [started_at] only; a completed
    job has [started_at], [completed_at] and [result] and no [error]; a
    failed job has [started_at], [completed_at] and [error] and no
    [result].  A workflow row has [completed_at] exactly when it is
    [Completed]: a failed workflow has none. *)
Theorem columns_agree_with_status (u : StepUnit) (es : list Event) (w : World) :
  run u es initial = Some w →
  Forall job_columns_ok (jobs w) ∧ Forall workflow_columns_ok (workflows w).
Proof.
  intros Hrun. eapply run_columns; [apply system_ok_initial|done|].
  split; constructor.
Qed.

Lemma columns_agree_with_status_witness :
  run photos_unit (photos_run ++ [Settle second_message]) initial ≠ None ∧
  ∃ w, run photos_unit (photos_run ++ [Settle second_message]) initial = Some w ∧
       Forall job_columns_ok (jobs w) ∧
       Forall workflow_columns_ok (workflows w).
Proof.
  split; [by vm_compute|].
  destruct (run photos_unit (photos_run ++ [Settle second_message]) initial)
    as [w|] eqn:Hrun; [|by vm_compute in Hrun].
  exists w. split; [done|].
  by apply (columns_agree_with_status photos_unit
              (photos_run ++ [Settle second_message]) w).
Defined.

(** ** The plan stays on the table *)









(** ** The queue can always be drained *)









(** * Properties of the process around the orchestrator *)

(** ** Running the computations *)

Ltac task_unfold :=
  unfold state_after, result_of, mbind, Task_bind, and_then, catch, finally,
    gets, modify, fulfil, raise.

(** Setters are unfolded innermost first: unfolding them from the outside
    copies the inner state once per field. *)
Ltac process_fields :=
  cbv [client_release set_pool set_redisClient set_jobQueue set_redis_clients
       set_queues set_leased set_tables set_system_logs set_system_logs_id_seq
       set_clock set_replies set_metrics set_healthCheckInterval
       env pool redisClient jobQueue redis_clients queues leased tables store
       system_logs system_logs_id_seq clock replies memoryUsage metrics
       healthCheckInterval].

(** The computations are run on a state given field by field and a script
    given reply by reply. *)
Ltac script_cases rs n :=
  lazymatch n with
  | 0 => idtac
  | S ?k => destruct rs as [|[? [?|]] rs]; [| |script_cases rs k]
  end.

Ltac run_process :=
  cbv [createTables pool_connect create_table_if_not_exists round_trip
       client_connect client_ping
       state_after result_of mbind Task_bind and_then catch finally gets
       modify fulfil raise fst snd from_option
       took failure answered];
  process_fields.

Lemma round_trip_silent (p : Process) :
  replies p = [] → round_trip p = (Fulfilled tt, p).
Proof. unfold round_trip. by intros ->. Qed.

Lemma round_trip_ok (p : Process) (reply : Reply) (rest : list Reply) :
  replies p = reply :: rest → failure reply = None →
  round_trip p =
    (Fulfilled tt, set_clock (clock p + took reply) (set_replies rest p)).
Proof. unfold round_trip. by intros -> ->. Qed.

Lemma round_trip_fails (p : Process) (reply : Reply) (rest : list Reply)
    (msg : string) :
  replies p = reply :: rest → failure reply = Some msg →
  round_trip p =
    (Raised (JsError msg),
     set_clock (clock p + took reply) (set_replies rest p)).
Proof. unfold round_trip. by intros -> ->. Qed.

(** ** [initializeDatabase] *)

Lemma initializeDatabase_enter (p : Process) :
  pool p = None → unset (env p !! "DATABASE_URL") = false →
  initializeDatabase p =
    (modify (set_pool
               (Some (new_Pool (default "" (env p !! "DATABASE_URL"))
                               (env p !! "NODE_ENV"))));;
     catch (pool_connect;; round_trip;; modify client_release)
           (λ error, raise error);;
     createTables;;
     gets pool) p.
Proof.
  intros Hpool Hurl. unfold initializeDatabase. task_unfold.
  rewrite Hpool, Hurl. reflexivity.
Qed.

Lemma initializeDatabase_run (p : Process) :
  pool p = None → unset (env p !! "DATABASE_URL") = false →
  let n := answered 6 (replies p) in
  let db := new_Pool (default "" (env p !! "DATABASE_URL"))
                     (env p !! "NODE_ENV") in
  (n = 6 → result_of initializeDatabase p = Fulfilled (Some db)) ∧
  (n < 6 → ∃ reply msg, replies p !! n = Some reply ∧
                        failure reply = Some msg ∧
                        result_of initializeDatabase p = Raised (JsError msg)) ∧
  state_after initializeDatabase p =
    set_pool (Some db)
      (set_leased (if decide (n = 1) then S (leased p) else leased p)
         (set_tables (tables p ∪
                      list_to_set (take (n - 3) ["workflows"; "jobs"; "system_logs"]))
            (set_clock (clock p + elapsed (S n `min` 6) (replies p))
               (set_replies (drop (S n `min` 6) (replies p)) p)))).
Proof.
  intros Hpool Hurl. unfold result_of, state_after.
  rewrite (initializeDatabase_enter p Hpool Hurl). clear Hpool Hurl.
  destruct p as [env0 pool0 rc jq rcs qs leased0 tables0 st logs seq0 clock0
                 rs mem mt hci].
  script_cases rs 6.
  all: run_process.
  all: (split; [intros ?; first [done | lia]|]).
  all: (split; [intros ?; first [lia | eauto 10]|]).
  all: f_equal.
  all: first [ unfold elapsed; simpl; lia
             | apply set_eq; intros x; set_unfold; tauto ].
Qed.

(** X14.  A failed initialisation of the database is not retried.
    [initializeDatabase] assigns [pool] before it tests the connection, so
    when the test or the creation of the tables fails, the call rejects but
    leaves the pool behind: [getPool] then returns it, and a second
    [initializeDatabase] resolves to it at once, with no request sent; the
    table [system_logs], which the failed call has not created, is not
    created by the second call either. *)
Theorem failed_initialization_is_not_retried (p : Process) (e : Exception) :
  pool p = None → unset (env p !! "DATABASE_URL") = false →
  result_of initializeDatabase p = Raised e →
  let p' := state_after initializeDatabase p in
  ∃ db,
    pool_connectionString db = default "" (env p !! "DATABASE_URL") ∧
    getPool p' = (Fulfilled db, p') ∧
    initializeDatabase p' = (Fulfilled (Some db), p') ∧
    ("system_logs" ∈ tables p' → "system_logs" ∈ tables p).
Proof.
  intros Hpool Hurl Hres p'.
  destruct (initializeDatabase_run p Hpool Hurl) as (Hok & Hfail & Hst).
  fold p' in Hst.
  set (n := answered 6 (replies p)) in *.
  assert (n < 6) as Hn.
  { destruct (decide (n = 6)) as [H6|H6].
    - rewrite (Hok H6) in Hres. discriminate.
    - assert (n ≤ 6); [|lia]. clear. subst n.
      generalize (replies p). generalize 6.
      induction n as [|n IH]; intros [|[t [m|]] rs]; simpl; try lia.
      specialize (IH rs). lia. }
  exists (new_Pool (default "" (env p !! "DATABASE_URL"))
                  (env p !! "NODE_ENV")).
  split; [|split; [|split]].
  - reflexivity.
  - unfold getPool. task_unfold. rewrite Hst. reflexivity.
  - unfold initializeDatabase. task_unfold. rewrite Hst. reflexivity.
  - rewrite Hst. cbn [tables set_pool set_leased set_tables].
    rewrite elem_of_union, elem_of_list_to_set. intros [Hin|Hin]; [done|].
    apply elem_of_take in Hin as (i & Hi & Hlt).
    destruct i as [|[|[|i]]]; simpl in Hi; [discriminate..|lia|done].
Qed.

Lemma failed_initialization_is_not_retried_witness :
  result_of initializeDatabase dropped_connection =
    Raised (JsError "Connection terminated") ∧
  ∃ db, getPool (state_after initializeDatabase dropped_connection) =
          (Fulfilled db, state_after initializeDatabase dropped_connection) ∧
        pool_connectionString db = "postgres://empire@db/empire".
Proof.
  split; [vm_compute; reflexivity|].
  destruct (failed_initialization_is_not_retried dropped_connection
              (JsError "Connection terminated"))
    as (db & Hurl & Hget & _); [vm_compute; reflexivity..|].
  exists db. split; [exact Hget|].
  rewrite Hurl. vm_compute. reflexivity.
Defined.

Lemma answered_le (n : nat) (script : list Reply) : answered n script ≤ n.
Proof.
  revert script. induction n as [|n IH]; intros [|[t [m|]] rs]; simpl; try lia.
  specialize (IH rs). lia.
Qed.

Lemma answered_more (n k : nat) (script : list Reply) :
  answered n script < n → answered (n + k) script = answered n script.
Proof.
  revert script. induction n as [|n IH]; intros [|[t [m|]] rs]; simpl;
    try lia.
  intros H. rewrite IH; [done|lia].
Qed.

Lemma createTables_run (p : Process) :
  leased (state_after createTables p) = leased p.
Proof.
  destruct p as [env0 pool0 rc jq rcs qs leased0 tables0 st logs seq0 clock0
                 rs mem mt hci].
  destruct pool0; [|reflexivity].
  script_cases rs 4.
  all: run_process; lia.
Qed.

(** X15.  The connection test leaks its client.  When the pool hands out a
    client and the test statement [SELECT NOW()] then fails,
    [initializeDatabase] rejects without releasing the client: one more
    client stays checked out.  In every other case, success or failure, it
    leaves as many clients checked out as before; and [createTables], which
    releases in a [finally] block, never leaves one, however it ends. *)
Theorem connection_test_leaks_its_client (p : Process) :
  pool p = None → unset (env p !! "DATABASE_URL") = false →
  leased (state_after initializeDatabase p) =
    (if decide (answered 2 (replies p) = 1) then S (leased p) else leased p) ∧
  ∀ p0, leased (state_after createTables p0) = leased p0.
Proof.
  intros Hpool Hurl. split; [|apply createTables_run].
  destruct (initializeDatabase_run p Hpool Hurl) as (_ & _ & ->).
  cbn [leased set_pool set_leased].
  destruct (replies p) as [|[t1 [m1|]] [|[t2 [m2|]] rs]];
    cbn [answered failure];
    repeat first [rewrite decide_True by lia | rewrite decide_False by lia];
    done.
Qed.

Lemma connection_test_leaks_its_client_witness :
  leased dropped_connection = 0 ∧
  leased (state_after initializeDatabase dropped_connection) = 1.
Proof.
  split; [reflexivity|].
  rewrite (proj1 (connection_test_leaks_its_client dropped_connection
                    ltac:(reflexivity) ltac:(vm_compute; reflexivity))).
  vm_compute. reflexivity.
Defined.

(** X16.  The tables are created one by one, outside any transaction.
    [initializeDatabase] sends six requests (connect, test, connect, three
    times CREATE TABLE IF NOT EXISTS) and stops at the first that fails; it
    resolves exactly when none of them fails.  The tables created before a
    failure stay: after the call the tables are those that existed, plus
    [workflows], [jobs], [system_logs] as far as the fourth, fifth and sixth
    request were answered. *)
Theorem tables_are_created_one_by_one (p : Process) :
  pool p = None → unset (env p !! "DATABASE_URL") = false →
  let n := answered 6 (replies p) in
  let p' := state_after initializeDatabase p in
  (is_fulfilled (result_of initializeDatabase p) ↔ n = 6) ∧
  tables p' =
    tables p ∪ list_to_set (take (n - 3) ["workflows"; "jobs"; "system_logs"]) ∧
  replies p' = drop (S n `min` 6) (replies p).
Proof.
  intros Hpool Hurl n p'.
  destruct (initializeDatabase_run p Hpool Hurl) as (Hok & Hfail & Hst).
  fold n in Hok, Hfail, Hst. fold p' in Hst.
  pose proof (answered_le 6 (replies p)) as Hle. fold n in Hle.
  split; [|by rewrite Hst].
  split.
  - intros Hful. destruct (decide (n = 6)) as [|Hn]; [done|].
    destruct Hfail as (reply & msg & _ & _ & Hres); [lia|].
    rewrite Hres in Hful. done.
  - intros Hn. by rewrite (Hok Hn).
Qed.

Lemma tables_are_created_one_by_one_witness :
  ¬ is_fulfilled (result_of initializeDatabase refused_jobs_table) ∧
  "workflows" ∈ tables (state_after initializeDatabase refused_jobs_table) ∧
  "jobs" ∉ tables (state_after initializeDatabase refused_jobs_table).
Proof.
  destruct (tables_are_created_one_by_one refused_jobs_table)
    as (Hiff & Htables & _); [vm_compute; reflexivity..|].
  assert (answered 6 (replies refused_jobs_table) = 4) as Hn
    by (vm_compute; reflexivity).
  rewrite Hn in Hiff, Htables.
  split; [intros H; apply Hiff in H; discriminate|].
  rewrite Htables. cbn [take list_to_set Nat.sub].
  rewrite !elem_of_union, !elem_of_singleton.
  split; [auto|]. intros [Hin|[Heq|Hin]]; [|discriminate|];
    by apply elem_of_empty in Hin.
Defined.

(** ** [initializeRedis] *)

Lemma alter_last {A} (f : A → A) (l : list A) (x : A) :
  alter f (length l) (l ++ [x]) = l ++ [f x].
Proof. by rewrite alter_app_r_alt, Nat.sub_diag. Qed.

Lemma initializeRedis_enter (p : Process) :
  unset (env p !! "REDIS_URL") = false →
  initializeRedis p =
    (modify (λ p0,
       set_redisClient (Some (length (redis_clients p0)))
         (set_redis_clients
            (redis_clients p0 ++
               [{| client_url := default "" (env p !! "REDIS_URL");
                   client_open := false |}]) p0));;
     client ← gets redisClient;
     from_option client_connect (raise (null_deref "connect")) client;;
     client ← gets redisClient;
     from_option client_ping (raise (null_deref "ping")) client;;
     modify (λ p0,
       set_jobQueue (Some (length (queues p0)))
         (set_queues
            (queues p0 ++ [{| queue_name := "empire-jobs";
                              queue_url := default "" (env p !! "REDIS_URL");
                              queue_processors := 0 |}]) p0));;
     gets (λ p0, (redisClient p0, jobQueue p0))) p.
Proof.
  intros Hurl. unfold initializeRedis. task_unfold.
  rewrite Hurl. reflexivity.
Qed.

Lemma initializeRedis_run (p : Process) :
  unset (env p !! "REDIS_URL") = false →
  let n := answered 2 (replies p) in
  let url := default "" (env p !! "REDIS_URL") in
  let c := length (redis_clients p) in
  let q := length (queues p) in
  (n = 2 → result_of initializeRedis p = Fulfilled (Some c, Some q)) ∧
  (n < 2 → ∃ reply msg, replies p !! n = Some reply ∧
                        failure reply = Some msg ∧
                        result_of initializeRedis p = Raised (JsError msg)) ∧
  state_after initializeRedis p =
    set_jobQueue (if decide (n = 2) then Some q else jobQueue p)
      (set_queues
         (queues p ++
            if decide (n = 2)
            then [{| queue_name := "empire-jobs"; queue_url := url;
                     queue_processors := 0 |}]
            else [])
         (set_redisClient (Some c)
            (set_redis_clients
               (redis_clients p ++ [{| client_url := url;
                                       client_open := bool_decide (1 ≤ n) |}])
               (set_clock (clock p + elapsed (S n `min` 2) (replies p))
                  (set_replies (drop (S n `min` 2) (replies p)) p))))).
Proof.
  intros Hurl. unfold result_of, state_after.
  rewrite (initializeRedis_enter p Hurl). clear Hurl.
  destruct p as [env0 pool0 rc jq rcs qs leased0 tables0 st logs seq0 clock0
                 rs mem mt hci].
  script_cases rs 2.
  all: run_process; rewrite ?alter_last.
  all: (split; [intros ?; first [done | lia]|]).
  all: (split; [intros ?; first [lia | eauto 10]|]).
  all: f_equal.
  all: first [ unfold elapsed; simpl; lia | by rewrite ?app_nil_r ].
Qed.

Lemma task_eta {A} (m : Task A) (p : Process) :
  m p = (result_of m p, state_after m p).
Proof. unfold result_of, state_after. by destruct (m p). Qed.

(** X17.  A failed initialisation of Redis leaves a client behind.
    [initializeRedis] assigns [redisClient] before it connects, and
    [jobQueue] only after the ping: when the connection or the ping fails,
    the call rejects, [getRedisClient] returns the new client all the same
    (a client that is not connected, if it was the connection that failed)
    and the queue is not replaced; in a process that had no queue,
    [getJobQueue] keeps throwing. *)
Theorem initializeRedis_failure_leaves_client (p : Process) (e : Exception) :
  unset (env p !! "REDIS_URL") = false →
  result_of initializeRedis p = Raised e →
  let p' := state_after initializeRedis p in
  ∃ client,
    getRedisClient p' = (Fulfilled (length (redis_clients p)), p') ∧
    redis_clients p' = redis_clients p ++ [client] ∧
    client_url client = default "" (env p !! "REDIS_URL") ∧
    (client_open client = true ↔ answered 1 (replies p) = 1) ∧
    jobQueue p' = jobQueue p ∧ queues p' = queues p ∧
    (jobQueue p = None →
     getJobQueue p' =
       (Raised (JsError "Job queue not initialized. Call initializeRedis() first."),
        p')).
Proof.
  intros Hurl Hres p'.
  destruct (initializeRedis_run p Hurl) as (Hok & _ & Hst). fold p' in Hst.
  set (n := answered 2 (replies p)) in *.
  assert (n ≠ 2) as Hn.
  { intros H2. rewrite (Hok H2) in Hres. discriminate. }
  rewrite !decide_False, app_nil_r in Hst by done.
  exists {| client_url := default "" (env p !! "REDIS_URL");
            client_open := bool_decide (1 ≤ n) |}.
  split; [|split; [|split; [|split; [|split; [|split]]]]].
  - unfold getRedisClient. task_unfold. rewrite Hst. reflexivity.
  - rewrite Hst. reflexivity.
  - reflexivity.
  - cbn [client_open]. rewrite bool_decide_eq_true. subst n.
    destruct (replies p) as [|[t1 [m1|]] [|[t2 [m2|]] rs]]; simpl in *; lia.
  - by rewrite Hst.
  - by rewrite Hst.
  - intros Hq. unfold getJobQueue. task_unfold.
    assert (jobQueue p' = None) as -> by (by rewrite Hst).
    reflexivity.
Qed.

Lemma initializeRedis_failure_leaves_client_witness :
  result_of initializeRedis silent_redis =
    Raised (JsError "Connection timeout") ∧
  getRedisClient (state_after initializeRedis silent_redis) =
    (Fulfilled 0, state_after initializeRedis silent_redis) ∧
  result_of getJobQueue (state_after initializeRedis silent_redis) =
    Raised (JsError "Job queue not initialized. Call initializeRedis() first.").
Proof.
  split; [vm_compute; reflexivity|].
  destruct (initializeRedis_failure_leaves_client silent_redis
              (JsError "Connection timeout"))
    as (client & Hget & _ & _ & _ & _ & _ & Hqueue);
    [vm_compute; reflexivity..|].
  split; [exact Hget|].
  unfold result_of. rewrite Hqueue; reflexivity.
Defined.

Lemma answered_split (n k : nat) (script : list Reply) :
  answered (n + k) script = n + k →
  answered n script = n ∧ answered k (drop n script) = k.
Proof.
  revert script. induction n as [|n IH]; intros script; simpl.
  - by rewrite drop_0.
  - destruct script as [|[t [m|]] rs]; simpl; [|lia|].
    + intros _. split; [done|]. by destruct k.
    + intros H. destruct (IH rs) as [-> ->]; [lia|done].
Qed.

Lemma initialize_run (p : Process) (db : Pool) (q : nat) (queue : BullQueue) :
  pool p = Some db → jobQueue p = Some q → queues p !! q = Some queue →
  queue_processors queue = 0 →
  initialize p =
    (Fulfilled {| this_db := db; this_jobQueue := q |},
     set_queues (alter (λ q, {| queue_name := queue_name q;
                                queue_url := queue_url q;
                                queue_processors := S (queue_processors q) |})
                       q (queues p)) p).
Proof.
  intros Hdb Hq Hqueue Hnone.
  unfold initialize, getPool, getJobQueue, queue_process. task_unfold.
  rewrite Hdb, Hq, Hqueue. cbn. rewrite Hnone. by rewrite decide_False by lia.
Qed.

(** X18.  Unlike [initializeDatabase], [initializeRedis] is not guarded:
    every call that succeeds creates a new client and a new queue and makes
    the module variables refer to them.  After a second call the first
    client is still connected but no longer reachable, an orchestrator
    initialised in between keeps the first queue, on which its processor is
    set, and [getJobQueue] returns the second queue, which has no
    processor. *)
Theorem initializeRedis_is_not_idempotent (p : Process) (db : Pool) :
  pool p = Some db → unset (env p !! "REDIS_URL") = false →
  answered 4 (replies p) = 4 →
  let url := default "" (env p !! "REDIS_URL") in
  ∃ orchestrator p',
    (initializeRedis;;
     orchestrator ← initialize;
     initializeRedis;;
     queue ← getJobQueue;
     fulfil (orchestrator, queue)) p =
      (Fulfilled (orchestrator, S (length (queues p))), p') ∧
    this_jobQueue orchestrator = length (queues p) ∧
    queues p' =
      queues p ++ [ {| queue_name := "empire-jobs"; queue_url := url;
                       queue_processors := 1 |};
                    {| queue_name := "empire-jobs"; queue_url := url;
                       queue_processors := 0 |} ] ∧
    redis_clients p' =
      redis_clients p ++ [ {| client_url := url; client_open := true |};
                           {| client_url := url; client_open := true |} ] ∧
    redisClient p' = Some (S (length (redis_clients p))).
Proof.
  intros Hdb Hurl Hrs url.
  destruct (answered_split 2 2 (replies p) Hrs) as [H1 H2].
  destruct (initializeRedis_run p Hurl) as (Hok1 & _ & Hst1).
  rewrite H1 in Hok1, Hst1. specialize (Hok1 eq_refl).
  rewrite !decide_True in Hst1 by done. fold url in Hst1.
  set (p1 := state_after initializeRedis p) in *.
  assert (initialize p1 =
            (Fulfilled {| this_db := db; this_jobQueue := length (queues p) |},
             set_queues (queues p ++ [{| queue_name := "empire-jobs";
                                         queue_url := url;
                                         queue_processors := 1 |}]) p1))
    as Hinit.
  { rewrite (initialize_run p1 db (length (queues p))
               {| queue_name := "empire-jobs"; queue_url := url;
                  queue_processors := 0 |});
      [|by rewrite Hst1|by rewrite Hst1| |reflexivity].
    - do 2 f_equal. rewrite Hst1. cbn [queues set_jobQueue set_queues].
      by rewrite alter_last.
    - rewrite Hst1. cbn [queues set_jobQueue set_queues].
      by rewrite lookup_app_r, Nat.sub_diag by done. }
  set (p2 := set_queues _ p1) in Hinit.
  assert (unset (env p2 !! "REDIS_URL") = false) as Hurl2.
  { unfold p2. cbn [env set_queues]. by rewrite Hst1. }
  destruct (initializeRedis_run p2 Hurl2) as (Hok2 & _ & Hst2).
  assert (replies p2 = drop 2 (replies p)) as Hrs2.
  { unfold p2. cbn [replies set_queues]. by rewrite Hst1. }
  rewrite Hrs2, H2 in Hok2, Hst2. specialize (Hok2 eq_refl).
  rewrite !decide_True in Hst2 by done.
  assert (env p2 = env p) as Henv by (unfold p2; by rewrite Hst1).
  assert (queues p2 = queues p ++ [{| queue_name := "empire-jobs";
                                      queue_url := url;
                                      queue_processors := 1 |}]) as Hq2
    by done.
  assert (redis_clients p2 =
            redis_clients p ++ [{| client_url := url; client_open := true |}])
    as Hc2 by (unfold p2; by rewrite Hst1).
  rewrite Henv, Hq2, Hc2 in Hst2. rewrite Hq2, Hc2 in Hok2. fold url in Hst2.
  rewrite !length_app in Hst2, Hok2. cbn [length] in Hst2, Hok2.
  rewrite !Nat.add_1_r in Hst2, Hok2.
  set (p3 := state_after initializeRedis p2) in *.
  exists {| this_db := db; this_jobQueue := length (queues p) |}, p3.
  split; [|split; [done|split; [|split]]].
  - task_unfold.
    rewrite (task_eta initializeRedis p), Hok1. fold p1. rewrite Hinit.
    rewrite (task_eta initializeRedis p2), Hok2. fold p3.
    unfold getJobQueue. task_unfold. by rewrite Hst2.
  - rewrite Hst2. cbn [queues set_jobQueue set_queues]. by rewrite <- app_assoc.
  - rewrite Hst2. cbn. by rewrite <- app_assoc.
  - by rewrite Hst2.
Qed.

Lemma initializeRedis_is_not_idempotent_witness :
  ∃ orchestrator p',
    (initializeRedis;;
     orchestrator ← initialize;
     initializeRedis;;
     queue ← getJobQueue;
     fulfil (orchestrator, queue)) database_ready =
      (Fulfilled (orchestrator, 1), p') ∧
    this_jobQueue orchestrator = 0 ∧
    queue_processors <$> queues p' = [1; 0].
Proof.
  destruct (initializeRedis_is_not_idempotent database_ready
              (new_Pool "postgres://empire@db/empire" (Some "production")))
    as (o & p' & Hrun & Ho & Hq & _); [vm_compute; reflexivity..|].
  exists o, p'. split; [exact Hrun|]. split; [exact Ho|].
  rewrite Hq. reflexivity.
Defined.

(** ** The health monitor *)

Ltac run_monitor :=
  cbv [checkDatabase checkRedis checkWorkflowMetrics sendAlert getPool
       getRedisClient select_1 count_active_workflows count_pending_jobs
       insert_system_log error_message service_health requests_with_pool];
  run_process.

Lemma and_then_fulfilled {A B} (m : Task A) (k : A → Task B) (p : Process)
    (a : A) :
  result_of m p = Fulfilled a → (m ≫= k) p = k a (state_after m p).
Proof.
  unfold result_of, state_after, mbind, Task_bind, and_then.
  destruct (m p) as [[a'|e] p']; simpl; [|done]. by intros [= ->].
Qed.

Lemma unchanged_refl (p : Process) : unchanged 0 p p.
Proof. split; done. Qed.

Lemma elapsed_add (j k : nat) (script : list Reply) :
  elapsed (j + k) script = elapsed j script + elapsed k (drop j script).
Proof.
  unfold elapsed. revert script. induction j as [|j IH]; intros script.
  - by rewrite drop_0.
  - destruct script as [|reply rest]; cbn.
    + by rewrite take_nil.
    + specialize (IH rest). cbn in IH. lia.
Qed.

Lemma unchanged_trans (j k : nat) (p1 p2 p3 : Process) :
  unchanged j p1 p2 → unchanged k p2 p3 → unchanged (j + k) p1 p3.
Proof.
  intros [] []. split; try congruence.
  - rewrite <- drop_drop. congruence.
  - rewrite elapsed_add. replace (replies p2) with (drop j (replies p1)) in *.
    lia.
Qed.

Lemma checkDatabase_run (p : Process) :
  let p' := state_after checkDatabase p in
  result_of checkDatabase p = Fulfilled tt ∧
  unchanged (if pool p is Some _ then 1 else 0) p p' ∧
  system_logs p' = system_logs p ∧
  system_logs_id_seq p' = system_logs_id_seq p ∧
  metrics p' =
    with_database
      (service_health (pool p)
         "Database not initialized. Call initializeDatabase() first."
         (replies p))
      (metrics p).
Proof.
  destruct p as [env0 pool0 rc jq rcs qs leased0 tables0 st logs seq0 clock0
                 rs mem mt hci].
  destruct pool0; [script_cases rs 1|]; run_monitor.
  all: repeat split; try done.
  all: try (unfold elapsed; simpl; lia).
  all: repeat f_equal; lia.
Qed.

Lemma checkRedis_run (p : Process) :
  let p' := state_after checkRedis p in
  result_of checkRedis p = Fulfilled tt ∧
  unchanged (if redisClient p is Some _ then 1 else 0) p p' ∧
  system_logs p' = system_logs p ∧
  system_logs_id_seq p' = system_logs_id_seq p ∧
  metrics p' =
    with_redis
      (service_health (redisClient p)
         "Redis not initialized. Call initializeRedis() first."
         (replies p))
      (metrics p).
Proof.
  destruct p as [env0 pool0 rc jq rcs qs leased0 tables0 st logs seq0 clock0
                 rs mem mt hci].
  destruct rc; [script_cases rs 1|]; run_monitor.
  all: repeat split; try done.
  all: try (unfold elapsed; simpl; lia).
  all: repeat f_equal; lia.
Qed.

Lemma checkWorkflowMetrics_run (p : Process) :
  let p' := state_after checkWorkflowMetrics p in
  let n := answered 2 (replies p) in
  let counted := if decide (is_Some (pool p) ∧ 1 ≤ n)
                 then with_activeWorkflows (active_workflows (store p))
                                           (metrics p)
                 else metrics p in
  result_of checkWorkflowMetrics p = Fulfilled tt ∧
  unchanged (requests_with_pool 2 p) p p' ∧
  system_logs p' = system_logs p ∧
  system_logs_id_seq p' = system_logs_id_seq p ∧
  metrics p' =
    if decide (is_Some (pool p) ∧ n = 2)
    then with_pendingJobs (pending_jobs (store p)) counted
    else counted.
Proof.
  destruct p as [env0 pool0 rc jq rcs qs leased0 tables0 st logs seq0 clock0
                 rs mem mt hci].
  destruct pool0; [script_cases rs 2|]; run_monitor.
  all: repeat split; try done.
  all: try (unfold elapsed; simpl; lia).
  all: repeat first
         [ rewrite decide_True by (split; [by eexists|lia])
         | rewrite decide_False by (intros [[] ?]; first [lia|done]) ];
       done.
Qed.

Lemma sendAlert_run (message : AlertMessage) (p : Process) :
  let p' := state_after (sendAlert message) p in
  let stored := if decide (is_Some (pool p) ∧ answered 1 (replies p) = 1)
                then [alert_row message p] else [] in
  result_of (sendAlert message) p = Fulfilled tt ∧
  unchanged (requests_with_pool 1 p) p p' ∧
  metrics p' = metrics p ∧
  system_logs p' = system_logs p ++ stored ∧
  system_logs_id_seq p' = system_logs_id_seq p + length stored.
Proof.
  destruct p as [env0 pool0 rc jq rcs qs leased0 tables0 st logs seq0 clock0
                 rs mem mt hci].
  destruct pool0; [script_cases rs 1|]; run_monitor.
  all: repeat split; try done.
  all: try (unfold elapsed; simpl; lia).
  all: repeat first
         [ rewrite decide_True by (split; [by eexists|lia])
         | rewrite decide_False by (intros [[] ?]; first [lia|done]) ];
       rewrite ?app_nil_r; simpl; first [done | lia].
Qed.

Lemma modify_then {B} (f : Process → Process) (k : unit → Task B)
    (p : Process) :
  (modify f ≫= k) p = k tt (f p).
Proof. reflexivity. Qed.

Lemma gets_then {A B} (f : Process → A) (k : A → Task B) (p : Process) :
  (gets f ≫= k) p = k (f p) p.
Proof. reflexivity. Qed.

Lemma checks_run (p : Process) :
  let p1 := state_after checkDatabase p in
  let p2 := state_after checkRedis p1 in
  let p3 := checkSystemResources p2 in
  let p4 := state_after checkWorkflowMetrics p3 in
  (checkDatabase;; checkRedis;; modify checkSystemResources;;
   checkWorkflowMetrics) p = (Fulfilled tt, p4).
Proof.
  intros p1 p2 p3 p4.
  destruct (checkDatabase_run p) as (R1 & _).
  destruct (checkRedis_run p1) as (R2 & _).
  destruct (checkWorkflowMetrics_run p3) as (R4 & _).
  rewrite (and_then_fulfilled _ _ _ _ R1). fold p1.
  rewrite (and_then_fulfilled _ _ _ _ R2). fold p2.
  rewrite modify_then. fold p3.
  rewrite (task_eta checkWorkflowMetrics p3), R4. done.
Qed.

Lemma performHealthCheck_run (p : Process) :
  let p5 := checked p in
  let p6 := if bool_decide (unhealthy (metrics p5))
            then state_after (sendAlert SystemHealthCheckFailed) p5 else p5 in
  let p7 := if high_memory (metrics p6)
            then state_after
                   (sendAlert (HighMemoryUsage
                                 (mem_percentage (m_memory (metrics p6))))) p6
            else p6 in
  performHealthCheck p = (Fulfilled tt, p7).
Proof.
  intros p5 p6 p7. unfold performHealthCheck, catch.
  rewrite gets_then.
  assert (∀ (k : unit → Task unit),
            (checkDatabase;; checkRedis;; modify checkSystemResources;;
             checkWorkflowMetrics;; k tt) p =
            k tt (state_after
                    (checkDatabase;; checkRedis;; modify checkSystemResources;;
                     checkWorkflowMetrics) p)) as Hchecks.
  { intros k. pose proof (checks_run p) as H. cbv zeta in H.
    unfold state_after. rewrite H.
    unfold mbind, Task_bind, and_then in H |- *.
    destruct (checkDatabase p) as [[[]|e1] q1]; [|done].
    destruct (checkRedis q1) as [[[]|e2] q2]; [|done].
    unfold modify in H |- *.
    destruct (checkWorkflowMetrics (checkSystemResources q2))
      as [[[]|e4] q4]; [|done].
    by injection H as ->. }
  rewrite (Hchecks (λ _, _)).
  rewrite !modify_then, gets_then.
  change (set_metrics _ _) with p5.
  set (rest := λ _ : unit, _).
  assert ((if bool_decide (unhealthy (metrics p5))
           then sendAlert SystemHealthCheckFailed else fulfil tt) p5 =
          (Fulfilled tt, p6)) as H6.
  { unfold p6. case_bool_decide; [|done].
    destruct (sendAlert_run SystemHealthCheckFailed p5) as (R & _).
    by rewrite (task_eta (sendAlert _) p5), R. }
  unfold unhealthy in H6 at 1.
  unfold mbind, Task_bind, and_then at 1. rewrite H6. unfold rest.
  rewrite gets_then. fold (high_memory (metrics p6)).
  unfold p7. destruct (high_memory (metrics p6)); [|done].
  destruct (sendAlert_run (HighMemoryUsage
                             (mem_percentage (m_memory (metrics p6)))) p6)
    as (R & _).
  by rewrite (task_eta (sendAlert _) p6), R.
Qed.

Lemma checkSystemResources_run (p : Process) :
  let p' := checkSystemResources p in
  unchanged 0 p p' ∧
  system_logs p' = system_logs p ∧
  system_logs_id_seq p' = system_logs_id_seq p ∧
  metrics p' = with_memory (memory_metrics (memoryUsage p)) (metrics p).
Proof. by destruct p. Qed.

Lemma checked_run (p : Process) :
  let p5 := checked p in
  let k1 := if pool p is Some _ then 1 else 0 in
  let k2 := if redisClient p is Some _ then 1 else 0 in
  ∃ k,
    k ≤ 2 ∧ (pool p = None → k = 0) ∧
    unchanged (k1 + k2 + k) p p5 ∧
    system_logs p5 = system_logs p ∧
    system_logs_id_seq p5 = system_logs_id_seq p ∧
    m_database (metrics p5) =
      service_health (pool p)
        "Database not initialized. Call initializeDatabase() first."
        (replies p) ∧
    m_redis (metrics p5) =
      service_health (redisClient p)
        "Redis not initialized. Call initializeRedis() first."
        (drop k1 (replies p)) ∧
    m_memory (metrics p5) = memory_metrics (memoryUsage p) ∧
    m_lastCheck (metrics p5) = Some (clock p5) ∧
    m_uptime (metrics p5) = clock p5 ∧
    m_activeWorkflows (metrics p5) =
      (if decide (is_Some (pool p) ∧
                  1 ≤ answered 2 (drop (k1 + k2) (replies p)))
       then active_workflows (store p)
       else m_activeWorkflows (metrics p)) ∧
    m_pendingJobs (metrics p5) =
      (if decide (is_Some (pool p) ∧
                  answered 2 (drop (k1 + k2) (replies p)) = 2)
       then pending_jobs (store p)
       else m_pendingJobs (metrics p)).
Proof.
  intros p5 k1 k2.
  pose proof (checks_run p) as Hrun. cbv zeta in Hrun.
  set (p1 := state_after checkDatabase p) in *.
  set (p2 := state_after checkRedis p1) in *.
  set (p3 := checkSystemResources p2) in *.
  set (p4 := state_after checkWorkflowMetrics p3) in *.
  assert (p5 = set_metrics
                 (with_uptime (clock p4)
                    (with_lastCheck (Some (clock p4)) (metrics p4))) p4)
    as H5.
  { unfold p5, checked.
    replace (state_after
               (checkDatabase;; checkRedis;; modify checkSystemResources;;
                checkWorkflowMetrics) p) with p4; [done|].
    unfold state_after at 1. by rewrite Hrun. }
  clearbody p5. subst p5.
  set (p5 := set_metrics _ p4).
  destruct (checkDatabase_run p) as (_ & U1 & L1 & S1 & M1).
  destruct (checkRedis_run p1) as (_ & U2 & L2 & S2 & M2).
  destruct (checkSystemResources_run p2) as (U3 & L3 & S3 & M3).
  destruct (checkWorkflowMetrics_run p3) as (_ & U4 & L4 & S4 & M4).
  fold p1 in U1, L1, S1, M1. fold p2 in U2, L2, S2, M2.
  fold p3 in U3, L3, S3, M3. fold p4 in U4, L4, S4, M4.
  fold k1 in U1.
  assert (pool p1 = pool p) as P1 by apply U1.
  assert (pool p2 = pool p) as P2 by (rewrite <- P1; apply U2).
  assert (pool p3 = pool p) as P3 by (rewrite <- P2; apply U3).
  assert (redisClient p1 = redisClient p) as C1 by apply U1.
  assert (replies p1 = drop k1 (replies p)) as R1 by apply U1.
  rewrite C1 in U2, M2. fold k2 in U2. rewrite R1 in M2.
  assert (unchanged (k1 + k2 + requests_with_pool 2 p3) p p4) as U.
  { eapply unchanged_trans; [|exact U4].
    replace (k1 + k2) with (k1 + k2 + 0) by lia.
    eapply unchanged_trans; [|exact U3].
    eapply unchanged_trans; [exact U1|exact U2]. }
  exists (requests_with_pool 2 p3).
  assert (metrics p5 =
            with_uptime (clock p4)
              (with_lastCheck (Some (clock p4)) (metrics p4))) as M5
    by reflexivity.
  assert (clock p5 = clock p4) as K5 by reflexivity.
  assert (m_database (metrics p4) = m_database (metrics p1) ∧
          m_redis (metrics p4) = m_redis (metrics p2) ∧
          m_memory (metrics p4) = m_memory (metrics p3)) as (D4 & E4 & F4).
  { rewrite M4. repeat case_decide; cbn; rewrite ?M3, ?M2; done. }
  assert (replies p3 = drop (k1 + k2) (replies p)) as R3.
  { transitivity (replies p2); [apply U3|].
    destruct U2 as [_ _ _ _ _ _ _ _ _ _ _ -> _]. by rewrite R1, drop_drop. }
  assert (store p3 = store p) as W3.
  { transitivity (store p2); [apply U3|].
    transitivity (store p1); [apply U2|apply U1]. }
  rewrite P3, R3, W3 in M4.
  split; [|split; [|split; [|split; [|split; [|split; [|split; [|split;
    [|split; [|split; [|split]]]]]]]]]].
  - unfold requests_with_pool. destruct (pool p3); lia.
  - intros Hp. unfold requests_with_pool. by rewrite P3, Hp.
  - destruct U. split; try done.
  - change (system_logs p5) with (system_logs p4). congruence.
  - change (system_logs_id_seq p5) with (system_logs_id_seq p4). congruence.
  - rewrite M5. cbn. rewrite D4, M1. done.
  - rewrite M5. cbn. rewrite E4, M2. done.
  - rewrite M5. cbn. rewrite F4, M3. cbn.
    f_equal. transitivity (memoryUsage p1); [apply U2|apply U1].
  - rewrite M5, K5. done.
  - rewrite M5, K5. done.
  - rewrite M5. cbn. rewrite M4.
    repeat case_decide; cbn; rewrite ?M3, ?M2, ?M1; try done;
      exfalso; naive_solver lia.
  - rewrite M5. cbn. rewrite M4.
    repeat case_decide; cbn; rewrite ?M3, ?M2, ?M1; try done;
      exfalso; naive_solver lia.
Qed.

Lemma alert_if_run (b : bool) (message : AlertMessage) (p : Process) :
  let p' := if b then state_after (sendAlert message) p else p in
  ∃ k new,
    k ≤ 1 ∧ unchanged k p p' ∧ metrics p' = metrics p ∧
    system_logs p' = system_logs p ++ new ∧
    length new ≤ 1 ∧
    Forall (λ row, row = alert_row message p ∧ b = true ∧ is_Some (pool p))
           new ∧
    (pool p = None → k = 0).
Proof.
  destruct b; cbv zeta.
  - destruct (sendAlert_run message p) as (_ & U & M & L & _).
    exists (requests_with_pool 1 p),
           (if decide (is_Some (pool p) ∧ answered 1 (replies p) = 1)
            then [alert_row message p] else []).
    split; [|split; [exact U|]].
    { unfold requests_with_pool. destruct (pool p); lia. }
    split; [exact M|]. split; [exact L|].
    case_decide as H; simpl.
    + split; [lia|]. split; [|unfold requests_with_pool; by intros ->].
      repeat constructor. apply H.
    + split; [lia|]. split; [constructor|].
      unfold requests_with_pool. by intros ->.
  - exists 0, []. rewrite app_nil_r.
    repeat split; first [done | simpl; lia | constructor].
Qed.

Lemma service_health_known {A} (module : option A) (guard : string)
    (script : list Reply) :
  svc_status (service_health module guard script) ≠ Unknown.
Proof.
  unfold service_health.
  destruct module; [destruct script as [|[t [m|]] rest]|]; done.
Qed.

Lemma unchanged_clock (k : nat) (p p' : Process) :
  unchanged k p p' → clock p ≤ clock p'.
Proof. intros []. lia. Qed.

Lemma unchanged_more (j k : nat) (p p' : Process) :
  unchanged j p p' → j = k → unchanged k p p'.
Proof. by intros ? <-. Qed.

Lemma performHealthCheck_safe (p : Process) :
  let p' := state_after performHealthCheck p in
  result_of performHealthCheck p = Fulfilled tt ∧
  ∃ k new t,
    k ≤ 6 ∧ unchanged k p p' ∧
    system_logs p' = system_logs p ++ new ∧ length new ≤ 2 ∧
    Forall (λ row, log_level row = "alert" ∧ log_metadata row = metrics p')
           new ∧
    m_lastCheck (metrics p') = Some t ∧ clock p ≤ t ≤ clock p' ∧
    svc_status (m_database (metrics p')) ≠ Unknown ∧
    svc_status (m_redis (metrics p')) ≠ Unknown.
Proof.
  intros p'. pose proof (performHealthCheck_run p) as Hrun. cbv zeta in Hrun.
  unfold p', result_of, state_after. rewrite Hrun. cbn [fst snd]. clear p' Hrun.
  split; [done|].
  destruct (checked_run p)
    as (k0 & Hk0 & _ & U5 & L5 & _ & D5 & R5 & _ & T5 & _).
  set (p5 := checked p) in *.
  destruct (alert_if_run (bool_decide (unhealthy (metrics p5)))
              SystemHealthCheckFailed p5)
    as (k6 & new6 & Hk6 & U6 & M6 & L6 & N6 & A6 & _).
  set (p6 := if bool_decide (unhealthy (metrics p5)) then _ else _) in *.
  destruct (alert_if_run (high_memory (metrics p6))
              (HighMemoryUsage (mem_percentage (m_memory (metrics p6)))) p6)
    as (k7 & new7 & Hk7 & U7 & M7 & L7 & N7 & A7 & _).
  set (p7 := if high_memory (metrics p6) then _ else _) in *.
  eexists _, (new6 ++ new7), (clock p5).
  split; [|split; [exact (unchanged_trans _ _ _ _ _
                            (unchanged_trans _ _ _ _ _ U5 U6) U7)|]].
  { destruct (pool p), (redisClient p); lia. }
  split; [by rewrite L7, L6, L5, app_assoc|].
  split; [rewrite length_app; lia|].
  split.
  { apply Forall_app. split.
    - eapply Forall_impl; [exact A6|]. intros row (-> & _).
      split; [done|]. cbn. by rewrite M7, M6.
    - eapply Forall_impl; [exact A7|]. intros row (-> & _).
      split; [done|]. cbn. by rewrite M7. }
  rewrite M7, M6.
  split; [exact T5|].
  split.
  { apply unchanged_clock in U5, U6, U7. lia. }
  rewrite D5, R5. split; apply service_health_known.
Qed.

(** X19.  A health check never rejects, whatever the services answer and
    whether or not the modules are initialised.  It sends at most six
    requests, touches neither the module variables nor the tables
    [workflows] and [jobs], and records a status for the database and for
    Redis that is never [Unknown], together with the time of the check.
    It stores at most two rows in [system_logs], each an alert that carries
    the metrics of this very check. *)
Theorem health_check_never_rejects (p : Process) :
  let p' := state_after performHealthCheck p in
  result_of performHealthCheck p = Fulfilled tt ∧
  ∃ k new t,
    k ≤ 6 ∧ unchanged k p p' ∧
    system_logs p' = system_logs p ++ new ∧ length new ≤ 2 ∧
    Forall (λ row, log_level row = "alert" ∧ log_metadata row = metrics p')
           new ∧
    m_lastCheck (metrics p') = Some t ∧ clock p ≤ t ≤ clock p' ∧
    svc_status (m_database (metrics p')) ≠ Unknown ∧
    svc_status (m_redis (metrics p')) ≠ Unknown.
Proof. apply performHealthCheck_safe. Qed.

(** X20.  An alert needs the database it reports on.  While the database
    module is not initialised, a health check records the database as
    unhealthy, with the message of [getPool], but stores nothing in
    [system_logs]: the alert it raises goes to the log only.  The check
    then sends no request to the database at all, and the two workflow
    figures keep their previous values. *)
Theorem alert_needs_the_database (p : Process) :
  pool p = None →
  let p' := state_after performHealthCheck p in
  m_database (metrics p') =
    {| svc_status := Unhealthy; svc_responseTime := 0;
       svc_error :=
         Some "Database not initialized. Call initializeDatabase() first." |} ∧
  system_logs p' = system_logs p ∧
  m_activeWorkflows (metrics p') = m_activeWorkflows (metrics p) ∧
  m_pendingJobs (metrics p') = m_pendingJobs (metrics p) ∧
  unchanged (if redisClient p is Some _ then 1 else 0) p p'.
Proof.
  intros Hpool p'. pose proof (performHealthCheck_run p) as Hrun.
  cbv zeta in Hrun.
  unfold p', state_after. rewrite Hrun. cbn [snd]. clear p' Hrun.
  destruct (checked_run p)
    as (k0 & _ & Hk0 & U5 & L5 & _ & D5 & _ & _ & _ & _ & W5 & J5).
  specialize (Hk0 Hpool). subst k0. rewrite Hpool in U5, D5, W5, J5.
  rewrite decide_False in W5 by (by intros [[] _]).
  rewrite decide_False in J5 by (by intros [[] _]).
  set (p5 := checked p) in *.
  assert (pool p5 = None) as Hpool5 by (rewrite <- Hpool; apply U5).
  destruct (alert_if_run (bool_decide (unhealthy (metrics p5)))
              SystemHealthCheckFailed p5)
    as (k6 & new6 & _ & U6 & M6 & L6 & _ & A6 & Hk6).
  set (p6 := if bool_decide (unhealthy (metrics p5)) then _ else _) in *.
  assert (pool p6 = None) as Hpool6 by (rewrite <- Hpool5; apply U6).
  destruct (alert_if_run (high_memory (metrics p6))
              (HighMemoryUsage (mem_percentage (m_memory (metrics p6)))) p6)
    as (k7 & new7 & _ & U7 & M7 & L7 & _ & A7 & Hk7).
  set (p7 := if high_memory (metrics p6) then _ else _) in *.
  rewrite (Hk6 Hpool5) in U6. rewrite (Hk7 Hpool6) in U7.
  assert (new6 = []) as ->.
  { destruct new6 as [|row ?]; [done|].
    apply Forall_cons in A6 as [(_ & _ & [? Hsome]) _]. congruence. }
  assert (new7 = []) as ->.
  { destruct new7 as [|row ?]; [done|].
    apply Forall_cons in A7 as [(_ & _ & [? Hsome]) _]. congruence. }
  rewrite app_nil_r in L6, L7.
  rewrite M7, M6, D5, W5, J5, L7, L6, L5.
  do 4 (split; [done|]).
  eapply unchanged_more;
    [exact (unchanged_trans _ _ _ _ _ (unchanged_trans _ _ _ _ _ U5 U6) U7)|].
  destruct (redisClient p); simpl; lia.
Qed.

Lemma alert_needs_the_database_witness :
  svc_status
    (m_database
       (metrics (state_after performHealthCheck
                   (fresh settings [] small_heap initial)))) = Unhealthy ∧
  system_logs (state_after performHealthCheck
                 (fresh settings [] small_heap initial)) = [].
Proof.
  destruct (alert_needs_the_database (fresh settings [] small_heap initial))
    as (Hdb & Hlogs & _); [reflexivity|].
  split; [by rewrite Hdb|exact Hlogs].
Defined.

(** X21.  Figures that could not be read go unnoticed.  When the database
    answers the check but the first count fails, the health check still
    records the database as healthy and stamps the check, while
    [activeWorkflows] and [pendingJobs] keep the values of an earlier
    check; and unless Redis is unhealthy or memory is high, no alert is
    stored. *)
Theorem unread_figures_go_unnoticed (p : Process) :
  is_Some (pool p) → answered 1 (replies p) = 1 →
  answered 1 (drop (if redisClient p is Some _ then 2 else 1) (replies p)) = 0 →
  let p' := state_after performHealthCheck p in
  svc_status (m_database (metrics p')) = Healthy ∧
  (∃ t, m_lastCheck (metrics p') = Some t ∧ clock p ≤ t) ∧
  m_activeWorkflows (metrics p') = m_activeWorkflows (metrics p) ∧
  m_pendingJobs (metrics p') = m_pendingJobs (metrics p) ∧
  (svc_status (m_redis (metrics p')) = Healthy →
   high_memory (metrics p') = false →
   system_logs p' = system_logs p).
Proof.
  intros [db Hpool] Hcheck Hcount p'.
  pose proof (performHealthCheck_run p) as Hrun. cbv zeta in Hrun.
  unfold p', state_after. rewrite Hrun. cbn [snd]. clear p' Hrun.
  destruct (checked_run p)
    as (k0 & _ & _ & U5 & L5 & _ & D5 & _ & _ & T5 & _ & W5 & J5).
  rewrite Hpool in U5, D5, W5, J5.
  assert (answered 2 (drop (1 + (if redisClient p is Some _ then 1 else 0))
                           (replies p)) = 0) as Hnone.
  { replace (1 + (if redisClient p is Some _ then 1 else 0))
      with (if redisClient p is Some _ then 2 else 1)
      by (by destruct (redisClient p)).
    revert Hcount. generalize (drop (if redisClient p is Some _ then 2 else 1)
                                    (replies p)).
    intros [|[t [m|]] rest]; simpl; [lia|done|lia]. }
  rewrite Hnone in W5, J5.
  rewrite decide_False in W5 by (intros [_ ?]; lia).
  rewrite decide_False in J5 by (intros [_ ?]; lia).
  set (p5 := checked p) in *.
  destruct (alert_if_run (bool_decide (unhealthy (metrics p5)))
              SystemHealthCheckFailed p5)
    as (k6 & new6 & _ & U6 & M6 & L6 & _ & A6 & _).
  set (p6 := if bool_decide (unhealthy (metrics p5)) then _ else _) in *.
  destruct (alert_if_run (high_memory (metrics p6))
              (HighMemoryUsage (mem_percentage (m_memory (metrics p6)))) p6)
    as (k7 & new7 & _ & U7 & M7 & L7 & _ & A7 & _).
  set (p7 := if high_memory (metrics p6) then _ else _) in *.
  assert (svc_status (m_database (metrics p5)) = Healthy) as Hdb.
  { rewrite D5. unfold service_health.
    destruct (replies p) as [|[t [m|]] rest]; simpl in *; [done|lia|done]. }
  rewrite M7, M6.
  split; [exact Hdb|]. split.
  { exists (clock p5). split; [exact T5|]. by apply unchanged_clock in U5. }
  split; [exact W5|]. split; [exact J5|].
  intros Hredis Hmem. rewrite M6 in A7. rewrite Hmem in A7.
  assert (new7 = []) as ->.
  { destruct new7 as [|row ?]; [done|].
    by apply Forall_cons in A7 as [(_ & ? & _) _]. }
  assert (new6 = []) as ->.
  { destruct new6 as [|row ?]; [done|].
    apply Forall_cons in A6 as [(_ & Hb & _) _].
    apply bool_decide_eq_true in Hb as [Hb|Hb]; congruence. }
  by rewrite L7, L6, L5, !app_nil_r.
Qed.

Lemma unread_figures_go_unnoticed_witness :
  m_activeWorkflows (metrics counts_fail) = 3 ∧
  active_workflows (store counts_fail) = 0 ∧
  m_activeWorkflows (metrics (state_after performHealthCheck counts_fail)) = 3 ∧
  svc_status
    (m_database (metrics (state_after performHealthCheck counts_fail))) =
    Healthy.
Proof.
  split; [reflexivity|]. split; [reflexivity|].
  destruct (unread_figures_go_unnoticed counts_fail)
    as (Hdb & _ & Hfig & _); [by eexists|reflexivity..|].
  split; [by rewrite Hfig|exact Hdb].
Defined.

(** ** The figures of an idle system *)




(** ** Start-up *)

Lemma and_then_raised {A B} (m : Task A) (k : A → Task B) (p : Process)
    (e : Exception) :
  result_of m p = Raised e → (m ≫= k) p = (Raised e, state_after m p).
Proof.
  unfold result_of, state_after, mbind, Task_bind, and_then.
  destruct (m p) as [[a'|e'] p']; simpl; [done|]. by intros [= ->].
Qed.

Lemma answered_join (n k : nat) (script : list Reply) :
  answered n script = n → answered k (drop n script) = k →
  answered (n + k) script = n + k.
Proof.
  revert script. induction n as [|n IH]; intros script; simpl.
  - by rewrite drop_0.
  - destruct script as [|[t [m|]] rs]; simpl; [done|lia|].
    intros H1 H2. rewrite IH; [done|lia|done].
Qed.

Lemma startSystem_run (environment : gmap string string)
    (script : list Reply) (memory : MemoryUsage) (rows : World) :
  let p := fresh environment script memory rows in
  let ready := unset (environment !! "DATABASE_URL") = false ∧
               unset (environment !! "REDIS_URL") = false ∧
               answered 8 script = 8 in
  (¬ ready → fst (startSystem p) = Exited 1) ∧
  (ready →
   let p' := snd (startSystem p) in
   fst (startSystem p) = Listening (PORT p) ∧
   pool p' = Some (new_Pool (default "" (environment !! "DATABASE_URL"))
                            (environment !! "NODE_ENV")) ∧
   redisClient p' = Some 0 ∧
   redis_clients p' =
     [{| client_url := default "" (environment !! "REDIS_URL");
         client_open := true |}] ∧
   jobQueue p' = Some 0 ∧
   queues p' =
     [{| queue_name := "empire-jobs";
         queue_url := default "" (environment !! "REDIS_URL");
         queue_processors := 1 |}] ∧
   tables p' = {[ "workflows"; "jobs"; "system_logs" ]} ∧
   leased p' = 0 ∧
   healthCheckInterval p' = Some true ∧
   is_Some (m_lastCheck (metrics p')) ∧
   store p' = rows).
Proof.
  intros p ready. unfold startSystem.
  set (boot := (initializeDatabase;; initializeRedis;;
                orchestrator ← initialize;
                modify new_SystemHealthMonitor;; start)).
  assert (pool p = None) as Hpool by reflexivity.
  destruct (unset (environment !! "DATABASE_URL")) eqn:HD.
  { split; [|intros (? & _); done]. intros _.
    unfold boot, initializeDatabase. task_unfold.
    cbn [pool p fresh env]. by rewrite HD. }
  destruct (initializeDatabase_run p Hpool HD) as (Hok & Hfail & Hst).
  cbn [replies p fresh] in Hok, Hfail, Hst.
  pose proof (answered_le 6 script) as Hle.
  destruct (decide (answered 6 script = 6)) as [H6|H6]; cycle 1.
  { split; [|intros (_ & _ & H8); by apply (answered_split 6 2) in H8 as [? _]].
    intros _. destruct Hfail as (reply & msg & _ & _ & Hres); [lia|].
    unfold boot. by rewrite (and_then_raised _ _ _ _ Hres). }
  specialize (Hok H6). rewrite H6 in Hst.
  rewrite decide_False in Hst by lia.
  change (S 6 `min` 6) with 6 in Hst.
  change (take (6 - 3) ["workflows"; "jobs"; "system_logs"])
    with ["workflows"; "jobs"; "system_logs"] in Hst.
  set (p1 := state_after initializeDatabase p) in *.
  assert (boot p = (initializeRedis;; orchestrator ← initialize;
                    modify new_SystemHealthMonitor;; start) p1) as ->
    by (unfold boot; by rewrite (and_then_fulfilled _ _ _ _ Hok)).
  assert (env p1 = environment) as Henv1 by (by rewrite Hst).
  destruct (unset (environment !! "REDIS_URL")) eqn:HR.
  { split; [|intros (_ & ? & _); done]. intros _.
    unfold initializeRedis. task_unfold. by rewrite Henv1, HR. }
  assert (unset (env p1 !! "REDIS_URL") = false) as HR1 by (by rewrite Henv1).
  destruct (initializeRedis_run p1 HR1) as (Hok2 & Hfail2 & Hst2).
  assert (replies p1 = drop 6 script) as Hrs1 by (by rewrite Hst).
  assert (redis_clients p1 = []) as Hrc1 by (by rewrite Hst).
  assert (queues p1 = []) as Hq1 by (by rewrite Hst).
  rewrite ?Hrs1, ?Hrc1, ?Hq1, ?Henv1 in Hok2.
  rewrite ?Hrs1, ?Hrc1, ?Hq1, ?Henv1 in Hfail2.
  rewrite ?Hrs1, ?Hrc1, ?Hq1, ?Henv1 in Hst2.
  cbn [length app] in Hok2, Hst2.
  pose proof (answered_le 2 (drop 6 script)) as Hle2.
  destruct (decide (answered 2 (drop 6 script) = 2)) as [H2|H2]; cycle 1.
  { split; [|intros (_ & _ & H8); by apply (answered_split 6 2) in H8 as [_ ?]].
    intros _. destruct Hfail2 as (reply & msg & _ & _ & Hres); [lia|].
    by rewrite (and_then_raised _ _ _ _ Hres). }
  specialize (Hok2 H2). rewrite H2 in Hst2.
  rewrite bool_decide_eq_true_2 in Hst2 by lia.
  set (p2 := state_after initializeRedis p1) in *.
  rewrite (and_then_fulfilled _ _ _ _ Hok2). fold p2.
  set (queue := {| queue_name := "empire-jobs";
                   queue_url := default "" (environment !! "REDIS_URL");
                   queue_processors := 0 |}) in *.
  assert (initialize p2 =
            (Fulfilled {| this_db := new_Pool
                                       (default "" (environment !! "DATABASE_URL"))
                                       (environment !! "NODE_ENV");
                          this_jobQueue := 0 |},
             set_queues [{| queue_name := "empire-jobs";
                            queue_url := default "" (environment !! "REDIS_URL");
                            queue_processors := 1 |}] p2)) as Hinit.
  { rewrite (initialize_run p2
               (new_Pool (default "" (environment !! "DATABASE_URL"))
                         (environment !! "NODE_ENV")) 0 queue);
      [|by rewrite Hst2, Hst|by rewrite Hst2|by rewrite Hst2|done].
    do 2 f_equal. by rewrite Hst2. }
  set (p3 := set_queues _ p2) in Hinit.
  rewrite (and_then_fulfilled _ _ _ {| this_db := _; this_jobQueue := 0 |})
    by (unfold result_of; by rewrite Hinit).
  replace (state_after initialize p2) with p3
    by (unfold state_after; by rewrite Hinit).
  rewrite !modify_then. unfold start. rewrite !modify_then.
  set (p4 := set_healthCheckInterval (Some true) (new_SystemHealthMonitor p3)).
  destruct (performHealthCheck_safe p4)
    as (Hres & k & new & t & _ & U & _ & _ & _ & HT & _).
  rewrite (task_eta performHealthCheck p4), Hres.
  set (p5 := state_after performHealthCheck p4) in *.
  split; [intros Hnot; exfalso; apply Hnot; repeat split;
          by apply (answered_join 6 2)|].
  intros _. cbn [fst snd].
  destruct U as [Ue Up Uc Uj Ucs Uq Ul Ut Us _ Uh _ _].
  split.
  { f_equal. unfold PORT. rewrite Ue. unfold p4, p3. cbn [env]. by rewrite Hst2, Hst. }
  split; [rewrite Up; unfold p4, p3; by rewrite Hst2, Hst|].
  split; [rewrite Uc; unfold p4, p3; by rewrite Hst2|].
  split; [rewrite Ucs; unfold p4, p3; by rewrite Hst2|].
  split; [rewrite Uj; unfold p4, p3; by rewrite Hst2|].
  split; [rewrite Uq; done|].
  split.
  { rewrite Ut. unfold p4, p3. rewrite Hst2, Hst. cbn.
    apply set_eq. intros x. set_unfold. tauto. }
  split; [rewrite Ul; unfold p4, p3; by rewrite Hst2, Hst|].
  split; [rewrite Uh; done|].
  split; [by rewrite HT|].
  rewrite Us. unfold p4, p3. by rewrite Hst2, Hst.
Qed.

(** X23.  Start-up depends on the two connections and on nothing else.
    In a fresh process [startSystem] reaches [app.listen] exactly when
    [DATABASE_URL] and [REDIS_URL] are set and none of the eight requests
    of the two initialisations fails; in every other case it exits with
    code 1.  The orchestrator's [initialize] cannot fail at that point, and
    the first health check cannot stop the start, whatever it finds.  When
    the server listens, the pool and the queue are set, the queue has its
    one processor, the three tables exist, no client is checked out, and
    the monitor is scheduled and has run once. *)
Theorem startSystem_listens_iff (environment : gmap string string)
    (script : list Reply) (memory : MemoryUsage) (rows : World) :
  let p := fresh environment script memory rows in
  let p' := snd (startSystem p) in
  (fst (startSystem p) = Listening (PORT p) ↔
     unset (environment !! "DATABASE_URL") = false ∧
     unset (environment !! "REDIS_URL") = false ∧
     answered 8 script = 8) ∧
  (fst (startSystem p) ≠ Listening (PORT p) →
   fst (startSystem p) = Exited 1) ∧
  (fst (startSystem p) = Listening (PORT p) →
   is_Some (pool p') ∧
   (∃ queue, jobQueue p' = Some 0 ∧ queues p' = [queue] ∧
             queue_processors queue = 1) ∧
   tables p' = {[ "workflows"; "jobs"; "system_logs" ]} ∧
   leased p' = 0 ∧
   healthCheckInterval p' = Some true ∧
   is_Some (m_lastCheck (metrics p')) ∧
   store p' = rows).
Proof.
  intros p p'.
  destruct (startSystem_run environment script memory rows) as [Hno Hyes].
  fold p in Hno, Hyes. cbv zeta in Hyes. fold p' in Hyes.
  set (ready := unset (environment !! "DATABASE_URL") = false ∧
                unset (environment !! "REDIS_URL") = false ∧
                answered 8 script = 8) in *.
  assert (Decision ready) as [Hready|Hready] by (unfold ready; apply _).
  - destruct (Hyes Hready) as (HL & HP & _ & _ & HJ & HQ & HT & HLs & HH & HM & HS).
    split; [done|]. split; [done|]. intros _.
    split; [by rewrite HP|]. split; [by eexists|]. done.
  - specialize (Hno Hready).
    split; [split; [intros HL; congruence|done]|].
    split; [done|]. intros HL. congruence.
Qed.

Lemma startSystem_listens_iff_witness :
  fst (startSystem all_is_well) = Listening (PortNumber 3000) ∧
  fst (startSystem dropped_connection) = Exited 1 ∧
  leased (snd (startSystem all_is_well)) = 0.
Proof.
  destruct (startSystem_listens_iff settings [] small_heap initial)
    as (Hiff & _ & Hthen).
  assert (fst (startSystem all_is_well) = Listening (PORT all_is_well)) as HL
    by (apply Hiff; vm_compute; done).
  split; [exact HL|]. split; [vm_compute; reflexivity|].
  by destruct (Hthen HL) as (_ & _ & _ & ? & _).
Defined.
